(** * Cross-organization collections of the portal's GitHub library

    A shallow embedding of [createMethods] (the cross-organization
    collection methods built on the composite cache engine):
    [generalizedCollectionMethod], [getCrossOrganizationMethod] with its
    per-organization fan-out [actualCrossOrgMethod], and
    [crossOrganizationCollection], the nested aggregation, with the
    listings and aggregations built from them.

    The JavaScript is callback- and promise-based.  The embedding is in
    direct style: a function that reports through a Node-style callback
    returns the arguments it calls back with, a promise is the way it
    settles, and the state every call may touch is passed explicitly. *)

From Stdlib Require Import ZArith String Ascii List Bool Lia DecimalString Permutation.
From stdpp Require Import base list strings gmap.
Import ListNotations.
Local Open Scope string_scope.
Local Open Scope list_scope.
#[local] Set Warnings "-register-all".

(** ** JavaScript values *)

Module JS.

(** The values the collection methods handle.  Numbers are the integers
    (cache ages, page sizes, identifiers), so there is no NaN.  [VError m]
    is [new Error(m)]; [VTypeError] is a TypeError raised by the engine
    itself, whose message depends on the engine and is not modelled.
    [VFun] is a function, of which only the name is kept.  [VArr] is an
    array with
    the extra named properties the cache attaches to it ([headers],
    [cost]); named properties never are array indices.  Property reads see
    own properties only: what an object inherits from its prototype
    ([constructor], [toString], the [stack] of an error, the built-in
    properties of a function) is outside the model. *)
Inductive value : Type :=
  | VUndefined
  | VNull
  | VBool (b : bool)
  | VNum (n : Z)
  | VStr (s : string)
  | VFun (name : string)
  | VError (message : string)
  | VTypeError
  | VObj (props : list (string * value))
  | VArr (elems : list value) (props : list (string * value)).

(** The own properties of a plain object, in insertion order. *)
Abbreviation props := (list (string * value)).

(** ToBoolean. *)
Definition truthy (v : value) : bool :=
  match v with
  | VUndefined | VNull => false
  | VBool b => b
  | VNum n => negb (n =? 0)%Z
  | VStr s => negb (s =? "")
  | _ => true
  end.

(** [typeof v === 'function'] *)
Definition is_function (v : value) : bool :=
  match v with VFun _ => true | _ => false end.

(** Synchronous evaluation: a value, or an exception thrown. *)
Inductive result (A : Type) : Type :=
  | Ok (a : A)
  | Throw (e : value).
Arguments Ok {A} a.
Arguments Throw {A} e.

Definition bind {A B} (r : result A) (k : A -> result B) : result B :=
  match r with
  | Ok a => k a
  | Throw e => Throw e
  end.

Notation "x <- r ;; k" := (bind r (fun x => k))
  (at level 100, r at next level, right associativity).

(** *** Property tables *)

(** [o[k]] on the own properties. *)
Fixpoint prop_lookup (k : string) (ps : props) : option value :=
  match ps with
  | [] => None
  | (k', v) :: rest => if k =? k' then Some v else prop_lookup k rest
  end.

Definition prop_get (k : string) (ps : props) : value :=
  match prop_lookup k ps with
  | Some v => v
  | None => VUndefined
  end.

(** [o[k] = v]: an existing property keeps its place, a new one goes last. *)
Fixpoint prop_set (k : string) (v : value) (ps : props) : props :=
  match ps with
  | [] => [(k, v)]
  | (k', v') :: rest =>
      if k =? k' then (k, v) :: rest else (k', v') :: prop_set k v rest
  end.

(** [delete o[k]] *)
Definition prop_delete (k : string) (ps : props) : props :=
  List.filter (fun p => negb (k =? fst p)) ps.

(** *** Property order

    [OrdinaryOwnPropertyKeys]: array indices first, in ascending numeric
    order, then the other names in the order they were created. *)

Definition digit_of (c : ascii) : option N :=
  let n := N_of_ascii c in
  if ((48 <=? n) && (n <=? 57))%N then Some (n - 48)%N else None.

Fixpoint digits_value (s : string) (acc : N) : option N :=
  match s with
  | EmptyString => Some acc
  | String c rest =>
      match digit_of c with
      | Some d => digits_value rest (10 * acc + d)%N
      | None => None
      end
  end.

(** A canonical numeric string below 2^32 - 1. *)
Definition array_index (s : string) : option N :=
  match s with
  | EmptyString => None
  | String c rest =>
      if (N_of_ascii c =? 48)%N && negb (rest =? "") then None
      else
        match digits_value s 0 with
        | Some n => if (n <? 4294967295)%N then Some n else None
        | None => None
        end
  end.

Fixpoint insert_index (x : N * string) (l : list (N * string)) : list (N * string) :=
  match l with
  | [] => [x]
  | y :: rest =>
      if (fst x <=? fst y)%N then x :: y :: rest else y :: insert_index x rest
  end.

Definition sort_indices (l : list (N * string)) : list (N * string) :=
  fold_right insert_index [] l.

(** Each name once, at its first place. *)
Definition first_occurrences (ks : list string) : list string :=
  fold_left (fun seen k => if existsb (String.eqb k) seen then seen else seen ++ [k])
            ks [].

Definition index_keys (ks : list string) : list (N * string) :=
  flat_map (fun k => match array_index k with
                     | Some n => [(n, k)]
                     | None => []
                     end) ks.

Definition named_keys (ks : list string) : list string :=
  List.filter (fun k => match array_index k with
                        | Some _ => false
                        | None => true
                        end) ks.

Definition own_keys (ps : props) : list string :=
  let ks := first_occurrences (map fst ps) in
  map snd (sort_indices (index_keys ks)) ++ named_keys ks.

(** [Object.entries] of a plain object. *)
Definition prop_entries (ps : props) : props :=
  map (fun k => (k, prop_get k ps)) (own_keys ps).

(** The decimal name of an array position. *)
Definition index_name (i : nat) : string :=
  NilEmpty.string_of_uint (Nat.to_uint i).

Fixpoint indexed_from (i : nat) (vs : list value) : props :=
  match vs with
  | [] => []
  | v :: rest => (index_name i, v) :: indexed_from (S i) rest
  end.

Fixpoint chars_of (s : string) : list value :=
  match s with
  | EmptyString => []
  | String c rest => VStr (String c EmptyString) :: chars_of rest
  end.

(** The own enumerable properties of a value coerced to an object, in
    property order. *)
Definition enumerable_own (v : value) : props :=
  match v with
  | VObj ps => prop_entries ps
  | VArr es ps => indexed_from 0 es ++ prop_entries ps
  | VStr s => indexed_from 0 (chars_of s)
  | _ => []
  end.

(** [Object.assign(target, source)] on a plain-object target. *)
Definition assign (target : props) (source : value) : props :=
  fold_left (fun t kv => prop_set (fst kv) (snd kv) t) (enumerable_own source) target.

(** [Object.getOwnPropertyNames(v)]; [length] of an array or a string is
    an own property that is not enumerable. *)
Definition getOwnPropertyNames (v : value) : result (list string) :=
  match v with
  | VUndefined | VNull => Throw VTypeError
  | VObj ps => Ok (own_keys ps)
  | VArr es ps => Ok (map fst (indexed_from 0 es) ++ "length" :: own_keys ps)
  | VStr s => Ok (map fst (indexed_from 0 (chars_of s)) ++ ["length"])
  | VError _ | VTypeError => Ok ["stack"; "message"]
  | _ => Ok []
  end.

Definition element (vs : list value) (k : string) : option value :=
  match array_index k with
  | Some n => nth_error vs (N.to_nat n)
  | None => None
  end.

(** [v[k]], which throws on [undefined] and [null]. *)
Definition get (v : value) (k : string) : result value :=
  match v with
  | VUndefined | VNull => Throw VTypeError
  | VObj ps => Ok (prop_get k ps)
  | VArr es ps =>
      match element es k with
      | Some x => Ok x
      | None =>
          if k =? "length" then Ok (VNum (Z.of_nat (List.length es)))
          else Ok (prop_get k ps)
      end
  | VStr s =>
      match element (chars_of s) k with
      | Some x => Ok x
      | None =>
          if k =? "length" then Ok (VNum (Z.of_nat (String.length s)))
          else Ok VUndefined
      end
  | VError m => Ok (if k =? "message" then VStr m else VUndefined)
  | _ => Ok VUndefined
  end.

(** The properties an ordinary object inherits from [Object.prototype]:
    its methods, the [constructor] (the function [Object]) and
    [__proto__], which answers the prototype itself, an object without
    enumerable properties. *)
Definition objectPrototype (k : string) : option value :=
  if k =? "constructor" then Some (VFun "Object")
  else if k =? "__proto__" then Some (VObj [])
  else if existsb (String.eqb k)
            ["hasOwnProperty"; "isPrototypeOf"; "propertyIsEnumerable";
             "toLocaleString"; "toString"; "valueOf";
             "__defineGetter__"; "__defineSetter__";
             "__lookupGetter__"; "__lookupSetter__"]
  then Some (VFun k)
  else None.

(** [object[k]] on an ordinary object, for a name [k] that may be any
    string: the own property, and without one what the prototype has. *)
Definition member (k : string) (ps : props) : value :=
  match prop_lookup k ps with
  | Some v => v
  | None =>
      match objectPrototype k with
      | Some inherited => inherited
      | None => VUndefined
      end
  end.

(** [String.prototype.toLowerCase] on the ASCII letters, which is all an
    organization login holds. *)
Definition lower_ascii (c : ascii) : ascii :=
  let n := N_of_ascii c in
  if ((65 <=? n) && (n <=? 90))%N then ascii_of_N (n + 32) else c.

Fixpoint toLowerCase (s : string) : string :=
  match s with
  | EmptyString => EmptyString
  | String c rest => String (lower_ascii c) (toLowerCase rest)
  end.

End JS.

Import JS.

(** ** Callbacks, promises and the state the calls share *)

(** One call of a method of the collections client, as it was made. *)
Record call : Type := Call {
  callMethod : string;
  callToken : value;
  callOptions : value;
  callCacheOptions : value
}.

(** What a run can touch: the world behind the collections client (the
    upstream service and the cache), the calls made to the client so far
    and the lines written with [console.warn]. *)
Record state (World : Type) : Type := State {
  world : World;
  calls : list call;
  warnings : list string
}.
Arguments State {World} _ _ _.
Arguments world {World} _.
Arguments calls {World} _.
Arguments warnings {World} _.

(** How a deferred ends: resolved, rejected, or left pending for ever; the
    last is what happens when the callback that should settle it is never
    called, or when an exception escapes before it is settled ([Some e] is
    that exception). *)
Inductive promise : Type :=
| Resolved (v : value)
| Rejected (e : value)
| Pending (escaped : option value).

(** What a method that takes a Node-style callback does with it: calls
    [callback(err, ok)], throws before it returns, returns a promise that
    is rejected and that nobody reads, or never calls back. *)
Inductive reported : Type :=
| Called (err ok : value)
| Thrown (e : value)
| Unhandled (e : value)
| Silent.

(** What an iteratee of [async] does: calls [next(err)], or throws. *)
Inductive step : Type :=
| Next (err : value)
| Raise (e : value).

(** [async.eachLimit(coll, 1, iteratee, callback)] and
    [async.eachOfLimit(coll, 1, iteratee, callback)]: one item at a time,
    in order; the first [next(err)] with an error ends the loop with that
    error, and the end of the collection ends it with [null].  The result
    is what the final callback is called with; an exception thrown by the
    iteratee leaves it uncalled. *)
Section EachLimit.
Context {A S : Type}.
Variable iteratee : A -> S -> step * S.

Fixpoint eachLimit1 (coll : list A) (s : S) : step * S :=
  match coll with
  | [] => (Next VNull, s)
  | x :: rest =>
      match iteratee x s with
      | (Next err, s') =>
          if truthy err then (Next err, s') else eachLimit1 rest s'
      | (Raise e, s') => (Raise e, s')
      end
  end.
End EachLimit.

(** The items [async] visits in a collection: nothing for a falsy one, the
    elements of an array or of an array-like object, the characters of a
    string, the property values of any other object. *)
Definition items (coll : value) : list value :=
  match coll with
  | VArr es _ => es
  | VStr s => chars_of s
  | VObj ps =>
      match prop_lookup "length" ps with
      | Some (VNum n) =>
          if (0 <=? n)%Z
          then map (fun i => prop_get (index_name i) ps) (seq 0 (Z.to_nat n))
          else map snd (prop_entries ps)
      | _ => map snd (prop_entries ps)
      end
  | _ => []
  end.

(** A method of the collections client:
    [method(token, options, cacheOptions, callback)] calls back once with
    [(error, result)]. *)
Definition clientMethod (World : Type) : Type :=
  value -> value -> value -> World -> (value * value) * World.

(** A method that returns a promise. *)
Definition thunk (World : Type) : Type :=
  state World -> promise * state World.

(** Modelled from the spec: the class [CompositeApiContext] (./composite)
    is not among the sources.  A context is the request descriptor of the
    specification: the API name, the method and the options it is
    constructed from, with the fields [generalizedCollectionMethod]
    assigns; [overrideToken] stores the credential of the call. *)
Record CompositeApiContext (World : Type) : Type := ApiContext {
  api : string;
  apiMethod : thunk World;
  apiOptions : value;
  maxAgeSeconds : value;
  token : value;
  backgroundRefresh : value
}.
Arguments ApiContext {World} _ _ _ _ _ _.
Arguments api {World} _.
Arguments apiMethod {World} _.
Arguments apiOptions {World} _.
Arguments maxAgeSeconds {World} _.
Arguments token {World} _.
Arguments backgroundRefresh {World} _.

(** [apiContext.maxAgeSeconds = v] *)
Definition setMaxAgeSeconds {World} (v : value) (c : CompositeApiContext World)
    : CompositeApiContext World :=
  ApiContext (api c) (apiMethod c) (apiOptions c) v (token c) (backgroundRefresh c).

(** [apiContext.overrideToken(v)] *)
Definition overrideToken {World} (v : value) (c : CompositeApiContext World)
    : CompositeApiContext World :=
  ApiContext (api c) (apiMethod c) (apiOptions c) (maxAgeSeconds c) v
             (backgroundRefresh c).

(** [apiContext.backgroundRefresh = v] *)
Definition setBackgroundRefresh {World} (v : value) (c : CompositeApiContext World)
    : CompositeApiContext World :=
  ApiContext (api c) (apiMethod c) (apiOptions c) (maxAgeSeconds c) (token c) v.

(** ** The methods of [createMethods] *)

Section CreateMethods.
Variable World : Type.

(** [libraryContext.compositeEngine.execute]: the cache engine, which is
    not among the sources. *)
Variable execute : CompositeApiContext World -> thunk World.

(** [collectionsClient[name]] *)
Variable collectionsClient : string -> option (clientMethod World).

(** The [backgroundRefresh] a context has when it is constructed. *)
Variable constructedBackgroundRefresh : value.

(** [new CompositeApiContext(apiName, method, options)] *)
Definition newCompositeApiContext (apiName : string) (method : thunk World)
    (options : value) : CompositeApiContext World :=
  ApiContext apiName method options VUndefined VUndefined
             constructedBackgroundRefresh.

(** A call of the client, recorded. *)
Definition invoke (name : string) (method : clientMethod World)
    (tok options cacheOptions : value) (s : state World)
    : (value * value) * state World :=
  let '(r, w) := method tok options cacheOptions (world s) in
  (r, State w (calls s ++ [Call name tok options cacheOptions]) (warnings s)).

(** [console.warn(line)] *)
Definition warn (line : string) (s : state World) : state World :=
  State (world s) (calls s) (warnings s ++ [line]).

(** The context [generalizedCollectionMethod] hands to the engine.  Its
    [libraryContext] is the one of this section, whose engine is
    [execute]. *)
Definition apiContextFor (tok : value) (apiName : string)
    (method : thunk World) (options cacheOptions : value)
    : result (CompositeApiContext World) :=
  let apiContext := newCompositeApiContext apiName method options in
  age <- get cacheOptions "maxAgeSeconds" ;;
  let apiContext :=
    setMaxAgeSeconds (if truthy age then age else VNum 600) apiContext in
  let apiContext := overrideToken tok apiContext in
  refresh <- get cacheOptions "backgroundRefresh" ;;
  Ok (if truthy refresh
      then setBackgroundRefresh (VBool true) apiContext
      else apiContext).

(** [promise.then(ok => callback(null, ok), callback)]: a callback that
    is not a function makes the promise [then] returns a rejected one. *)
Definition thenCallback (callback : value) (settled : promise) : reported :=
  match settled with
  | Resolved ok =>
      if is_function callback then Called VNull ok else Unhandled VTypeError
  | Rejected e =>
      if is_function callback then Called e VUndefined else Unhandled e
  | Pending _ => Silent
  end.

Definition generalizedCollectionMethod (tok : value) (apiName : string)
    (method : thunk World) (options cacheOptions callback : value)
    (s : state World) : reported * state World :=
  let swap :=
    match callback with
    | VUndefined => is_function cacheOptions
    | _ => false
    end in
  let callback := if swap then cacheOptions else callback in
  let cacheOptions := if swap then VObj [] else cacheOptions in
  match apiContextFor tok apiName method options cacheOptions with
  | Throw e => (Thrown e, s)
  | Ok apiContext =>
      let '(settled, s') := execute apiContext s in
      (thenCallback callback settled, s')
  end.

(** *** The fan-out over the organizations *)

(** [localOptions]: the options of the call for one organization. *)
Definition localOptionsFor (options : value) (orgName : string) : props :=
  let localOptions := assign [] options in
  let localOptions := prop_set "org" (VStr orgName) localOptions in
  if negb (truthy (prop_get "per_page" localOptions))
  then prop_set "per_page" (VNum 100) localOptions
  else localOptions.

(** [localCacheOptions]: the cache options of the calls of a fan-out. *)
Definition localCacheOptionsFor (cacheOptions : value) : props :=
  let localCacheOptions := assign [] cacheOptions in
  if truthy (prop_get "individualMaxAgeSeconds" localCacheOptions)
  then prop_set "maxAgeSeconds"
                (prop_get "individualMaxAgeSeconds" localCacheOptions)
                localCacheOptions
  else localCacheOptions.

Definition dataWarning (apiName methodName : string) : string :=
  String.append apiName (String.append " " (String.append methodName
    " result has data that is being used instead of the parent object")).

(** The iteratee of the fan-out, which [async] calls with a token and the
    login it is registered under; the accumulator is [values.orgs]. *)
Definition organizationStep (method : clientMethod World)
    (apiName methodName : string) (options cacheOptions : value)
    (entry : string * value) (acc : props * state World)
    : step * (props * state World) :=
  let '(orgName, tok) := entry in
  let '(orgs, s) := acc in
  let localOptions := localOptionsFor options orgName in
  let localCacheOptions := localCacheOptionsFor cacheOptions in
  let '((orgError, orgValues), s) :=
    invoke methodName method tok (VObj localOptions) (VObj localCacheOptions) s in
  if truthy orgError then (Next orgError, (orgs, s))
  else if negb (truthy orgValues) then (Next (VError "No result"), (orgs, s))
  else
    match get orgValues "data" with
    | Throw e => (Raise e, (orgs, s))
    | Ok data =>
        if truthy data
        then (Next VUndefined,
              (prop_set orgName data orgs, warn (dataWarning apiName methodName) s))
        else (Next VUndefined, (prop_set orgName orgValues orgs, s))
    end.

(** The final callback of the fan-out.  [values] is
    [{headers: {}, orgs: {...}}]; the result holds [values] itself as
    [data], from which [headers] is deleted once it has been copied to the
    result. *)
Definition fanOutDone (r : step * (props * state World)) : promise * state World :=
  match r with
  | (Next error, (orgs, s)) =>
      if truthy error then (Rejected error, s)
      else
        let values := [("headers", VObj []); ("orgs", VObj orgs)] in
        let dataObject :=
          [("data", VObj (prop_delete "headers" values));
           ("headers", prop_get "headers" values)] in
        (Resolved (VObj dataObject), s)
  | (Raise e, (_, s)) => (Pending (Some e), s)
  end.

(** [orgsAndTokens] is the token set, a plain object from logins to
    tokens, which [async] visits key by key in property order. *)
Definition actualCrossOrgMethod (orgsAndTokens : props)
    (method : clientMethod World) (apiName methodName : string)
    (options cacheOptions : value) : thunk World :=
  fun s =>
    fanOutDone
      (eachLimit1 (organizationStep method apiName methodName options cacheOptions)
                  (prop_entries orgsAndTokens) ([], s)).

Definition getCrossOrganizationMethod (orgsAndTokens : props)
    (apiName methodName : string) (options cacheOptions callback : value)
    (s : state World) : reported * state World :=
  match collectionsClient methodName with
  | None =>
      (Thrown (VError "No method called undefined defined in the collections client."), s)
  | Some method =>
      let crossOrgMethod :=
        actualCrossOrgMethod orgsAndTokens method apiName methodName
                             options cacheOptions in
      generalizedCollectionMethod (VObj orgsAndTokens) apiName crossOrgMethod
                                  options cacheOptions callback s
  end.

(** *** The nested aggregation *)

Definition quoted (s : string) : string :=
  String "034"%char (String.append s (String "034"%char EmptyString)).

Section CrossOrganizationCollection.
Variable orgsAndTokens : props.
Variables options cacheOptions : value.
Variable innerKeyType : string.
Variable outerFunction :
  props -> value -> value -> value -> state World -> reported * state World.
Variables collectionMethodName collectionKey : string.
Variable optionalSetOrganizationLogin : value.

(** [entityClone] before the inner collection is attached. *)
Definition entityCloneOf (orgName : string) (orgEntity : value) : props :=
  let cloneTarget :=
    if truthy optionalSetOrganizationLogin
    then [("organization", VObj [("login", VStr orgName)])]
    else [] in
  assign cloneTarget orgEntity.

(** [localOptionsTarget] after the [switch] on the inner key type. *)
Definition localOptionsTargetFor (orgName : string) (orgEntity : value)
    : result props :=
  let localOptionsTarget := [("per_page", VNum 100)] in
  if innerKeyType =? "team" then
    id <- get orgEntity "id" ;;
    Ok (prop_set "team_id" id localOptionsTarget)
  else if innerKeyType =? "repo" then
    let localOptionsTarget :=
      prop_set "owner" (VStr orgName) localOptionsTarget in
    name <- get orgEntity "name" ;;
    Ok (prop_set "repo" name localOptionsTarget)
  else
    Throw (VError (String.append "Unsupported inner key type " innerKeyType)).

(** [orgsAndTokens[orgName.toLowerCase()]]: the token set is an ordinary
    object, and the login may be a name that every object answers to. *)
Definition tokenFor (orgName : string) : value :=
  member (toLowerCase orgName) orgsAndTokens.

Definition innerDataError : value :=
  VError (String.append "innerEntities.data set from the "
            (String.append collectionMethodName " collection method call")).

(** [localOptions]: the options of the inner call for one entity. *)
Definition innerOptionsFor (orgName : string) (orgEntity : value)
    : result props :=
  localOptionsTarget <- localOptionsTargetFor orgName orgEntity ;;
  let localOptions := assign localOptionsTarget options in
  let localOptions := prop_delete "maxAgeSeconds" localOptions in
  let localOptions := prop_delete "backgroundRefresh" localOptions in
  Ok localOptions.

Definition missingToken (orgName : string) : value :=
  VError (String.append "No token available for the org " (quoted orgName)).

(** The error the inner callback sees: that of the call, or the one it
    makes up when the result carries a [data] of its own. *)
Definition innerError (collectionsError innerEntities : value) : result value :=
  if negb (truthy collectionsError) && truthy innerEntities then
    data <- get innerEntities "data" ;;
    Ok (if truthy data then innerDataError else collectionsError)
  else Ok collectionsError.

(** The iteratee of the loop over the entities of one organization;
    the accumulator is the array [entities]. *)
Definition entityStep (localCacheOptions : props) (orgName : string)
    (orgEntity : value) (acc : list value * state World)
    : step * (list value * state World) :=
  let '(entities, s) := acc in
  let entityClone := entityCloneOf orgName orgEntity in
  match innerOptionsFor orgName orgEntity with
  | Throw e => (Raise e, acc)
  | Ok localOptions =>
      let tok := tokenFor orgName in
      if negb (truthy tok) then (Next (missingToken orgName), acc)
      else
        match collectionsClient collectionMethodName with
        | None => (Raise VTypeError, acc)
        | Some method =>
            let '((collectionsError, innerEntities), s) :=
              invoke collectionMethodName method tok (VObj localOptions)
                     (VObj localCacheOptions) s in
            match innerError collectionsError innerEntities with
            | Throw e => (Raise e, (entities, s))
            | Ok collectionsError =>
                if truthy collectionsError then (Next VUndefined, (entities, s))
                else
                  let entityClone :=
                    prop_set collectionKey innerEntities entityClone in
                  (Next VUndefined, (entities ++ [VObj entityClone], s))
            end
        end
  end.

(** The iteratee of the loop over the organizations; the inner loop
    ends by calling [nextOrg]. *)
Definition organizationEntitiesStep (localCacheOptions : props)
    (orgs : value) (orgName : string) (acc : list value * state World)
    : step * (list value * state World) :=
  match get orgs orgName with
  | Throw e => (Raise e, acc)
  | Ok orgEntities =>
      eachLimit1 (entityStep localCacheOptions orgName) (items orgEntities) acc
  end.

(** The result the aggregation resolves with: [cost] and [headers]
    move from the array [entities] to the object around it. *)
Definition projectedToDataEntity (entities : list value) (side : props) : value :=
  let cost := prop_get "cost" side in
  let side1 := if truthy cost then prop_delete "cost" side else side in
  let headers := prop_get "headers" side1 in
  let side2 := if truthy headers then prop_delete "headers" side1 else side1 in
  let projected := [("data", VArr entities side2)] in
  let projected := if truthy cost then prop_set "cost" cost projected else projected in
  let projected :=
    if truthy headers then prop_set "headers" headers projected else projected in
  VObj projected.

(** The final callback of the loop over the organizations. *)
Definition aggregationDone (side : props) (r : step * (list value * state World))
    : promise * state World :=
  match r with
  | (Next error, (entities, s)) =>
      let projected := projectedToDataEntity entities side in
      if truthy error then (Rejected error, s) else (Resolved projected, s)
  | (Raise e, (_, s)) => (Pending (Some e), s)
  end.

Definition missingData : value :=
  VError (String.append
            "crossOrganizationCollection inner outerFunction returned an entity "
            "but no entity.data property was present").

(** The body of the callback given to [outerFunction]. *)
Definition outerCallback (outerError data : value) (s : state World)
    : promise * state World :=
  match (if negb (truthy outerError) && truthy data
         then get data "data" else Ok VUndefined) with
  | Throw e => (Pending (Some e), s)
  | Ok inner =>
      let '(outerError, entitiesByOrg) :=
        if negb (truthy outerError) && truthy data && negb (truthy inner)
        then (missingData, VNull)
        else if negb (truthy outerError) && truthy data && truthy inner
        then (outerError, inner)
        else (outerError, VNull) in
      if truthy outerError then (Rejected outerError, s)
      else
        let localCacheOptions := localCacheOptionsFor cacheOptions in
        let side := [("headers", VObj [])] in
        match (orgs <- get entitiesByOrg "orgs" ;;
               names <- getOwnPropertyNames orgs ;;
               Ok (orgs, names)) with
        | Throw e => (Pending (Some e), s)
        | Ok (orgs, names) =>
            aggregationDone side
              (eachLimit1 (organizationEntitiesStep localCacheOptions orgs)
                          names ([], s))
        end
  end.

(** The method [crossOrganizationCollection] returns. *)
Definition crossOrganizationCollection : thunk World :=
  fun s =>
    match outerFunction orgsAndTokens (VObj []) cacheOptions
                        (VFun "outerCallback") s with
    | (Called outerError data, s') => outerCallback outerError data s'
    | (Thrown e, s') => (Pending (Some e), s')
    | (Unhandled _, s') => (Pending None, s')
    | (Silent, s') => (Pending None, s')
    end.

End CrossOrganizationCollection.

(** [options.apiTypePrefix = 'github.x#'], in strict mode. *)
Definition withApiTypePrefix (options : value) : result value :=
  match options with
  | VObj ps => Ok (VObj (prop_set "apiTypePrefix" (VStr "github.x#") ps))
  | VArr es ps => Ok (VArr es (prop_set "apiTypePrefix" (VStr "github.x#") ps))
  | VFun _ | VError _ | VTypeError => Ok options
  | _ => Throw VTypeError
  end.

Definition getAllTeams (orgsAndTokens : props)
    (options cacheOptions callback : value) (s : state World)
    : reported * state World :=
  match withApiTypePrefix options with
  | Throw e => (Thrown e, s)
  | Ok options =>
      getCrossOrganizationMethod orgsAndTokens "teams" "getOrgTeams"
                                 options cacheOptions callback s
  end.

Definition getAllRepos (orgsAndTokens : props)
    (options cacheOptions callback : value) (s : state World)
    : reported * state World :=
  match withApiTypePrefix options with
  | Throw e => (Thrown e, s)
  | Ok options =>
      getCrossOrganizationMethod orgsAndTokens "repos" "getOrgRepos"
                                 options cacheOptions callback s
  end.

(** The aggregations [createMethods] exports.  [callback] is the callback
    of the caller wrapped by [createCallbackFlattenData] of ./core, which
    is not among the sources. *)
Definition aggregation (apiName innerKeyType : string)
    (outerFunction :
       props -> value -> value -> value -> state World -> reported * state World)
    (collectionMethodName collectionKey : string)
    (orgsAndTokens : props) (options cacheOptions callback : value)
    (s : state World) : reported * state World :=
  match withApiTypePrefix options with
  | Throw e => (Thrown e, s)
  | Ok options =>
      generalizedCollectionMethod (VObj orgsAndTokens) apiName
        (crossOrganizationCollection orgsAndTokens options cacheOptions
           innerKeyType outerFunction collectionMethodName collectionKey
           (VBool true))
        options cacheOptions callback s
  end.

Definition getAllTeamMembers :=
  aggregation "teamMembers" "team" getAllTeams "getTeamMembers" "members".

Definition getAllRepoCollaborators :=
  aggregation "repoCollaborators" "repo" getAllRepos "getRepoCollaborators"
              "collaborators".

Definition getAllRepoTeams :=
  aggregation "repoTeams" "repo" getAllRepos "getRepoTeams" "teams".

End CreateMethods.

(** The arguments the methods keep once the section is closed. *)
Arguments localOptionsFor options orgName : assert.
Arguments localCacheOptionsFor cacheOptions : assert.
Arguments dataWarning apiName methodName : assert.
Arguments quoted s : assert.
Arguments thenCallback callback settled : assert.
Arguments entityCloneOf optionalSetOrganizationLogin orgName orgEntity : assert.
Arguments localOptionsTargetFor innerKeyType orgName orgEntity : assert.
Arguments innerOptionsFor options innerKeyType orgName orgEntity : assert.
Arguments tokenFor orgsAndTokens orgName : assert.
Arguments missingToken orgName : assert.
Arguments innerDataError collectionMethodName : assert.
Arguments missingData : assert.
Arguments innerError collectionMethodName collectionsError innerEntities : assert.
Arguments projectedToDataEntity entities side : assert.
Arguments withApiTypePrefix options : assert.
Arguments invoke {World} name method tok options cacheOptions s.
Arguments warn {World} line s.
Arguments fanOutDone {World} r.
Arguments aggregationDone {World} side r.

(** ** Objects by reference

    The functions above work on the contents of objects.  Whether an
    object of the caller is written to is a question about references, so
    the statements that build the objects a call is made with are modelled
    once more on a store of plain objects: [Object.assign({}, source)]
    allocates, and a property assignment writes to one location.  Property
    values are kept as they are: the code never writes through them. *)

Module Store.

Abbreviation heap := (gmap nat props).

(** An argument: a reference to a plain object, or a value of its own. *)
Inductive arg : Type :=
| Ref (l : nat)
| Prim (v : value).

Definition read (h : heap) (a : arg) : value :=
  match a with
  | Ref l => match h !! l with
             | Some ps => VObj ps
             | None => VUndefined
             end
  | Prim v => v
  end.

(** An argument that is a reference refers to an object of the store. *)
Definition allocated (h : heap) (a : arg) : Prop :=
  match a with
  | Ref l => is_Some (h !! l)
  | Prim _ => True
  end.

(** An object literal. *)
Definition newObject (literal : props) (h : heap) : nat * heap :=
  let l := fresh (dom h) in (l, <[l := literal]> h).

(** [Object.assign(target, source)] *)
Definition objectAssign (target : nat) (source : arg) (h : heap) : heap :=
  alter (fun t => assign t (read h source)) target h.

(** [target[k] = v] *)
Definition setProperty (target : nat) (k : string) (v : value) (h : heap) : heap :=
  alter (prop_set k v) target h.

(** [target[k]] *)
Definition getProperty (target : nat) (k : string) (h : heap) : value :=
  match h !! target with
  | Some ps => prop_get k ps
  | None => VUndefined
  end.

(** The statements of the fan-out's iteratee before the call: they make
    [localOptions] and [localCacheOptions]. *)
Definition prepareCall (options cacheOptions : arg) (orgName : string)
    (h : heap) : (nat * nat) * heap :=
  let '(localOptions, h) := newObject [] h in
  let h := objectAssign localOptions options h in
  let h := setProperty localOptions "org" (VStr orgName) h in
  let h :=
    if negb (truthy (getProperty localOptions "per_page" h))
    then setProperty localOptions "per_page" (VNum 100) h
    else h in
  let '(localCacheOptions, h) := newObject [] h in
  let h := objectAssign localCacheOptions cacheOptions h in
  let h :=
    if truthy (getProperty localCacheOptions "individualMaxAgeSeconds" h)
    then setProperty localCacheOptions "maxAgeSeconds"
           (getProperty localCacheOptions "individualMaxAgeSeconds" h) h
    else h in
  ((localOptions, localCacheOptions), h).

(** The statements of the aggregation's iteratee that make [entityClone],
    and the assignment that attaches the inner collection to it. *)
Definition cloneEntity (optionalSetOrganizationLogin : value)
    (orgName : string) (orgEntity : arg) (h : heap) : nat * heap :=
  let '(cloneTarget, h) :=
    newObject (if truthy optionalSetOrganizationLogin
               then [("organization", VObj [("login", VStr orgName)])]
               else []) h in
  (cloneTarget, objectAssign cloneTarget orgEntity h).

Definition attachCollection (entityClone : nat) (collectionKey : string)
    (innerEntities : value) (h : heap) : heap :=
  setProperty entityClone collectionKey innerEntities h.

End Store.

(** ** The state after a call

    The state in which the callback of a call to the collections client
    runs: the world is the one the call left, and the call is on record. *)

(** After the call the fan-out makes for an organization. *)
Definition afterCall {World} (methodName : string) (options cacheOptions : value)
    (tok : value) (orgName : string) (w : World) (s : state World)
    : state World :=
  State w
        (calls s ++ [Call methodName tok (VObj (localOptionsFor options orgName))
                          (VObj (localCacheOptionsFor cacheOptions))])
        (warnings s).

(** After the call the aggregation makes for an entity. *)
Definition afterInnerCall {World} (collectionMethodName : string)
    (tok : value) (localOptions localCacheOptions : props) (w : World)
    (s : state World) : state World :=
  State w
        (calls s ++ [Call collectionMethodName tok (VObj localOptions)
                          (VObj localCacheOptions)])
        (warnings s).

(** ** What an aggregation collects

    The entities of a listing in the order the aggregation visits them:
    the organizations in property order, the entities of each in the
    order of its collection. *)
Definition discovered (orgs : props) (names : list string) : list (string * value) :=
  flat_map (fun orgName => map (pair orgName) (items (prop_get orgName orgs))) names.

Section Aggregated.
Variable World : Type.
Variable method : clientMethod World.
Variable orgsAndTokens : props.
Variable options : value.
Variables innerKeyType collectionMethodName collectionKey : string.
Variable optionalSetOrganizationLogin : value.
Variable localCacheOptions : props.

(** [aggregated entities s out s']: from the state [s], one inner call is
    made for each of the [entities], in order, with the token of the
    organization and the options of the entity, and the state ends as
    [s'].  An entity whose call ends in an error (one the call reports, or
    the one made up for a result that carries [data]) adds nothing to the
    output [out]; any other entity adds its clone, with the result of its
    call under [collectionKey]. *)
Inductive aggregated
    : list (string * value) -> state World -> list value -> state World -> Prop :=
| aggregated_done (s : state World) : aggregated [] s [] s
| aggregated_dropped (orgName : string) (orgEntity : value)
    (rest : list (string * value)) (s s' : state World) (localOptions : props)
    (collectionsError innerEntities error : value) (w : World) (out : list value) :
    innerOptionsFor options innerKeyType orgName orgEntity = Ok localOptions ->
    method (tokenFor orgsAndTokens orgName) (VObj localOptions)
           (VObj localCacheOptions) (world s)
    = ((collectionsError, innerEntities), w) ->
    innerError collectionMethodName collectionsError innerEntities = Ok error ->
    truthy error = true ->
    aggregated rest
      (afterInnerCall collectionMethodName (tokenFor orgsAndTokens orgName)
                      localOptions localCacheOptions w s) out s' ->
    aggregated ((orgName, orgEntity) :: rest) s out s'
| aggregated_kept (orgName : string) (orgEntity : value)
    (rest : list (string * value)) (s s' : state World) (localOptions : props)
    (collectionsError innerEntities error : value) (w : World) (out : list value) :
    innerOptionsFor options innerKeyType orgName orgEntity = Ok localOptions ->
    method (tokenFor orgsAndTokens orgName) (VObj localOptions)
           (VObj localCacheOptions) (world s)
    = ((collectionsError, innerEntities), w) ->
    innerError collectionMethodName collectionsError innerEntities = Ok error ->
    truthy error = false ->
    aggregated rest
      (afterInnerCall collectionMethodName (tokenFor orgsAndTokens orgName)
                      localOptions localCacheOptions w s) out s' ->
    aggregated ((orgName, orgEntity) :: rest) s
      (VObj (prop_set collectionKey innerEntities
               (entityCloneOf optionalSetOrganizationLogin orgName orgEntity))
       :: out) s'.

End Aggregated.

(** ** A portal with two organizations

    The organizations [alpha] and [beta] have two teams each; the world
    counts the requests that reach the service.  The engine of this portal
    keeps nothing: it runs the method of the context it is given. *)

Module Scenario.

Definition engine : CompositeApiContext nat -> thunk nat :=
  fun apiContext s => apiMethod apiContext s.

Definition team (id : Z) (name : string) : value :=
  VObj [("id", VNum id); ("name", VStr name)].

Definition alphaTeams : value := VArr [team 1 "team1"; team 2 "team2"] [].
Definition betaTeams : value := VArr [team 3 "team1"; team 4 "team2"] [].

(** A listing method that answers for [alpha] and for [beta] as told. *)
Definition listing (alpha beta : value * value) : clientMethod nat :=
  fun tok options cacheOptions w =>
    match get options "org" with
    | Ok (VStr "alpha") => (alpha, S w)
    | Ok (VStr "beta") => (beta, S w)
    | _ => ((VError "Not Found", VUndefined), S w)
    end.

Definition getOrgTeams : clientMethod nat :=
  listing (VNull, alphaTeams) (VNull, betaTeams).

Definition members : value := VArr [VObj [("login", VStr "octocat")]] [].

(** The members of a team; team 4 has been deleted. *)
Definition getTeamMembers : clientMethod nat :=
  fun tok options cacheOptions w =>
    match get options "team_id" with
    | Ok (VNum 4) => ((VError "Not Found", VUndefined), S w)
    | _ => ((VNull, members), S w)
    end.

Definition collectionsClient (name : string) : option (clientMethod nat) :=
  if name =? "getOrgTeams" then Some getOrgTeams
  else if name =? "getTeamMembers" then Some getTeamMembers
  else None.

Definition orgsAndTokens : props :=
  [("alpha", VStr "token-a"); ("beta", VStr "token-b")].

Definition start : state nat := State 0 [] [].

(** The outer listing as the aggregation of the team members runs it. *)
Definition allTeams
    : props -> value -> value -> value -> state nat -> reported * state nat :=
  getAllTeams nat engine collectionsClient VUndefined.

(** The caller's objects: the options template at 0, the cache policy at 1. *)
Definition callerObjects : Store.heap :=
  <[1 := [("maxAgeSeconds", VNum 600); ("individualMaxAgeSeconds", VNum 60)]]>
    (<[0 := [("type", VStr "all")]]> ∅).

(** A team that comes with the organization the service says it is in. *)
Definition movedTeam : props :=
  [("id", VNum 7); ("organization", VObj [("login", VStr "gamma")])].

(** The objects of an aggregation: that team, at 0. *)
Definition entityObjects : Store.heap := <[0 := movedTeam]> ∅.

(** The listing of the teams, and the state it leaves. *)
Definition teamsByOrg : props := [("alpha", alphaTeams); ("beta", betaTeams)].

Definition teamsListing : value :=
  VObj [("data", VObj [("orgs", VObj teamsByOrg)]); ("headers", VObj [])].

Definition listingCall (login tok : string) : call :=
  Call "getOrgTeams" (VStr tok)
       (VObj [("apiTypePrefix", VStr "github.x#"); ("org", VStr login);
              ("per_page", VNum 100)])
       (VObj []).

Definition afterListing : state nat :=
  State 2 [listingCall "alpha" "token-a"; listingCall "beta" "token-b"] [].

(** A team as the aggregation of the team members puts it out. *)
Definition teamWithMembers (login : string) (id : Z) (name : string) : value :=
  VObj [("organization", VObj [("login", VStr login)]); ("id", VNum id);
        ("name", VStr name); ("members", members)].

(** An outer function that calls back with a listing made beforehand. *)
Definition listed (orgs : props)
    : props -> value -> value -> value -> state nat -> reported * state nat :=
  fun _ _ _ _ s => (Called VNull (VObj [("data", VObj [("orgs", VObj orgs)])]), s).

End Scenario.

(** ** The registry of entity metadata mappings

    [EntityMetadataMappings] keeps, for each entity type, the definitions
    registered under the names of [MetadataMappingDefinition].  Its static
    map [_values] is the registry passed along here. *)

Module EntityMetadata.

Inductive MetadataMappingDefinition : Type :=
  | EntityIdColumnName
  | EntityInstantiate
  | TableMapping
  | TablePossibleDateColumns
  | TableQueries
  | TableNoPointQueries
  | TableNoPointQueryMapping
  | TableNoPointQueryAlternateIdFieldName
  | TableSpecializedDeserializationHelper
  | TableSpecializedSerializationHelper
  | TableDefaultTableName
  | TableDefaultFixedPartitionKey
  | TableDefaultFixedPartitionKeyNoPrefix
  | TableDefaultRowKeyPrefix
  | TableEncryptedColumnNames
  | PostgresMapping
  | PostgresQueries
  | PostgresDefaultTableName
  | PostgresDefaultTypeColumnName
  | MemoryMapping
  | MemoryQueries.

(** The string each member of the enumeration is. *)
Definition definitionName (d : MetadataMappingDefinition) : string :=
  match d with
  | EntityIdColumnName => "EntityIdColumnName"
  | EntityInstantiate => "EntityInstantiate"
  | TableMapping => "TableMapping"
  | TablePossibleDateColumns => "TablePossibleDateColumns"
  | TableQueries => "TableQueries"
  | TableNoPointQueries => "TableNoPointQueries"
  | TableNoPointQueryMapping => "TableNoPointQueryMapping"
  | TableNoPointQueryAlternateIdFieldName => "TableNoPointQueryAlternateIdFieldName"
  | TableSpecializedDeserializationHelper => "TableSpecializedDeserializationHelper"
  | TableSpecializedSerializationHelper => "TableSpecializedSerializationHelper"
  | TableDefaultTableName => "TableDefaultTableName"
  | TableDefaultFixedPartitionKey => "TableDefaultFixedPartitionKey"
  | TableDefaultFixedPartitionKeyNoPrefix => "TableDefaultFixedPartitionKeyNoPrefix"
  | TableDefaultRowKeyPrefix => "TableDefaultRowKeyPrefix"
  | TableEncryptedColumnNames => "TableEncryptedColumnNames"
  | PostgresMapping => "PostgresMapping"
  | PostgresQueries => "PostgresQueries"
  | PostgresDefaultTableName => "PostgresDefaultTableName"
  | PostgresDefaultTypeColumnName => "PostgresDefaultTypeColumnName"
  | MemoryMapping => "MemoryMapping"
  | MemoryQueries => "MemoryQueries"
  end.

Definition definitionIndex (d : MetadataMappingDefinition) : nat :=
  match d with
  | EntityIdColumnName => 0
  | EntityInstantiate => 1
  | TableMapping => 2
  | TablePossibleDateColumns => 3
  | TableQueries => 4
  | TableNoPointQueries => 5
  | TableNoPointQueryMapping => 6
  | TableNoPointQueryAlternateIdFieldName => 7
  | TableSpecializedDeserializationHelper => 8
  | TableSpecializedSerializationHelper => 9
  | TableDefaultTableName => 10
  | TableDefaultFixedPartitionKey => 11
  | TableDefaultFixedPartitionKeyNoPrefix => 12
  | TableDefaultRowKeyPrefix => 13
  | TableEncryptedColumnNames => 14
  | PostgresMapping => 15
  | PostgresQueries => 16
  | PostgresDefaultTableName => 17
  | PostgresDefaultTypeColumnName => 18
  | MemoryMapping => 19
  | MemoryQueries => 20
  end.

Definition definitionAt (n : nat) : MetadataMappingDefinition :=
  match n with
  | 0 => EntityIdColumnName
  | 1 => EntityInstantiate
  | 2 => TableMapping
  | 3 => TablePossibleDateColumns
  | 4 => TableQueries
  | 5 => TableNoPointQueries
  | 6 => TableNoPointQueryMapping
  | 7 => TableNoPointQueryAlternateIdFieldName
  | 8 => TableSpecializedDeserializationHelper
  | 9 => TableSpecializedSerializationHelper
  | 10 => TableDefaultTableName
  | 11 => TableDefaultFixedPartitionKey
  | 12 => TableDefaultFixedPartitionKeyNoPrefix
  | 13 => TableDefaultRowKeyPrefix
  | 14 => TableEncryptedColumnNames
  | 15 => PostgresMapping
  | 16 => PostgresQueries
  | 17 => PostgresDefaultTableName
  | 18 => PostgresDefaultTypeColumnName
  | 19 => MemoryMapping
  | _ => MemoryQueries
  end.

#[global] Instance definition_eq_dec : EqDecision MetadataMappingDefinition.
Proof. solve_decision. Defined.

#[global] Instance definition_countable : Countable MetadataMappingDefinition.
Proof.
  apply (inj_countable' definitionIndex definitionAt). now intros [].
Defined.

(** What is registered under a name.  The definitions are of the kinds
    the names call for: a [Map] from field names to column names (the
    mappings), a function (the instantiation of the entity, the queries
    and helpers; what matters of it here is what a call without
    arguments brings), a string (table and column names, prefixes), a
    flag, and an array of strings (column lists). *)
Inductive definition : Type :=
  | DefMap (entries : list (string * string))
  | DefFunction (returns : result value)
  | DefString (s : string)
  | DefFlag (b : bool)
  | DefList (l : list string).

(** ToBoolean of a definition. *)
Definition definitionTruthy (d : definition) : bool :=
  match d with
  | DefString s => negb (s =? "")
  | DefFlag b => b
  | _ => true
  end.

(** [map.has(k)] *)
Definition mapHas (k : string) (entries : list (string * string)) : bool :=
  existsb (fun kv => k =? fst kv) entries.

(** [set.delete(k)] on a set kept in insertion order. *)
Definition setDelete (k : string) (set : list string) : list string :=
  List.filter (fun x => negb (k =? x)) set.

(** [list.join(', ')] *)
Definition joined (l : list string) : string := String.concat ", " l.

Section Mappings.
(** [EntityMetadataType] (./entityMetadata) is not among the sources: the
    types are the keys of a [Map], and [typeName] is how a template
    literal prints one. *)
Context {EntityMetadataType : Type} `{Countable EntityMetadataType}.
Variable typeName : EntityMetadataType -> string.

Local Abbreviation registry :=
  (gmap EntityMetadataType (gmap MetadataMappingDefinition definition)).

Definition alreadyRegistered (type : EntityMetadataType) : value :=
  VError (String.append "Entity type "
            (String.append (typeName type) " already registered")).

Definition notInitialized (type : EntityMetadataType)
    (definitionType : MetadataMappingDefinition) : value :=
  VError (String.append "Type definitions not initialized or set to "
            (String.append (typeName type)
               (String.append " ("
                  (String.append (definitionName definitionType) ")")))).

Definition notAvailable (type : EntityMetadataType)
    (definitionType : MetadataMappingDefinition) : value :=
  VError (String.append "Entity type definitions ("
            (String.append (definitionName definitionType)
               (String.append ") are not available for "
                  (String.append (typeName type)
                     " in the configured entity metadata provider")))).

(** [RuntimeValidateMappings: type ${type} definition ${definitionType} ...] *)
Definition validationError (type : EntityMetadataType)
    (definitionType : MetadataMappingDefinition) (what : string) : value :=
  VError (String.append "RuntimeValidateMappings: type "
            (String.append (typeName type)
               (String.append " definition "
                  (String.append (definitionName definitionType) what)))).

Definition notAMap type definitionType : value :=
  validationError type definitionType " does not have a map".

Definition unmappedColumn type definitionType (fn : string) : value :=
  validationError type definitionType
    (String.append " does not have a defined mapping for the column named: " fn).

Definition unmappedFields type definitionType (list : list string) : value :=
  validationError type definitionType
    (String.append " has no mapping for fields: " (joined list)).

Definition unvisited type definitionType (list : list string) : value :=
  validationError type definitionType
    (String.append " has unvisited mappings: " (joined list)).

(** [EntityMetadataMappings.Register]: the outcome and the registry it
    leaves. *)
Definition Register (type : EntityMetadataType)
    (definitionType : MetadataMappingDefinition) (def : definition)
    (values : registry) : result unit * registry :=
  let values :=
    match values !! type with
    | Some _ => values
    | None => <[type := ∅]> values
    end in
  match values !! type with
  | None => (Throw VTypeError, values)
  | Some typeMap =>
      match typeMap !! definitionType with
      | Some _ => (Throw (alreadyRegistered type), values)
      | None => (Ok tt, <[type := <[definitionType := def]> typeMap]> values)
      end
  end.

(** [EntityMetadataMappings.GetDefinition]; [None] is [undefined]. *)
Definition GetDefinition (type : EntityMetadataType)
    (definitionType : MetadataMappingDefinition) (throwIfMissing : bool)
    (values : registry) : result (option definition) :=
  match values !! type with
  | None => Throw (notInitialized type definitionType)
  | Some typeMap =>
      let d := typeMap !! definitionType in
      if match d with
         | Some def => definitionTruthy def
         | None => false
         end
      then Ok d
      else if throwIfMissing then Throw (notAvailable type definitionType)
      else Ok None
  end.

(** [EntityMetadataMappings.InstantiateObject] *)
Definition InstantiateObject (type : EntityMetadataType) (values : registry)
    : result value :=
  ctor <- GetDefinition type EntityInstantiate true values ;;
  match ctor with
  | Some (DefFunction returns) => returns
  | _ => Throw VTypeError
  end.

(** The loop over [fieldNames]: the two sets as it leaves them. *)
Fixpoint visitFields (type : EntityMetadataType)
    (definitionType : MetadataMappingDefinition)
    (entries : list (string * string)) (fieldNames : list string)
    (unvisitedMappings fields : list string)
    : result (list string * list string) :=
  match fieldNames with
  | [] => Ok (unvisitedMappings, fields)
  | fn :: rest =>
      if negb (mapHas fn entries)
      then Throw (unmappedColumn type definitionType fn)
      else visitFields type definitionType entries rest
                       (setDelete fn unvisitedMappings) (setDelete fn fields)
  end.

(** What follows the loop. *)
Definition afterFields (type : EntityMetadataType)
    (definitionType : MetadataMappingDefinition)
    (permittedAdditionalUnvisitedMappings : option (list string))
    (sets : list string * list string) : result unit :=
  let '(unvisitedMappings, fields) := sets in
  if negb (Nat.eqb (List.length fields) 0)
  then Throw (unmappedFields type definitionType fields)
  else
    let unvisitedMappings :=
      match permittedAdditionalUnvisitedMappings with
      | Some permitted =>
          fold_left (fun set each => setDelete each set) permitted unvisitedMappings
      | None => unvisitedMappings
      end in
    if negb (Nat.eqb (List.length unvisitedMappings) 0)
    then Throw (unvisited type definitionType unvisitedMappings)
    else Ok tt.

(** [EntityMetadataMappings.RuntimeValidateMappings].  Only a [Map] and an
    array have a [keys]; the keys of an array are its positions, and it
    has no [has]. *)
Definition RuntimeValidateMappings (type : EntityMetadataType)
    (definitionType : MetadataMappingDefinition) (fieldNames : list string)
    (permittedAdditionalUnvisitedMappings : option (list string))
    (values : registry) : result unit :=
  mapping <- GetDefinition type definitionType true values ;;
  match mapping with
  | Some (DefMap entries) =>
      let unvisitedMappings := first_occurrences (map fst entries) in
      let fields := first_occurrences fieldNames in
      sets <- visitFields type definitionType entries fieldNames
                          unvisitedMappings fields ;;
      afterFields type definitionType permittedAdditionalUnvisitedMappings sets
  | Some (DefList l) =>
      let unvisitedMappings := map index_name (seq 0 (List.length l)) in
      match fieldNames with
      | [] =>
          if negb (Nat.eqb (List.length unvisitedMappings) 0)
          then Throw (unvisited type definitionType unvisitedMappings)
          else Ok tt
      | _ :: _ => Throw VTypeError
      end
  | _ => Throw (notAMap type definitionType)
  end.

End Mappings.

End EntityMetadata.

(** A registry to run the mappings on: the types are printed as they
    are, and one table mapping is registered for the repositories. *)
Module Registry.
Import EntityMetadata.

Definition typeName (type : string) : string := type.

Definition repositoryMapping : definition :=
  DefMap [("repositoryId", "repoid"); ("organizationId", "orgid");
          ("created", "created")].

Definition empty : gmap string (gmap MetadataMappingDefinition definition) := ∅.

Definition registered : gmap string (gmap MetadataMappingDefinition definition) :=
  snd (Register typeName "Repository" TableMapping repositoryMapping empty).

Definition instantiable : gmap string (gmap MetadataMappingDefinition definition) :=
  snd (Register typeName "Repository" EntityInstantiate
         (DefFunction (Ok (VObj []))) registered).

Definition unnamed : gmap string (gmap MetadataMappingDefinition definition) :=
  snd (Register typeName "Repository" TableDefaultTableName (DefString EmptyString)
         registered).

End Registry.

(** ** Property tables *)

Section PropertyTables.
Implicit Types (k : string) (v : value) (ps : props).

Lemma prop_lookup_set_eq k v ps : prop_lookup k (prop_set k v ps) = Some v.
Proof.
  induction ps as [|[k' v'] ps IH]; simpl.
  - now rewrite String.eqb_refl.
  - destruct (String.eqb_spec k k') as [->|Hne]; simpl.
    + now rewrite String.eqb_refl.
    + apply String.eqb_neq in Hne. now rewrite Hne.
Qed.

Lemma prop_lookup_set_ne k k' v ps :
  k <> k' -> prop_lookup k (prop_set k' v ps) = prop_lookup k ps.
Proof.
  intros Hne. induction ps as [|[k0 v0] ps IH]; simpl.
  - apply String.eqb_neq in Hne. now rewrite Hne.
  - destruct (String.eqb_spec k' k0) as [->|Hne0]; simpl.
    + apply String.eqb_neq in Hne. now rewrite Hne.
    + now rewrite IH.
Qed.

Lemma prop_get_set_eq k v ps : prop_get k (prop_set k v ps) = v.
Proof. unfold prop_get. now rewrite prop_lookup_set_eq. Qed.

Lemma prop_get_set_ne k k' v ps :
  k <> k' -> prop_get k (prop_set k' v ps) = prop_get k ps.
Proof. intros H. unfold prop_get. now rewrite prop_lookup_set_ne. Qed.

Lemma prop_lookup_None k ps :
  prop_lookup k ps = None <-> ~ In k (map fst ps).
Proof.
  induction ps as [|[k' v'] ps IH]; simpl.
  - tauto.
  - destruct (String.eqb_spec k k') as [->|Hne].
    + split; [discriminate | intros H; exfalso; apply H; now left].
    + rewrite IH. split; [intros H [E|I]; [congruence | tauto] | tauto].
Qed.

Lemma prop_lookup_delete_eq k ps : prop_lookup k (prop_delete k ps) = None.
Proof.
  apply prop_lookup_None. unfold prop_delete. intros H.
  apply in_map_iff in H as [[k' v'] [E H]]. simpl in E. subst k'.
  apply filter_In in H as [_ H]. simpl in H.
  now rewrite String.eqb_refl in H.
Qed.

Lemma prop_lookup_delete_ne k k' ps :
  k <> k' -> prop_lookup k (prop_delete k' ps) = prop_lookup k ps.
Proof.
  intros Hne. induction ps as [|[k0 v0] ps IH]; simpl; [reflexivity|].
  destruct (String.eqb_spec k' k0) as [->|Hne0]; simpl.
  - apply String.eqb_neq in Hne. now rewrite Hne.
  - now rewrite IH.
Qed.

(** Setting the listed names in order. *)
Lemma prop_lookup_fold_set_notin (f : string -> value) k (ks : list string) :
  forall ps,
    ~ In k ks ->
    prop_lookup k (fold_left (fun t kv => prop_set (fst kv) (snd kv) t)
                             (map (fun k => (k, f k)) ks) ps)
    = prop_lookup k ps.
Proof.
  induction ks as [|k0 ks IH]; intros ps Hk; simpl; [reflexivity|].
  rewrite IH by (intros H; apply Hk; now right).
  apply prop_lookup_set_ne. intros ->. apply Hk. now left.
Qed.

Lemma prop_lookup_fold_set_in (f : string -> value) k (ks : list string) :
  forall ps,
    In k ks ->
    prop_lookup k (fold_left (fun t kv => prop_set (fst kv) (snd kv) t)
                             (map (fun k => (k, f k)) ks) ps)
    = Some (f k).
Proof.
  induction ks as [|k0 ks IH]; intros ps Hin; [destruct Hin|].
  simpl. destruct (in_dec string_dec k ks) as [Hk|Hk].
  - now apply IH.
  - destruct Hin as [->|Hin]; [|contradiction].
    rewrite prop_lookup_fold_set_notin by exact Hk.
    apply prop_lookup_set_eq.
Qed.

(** *** The order of the names does not lose any *)

Lemma first_occurrences_In k (ks : list string) :
  In k (first_occurrences ks) <-> In k ks.
Proof.
  unfold first_occurrences.
  assert (G : forall seen,
    In k (fold_left (fun seen k => if existsb (String.eqb k) seen
                                   then seen else seen ++ [k]) ks seen)
    <-> In k seen \/ In k ks).
  { induction ks as [|k0 ks IH]; intros seen; simpl; [tauto|].
    rewrite IH. destruct (existsb (String.eqb k0) seen) eqn:E.
    - apply existsb_exists in E as [x [Hx E]].
      apply String.eqb_eq in E. subst x.
      split; [tauto|]. intros [H|[->|H]]; tauto.
    - rewrite in_app_iff. simpl. split; [intros [[H|[->|[]]]|H]; tauto|].
      intros [H|[->|H]]; tauto. }
  rewrite G. simpl. tauto.
Qed.

Lemma insert_index_In (x y : N * string) l :
  In x (insert_index y l) <-> x = y \/ In x l.
Proof.
  induction l as [|z l IH]; simpl.
  - split; [intros [->|[]]; now left | intros [->|[]]; now left].
  - destruct (fst y <=? fst z)%N; simpl; [split; intros [->|H]; auto|].
    rewrite IH. split; [intros [->|[->|H]]; auto | intros [->|[->|H]]; auto].
Qed.

Lemma sort_indices_In (x : N * string) l : In x (sort_indices l) <-> In x l.
Proof.
  unfold sort_indices. induction l as [|y l IH]; simpl; [tauto|].
  rewrite insert_index_In, IH. split; intros [->|H]; auto.
Qed.

Lemma own_keys_In k ps : In k (own_keys ps) <-> In k (map fst ps).
Proof.
  unfold own_keys. rewrite <- (first_occurrences_In k (map fst ps)).
  generalize (first_occurrences (map fst ps)) as ks. intros ks.
  rewrite in_app_iff, in_map_iff. unfold named_keys, index_keys.
  rewrite filter_In. split.
  - intros [[[n k'] [E H]]|[H _]]; [|exact H].
    simpl in E. subst k'. apply (proj1 (sort_indices_In _ _)) in H.
    apply in_flat_map in H as [k' [Hk' H]].
    destruct (array_index k'); [destruct H as [H|[]]|destruct H].
    now inversion H; subst.
  - intros H. destruct (array_index k) as [n|] eqn:E; [left|right; auto].
    exists (n, k). split; [reflexivity|]. apply sort_indices_In.
    apply in_flat_map. exists k. split; [exact H|]. rewrite E. now left.
Qed.

Lemma first_occurrences_NoDup (ks : list string) :
  List.NoDup (first_occurrences ks).
Proof.
  unfold first_occurrences.
  assert (G : forall seen, List.NoDup seen ->
    List.NoDup (fold_left (fun seen k => if existsb (String.eqb k) seen
                                         then seen else seen ++ [k]) ks seen)).
  { induction ks as [|k0 ks IH]; intros seen Hs; simpl; [exact Hs|].
    apply IH. destruct (existsb (String.eqb k0) seen) eqn:E; [exact Hs|].
    apply List.NoDup_app; [exact Hs | repeat constructor; intros [] |].
    intros a Ha [<-|[]].
    assert (X : existsb (String.eqb k0) seen = true); [|congruence].
    apply existsb_exists. exists k0. split; [exact Ha | apply String.eqb_refl]. }
  apply G. constructor.
Qed.

Lemma insert_index_Permutation (x : N * string) l :
  Permutation (insert_index x l) (x :: l).
Proof.
  induction l as [|y l IH]; simpl; [reflexivity|].
  destruct (fst x <=? fst y)%N; [reflexivity|].
  rewrite IH. apply perm_swap.
Qed.

Lemma sort_indices_Permutation (l : list (N * string)) :
  Permutation (sort_indices l) l.
Proof.
  unfold sort_indices. induction l as [|x l IH]; simpl; [reflexivity|].
  rewrite insert_index_Permutation. now apply perm_skip.
Qed.

Lemma index_keys_names (ks : list string) :
  map snd (index_keys ks)
  = List.filter (fun k => match array_index k with
                          | Some _ => true
                          | None => false
                          end) ks.
Proof.
  unfold index_keys. induction ks as [|k ks IH]; simpl; [reflexivity|].
  destruct (array_index k); simpl; now rewrite IH.
Qed.

(** An object has each of its names once. *)
Lemma own_keys_NoDup ps : List.NoDup (own_keys ps).
Proof.
  unfold own_keys.
  pose proof (first_occurrences_NoDup (map fst ps)) as Hks.
  revert Hks. generalize (first_occurrences (map fst ps)) as ks. intros ks Hks.
  apply List.NoDup_app.
  - eapply Permutation_NoDup.
    + apply Permutation_map. symmetry. apply sort_indices_Permutation.
    + rewrite index_keys_names. now apply List.NoDup_filter.
  - now apply List.NoDup_filter.
  - intros k H1 H2.
    assert (H1' : In k (map snd (index_keys ks))).
    { eapply Permutation_in; [|exact H1].
      apply Permutation_map. apply sort_indices_Permutation. }
    rewrite index_keys_names in H1'.
    apply filter_In in H1' as [_ H1']. apply filter_In in H2 as [_ H2].
    destruct (array_index k); discriminate.
Qed.

Lemma prop_entries_keys ps : map fst (prop_entries ps) = own_keys ps.
Proof.
  unfold prop_entries. rewrite map_map. simpl. apply map_id.
Qed.

(** No organization comes twice in a fan-out. *)
Lemma prop_entries_later (ps pre post : props) k v :
  prop_entries ps = pre ++ (k, v) :: post -> ~ In k (map fst post).
Proof.
  intros H. pose proof (own_keys_NoDup ps) as N.
  rewrite <- prop_entries_keys, H, map_app in N. simpl in N.
  apply List.NoDup_remove_2 in N. rewrite in_app_iff in N. tauto.
Qed.

(** [Object.assign] copies every own property of a plain object and
    leaves the other properties of the target as they are. *)
Lemma prop_lookup_assign k (target : props) ps :
  prop_lookup k (assign target (VObj ps))
  = match prop_lookup k ps with
    | Some v => Some v
    | None => prop_lookup k target
    end.
Proof.
  unfold assign, enumerable_own, prop_entries.
  destruct (prop_lookup k ps) as [v|] eqn:E.
  - rewrite prop_lookup_fold_set_in.
    + unfold prop_get. now rewrite E.
    + apply own_keys_In. destruct (in_dec string_dec k (map fst ps)) as [H|H];
        [exact H|]. apply prop_lookup_None in H. congruence.
  - apply prop_lookup_fold_set_notin. rewrite own_keys_In.
    now apply prop_lookup_None.
Qed.

Lemma prop_get_assign_empty k ps : prop_get k (assign [] (VObj ps)) = prop_get k ps.
Proof.
  unfold prop_get. rewrite prop_lookup_assign. now destruct (prop_lookup k ps).
Qed.

End PropertyTables.



(** ** The loops of [async] *)

Section EachLimitFacts.
Context {A S : Type}.
Variable iteratee : A -> S -> step * S.

(** Items that all call [next()] without an error are passed. *)
Lemma eachLimit1_app (pre post : list A) (s s1 : S) :
  eachLimit1 iteratee pre s = (Next VNull, s1) ->
  eachLimit1 iteratee (pre ++ post) s = eachLimit1 iteratee post s1.
Proof.
  revert s. induction pre as [|x pre IH]; intros s H; simpl in *.
  - now inversion H.
  - destruct (iteratee x s) as [[err|e] s'].
    + destruct (truthy err) eqn:E; [|now apply IH].
      inversion H; subst. discriminate.
    + discriminate.
Qed.

(** The first [next(err)] with an error is the end of the loop. *)
Lemma eachLimit1_error (x : A) (post : list A) (s s' : S) (err : value) :
  iteratee x s = (Next err, s') ->
  truthy err = true ->
  eachLimit1 iteratee (x :: post) s = (Next err, s').
Proof. intros H E. simpl. now rewrite H, E. Qed.

Lemma eachLimit1_continue (x : A) (post : list A) (s s' : S) (err : value) :
  iteratee x s = (Next err, s') ->
  truthy err = false ->
  eachLimit1 iteratee (x :: post) s = eachLimit1 iteratee post s'.
Proof. intros H E. simpl. now rewrite H, E. Qed.

(** An exception leaves the loop at once. *)
Lemma eachLimit1_raise (x : A) (post : list A) (s s' : S) (e : value) :
  iteratee x s = (Raise e, s') ->
  eachLimit1 iteratee (x :: post) s = (Raise e, s').
Proof. intros H. simpl. now rewrite H. Qed.

End EachLimitFacts.

(** ** The fan-out over the organizations *)

Section FanOutFacts.
Variable World : Type.
Variable method : clientMethod World.
Variables apiName methodName : string.
Variables options cacheOptions : value.

Let organization := organizationStep World method apiName methodName options cacheOptions.

Lemma organizationStep_error orgName tok orgs s e v w :
  method tok (VObj (localOptionsFor options orgName))
         (VObj (localCacheOptionsFor cacheOptions)) (world s) = ((e, v), w) ->
  truthy e = true ->
  organization (orgName, tok) (orgs, s)
  = (Next e, (orgs, afterCall methodName options cacheOptions tok orgName w s)).
Proof.
  intros Hm He. unfold organization, organizationStep, invoke.
  rewrite Hm. now rewrite He.
Qed.

Lemma organizationStep_no_result orgName tok orgs s e v w :
  method tok (VObj (localOptionsFor options orgName))
         (VObj (localCacheOptionsFor cacheOptions)) (world s) = ((e, v), w) ->
  truthy e = false ->
  truthy v = false ->
  organization (orgName, tok) (orgs, s)
  = (Next (VError "No result"), (orgs, afterCall methodName options cacheOptions tok orgName w s)).
Proof.
  intros Hm He Hv. unfold organization, organizationStep, invoke.
  rewrite Hm. now rewrite He, Hv.
Qed.

Lemma organizationStep_data orgName tok orgs s e v w data :
  method tok (VObj (localOptionsFor options orgName))
         (VObj (localCacheOptionsFor cacheOptions)) (world s) = ((e, v), w) ->
  truthy e = false ->
  truthy v = true ->
  get v "data" = Ok data ->
  truthy data = true ->
  organization (orgName, tok) (orgs, s)
  = (Next VUndefined,
     (prop_set orgName data orgs,
      warn (dataWarning apiName methodName)
           (afterCall methodName options cacheOptions tok orgName w s))).
Proof.
  intros Hm He Hv Hd Ht. unfold organization, organizationStep, invoke.
  rewrite Hm. now rewrite He, Hv, Hd, Ht.
Qed.

End FanOutFacts.

Section FanOutLoop.
Variable World : Type.
Variable method : clientMethod World.
Variables apiName methodName : string.
Variables options cacheOptions : value.

Let organization := organizationStep World method apiName methodName options cacheOptions.

(** One organization writes [orgs] under its own login only, and only
    adds to the warnings. *)
Lemma organizationStep_frame entry orgs s r orgs' s' :
  organization entry (orgs, s) = (r, (orgs', s')) ->
  (forall k, k <> fst entry -> prop_lookup k orgs' = prop_lookup k orgs)
  /\ exists more, warnings s' = warnings s ++ more.
Proof.
  destruct entry as [orgName tok]. unfold organization, organizationStep, invoke.
  destruct (method tok _ _ (world s)) as [[e v] w]. simpl.
  destruct (truthy e).
  { intros H; inversion H; subst. split; [reflexivity|]. exists []. simpl.
    now rewrite app_nil_r. }
  destruct (truthy v); simpl.
  2:{ intros H; inversion H; subst. split; [reflexivity|]. exists []. simpl.
      now rewrite app_nil_r. }
  destruct (get v "data") as [d|x].
  2:{ intros H; inversion H; subst. split; [reflexivity|]. exists []. simpl.
      now rewrite app_nil_r. }
  destruct (truthy d); intros H; inversion H; subst; simpl.
  - split; [intros k Hk; now apply prop_lookup_set_ne|]. now eexists.
  - split; [intros k Hk; now apply prop_lookup_set_ne|]. exists [].
    now rewrite app_nil_r.
Qed.

Lemma fanOut_frame (entries : props) :
  forall orgs s r orgs' s',
    eachLimit1 organization entries (orgs, s) = (r, (orgs', s')) ->
    (forall k, ~ In k (map fst entries) -> prop_lookup k orgs' = prop_lookup k orgs)
    /\ exists more, warnings s' = warnings s ++ more.
Proof.
  induction entries as [|entry entries IH]; intros orgs s r orgs' s' H; simpl in H.
  - inversion H; subst. split; [reflexivity|]. exists []. now rewrite app_nil_r.
  - destruct (organization entry (orgs, s)) as [r1 [orgs1 s1]] eqn:E.
    apply organizationStep_frame in E as [F1 [m1 W1]].
    assert (G : (forall k, ~ In k (map fst (entry :: entries)) ->
                   prop_lookup k orgs1 = prop_lookup k orgs)
                /\ exists more, warnings s1 = warnings s ++ more).
    { split; [|now exists m1]. intros k Hk. apply F1. intros ->. apply Hk. now left. }
    destruct r1 as [err|e].
    + destruct (truthy err).
      * inversion H; subst. exact G.
      * apply IH in H as [F2 [m2 W2]]. split.
        -- intros k Hk. rewrite F2 by (intros X; apply Hk; now right).
           apply F1. intros ->. apply Hk. now left.
        -- exists (m1 ++ m2). now rewrite W2, W1, app_assoc.
    + inversion H; subst. exact G.
Qed.

End FanOutLoop.

(** ** The fan-out: what an organization's answer does to the whole *)

(** C2.  An organization whose call reports an error ends the fan-out:
    when the organizations before it were fetched without an error and
    the call for this one calls back with an error, the promise of the
    fan-out is rejected with that very error; no map of organizations is
    returned, whatever the earlier organizations delivered, and no later
    organization is asked. *)
Theorem fan_out_rejected_by_organization_error
    (World : Type) (method : clientMethod World) (apiName methodName : string)
    (options cacheOptions : value) (orgsAndTokens pre post : props)
    (orgName : string) (tok : value) (s s1 : state World) (orgs1 : props)
    (e v : value) (w : World) :
  prop_entries orgsAndTokens = pre ++ (orgName, tok) :: post ->
  eachLimit1 (organizationStep World method apiName methodName options cacheOptions)
             pre ([], s) = (Next VNull, (orgs1, s1)) ->
  method tok (VObj (localOptionsFor options orgName))
         (VObj (localCacheOptionsFor cacheOptions)) (world s1) = ((e, v), w) ->
  truthy e = true ->
  actualCrossOrgMethod World orgsAndTokens method apiName methodName
                       options cacheOptions s
  = (Rejected e, afterCall methodName options cacheOptions tok orgName w s1).
Proof.
  intros Hsplit Hpre Hcall He. unfold actualCrossOrgMethod.
  rewrite Hsplit, (eachLimit1_app _ _ _ _ _ Hpre).
  rewrite (eachLimit1_error _ _ _ _ _ _
             (organizationStep_error World method apiName methodName options
                cacheOptions orgName tok orgs1 s1 e v w Hcall He) He).
  simpl. now rewrite He.
Qed.

(** C10.  An organization whose call reports no error but no result
    either (a falsy one: [null], [undefined]) ends the fan-out with the
    error [No result]: the promise is rejected, and the organization does
    not count as an empty contribution. *)
Theorem fan_out_rejected_by_missing_result
    (World : Type) (method : clientMethod World) (apiName methodName : string)
    (options cacheOptions : value) (orgsAndTokens pre post : props)
    (orgName : string) (tok : value) (s s1 : state World) (orgs1 : props)
    (e v : value) (w : World) :
  prop_entries orgsAndTokens = pre ++ (orgName, tok) :: post ->
  eachLimit1 (organizationStep World method apiName methodName options cacheOptions)
             pre ([], s) = (Next VNull, (orgs1, s1)) ->
  method tok (VObj (localOptionsFor options orgName))
         (VObj (localCacheOptionsFor cacheOptions)) (world s1) = ((e, v), w) ->
  truthy e = false ->
  truthy v = false ->
  actualCrossOrgMethod World orgsAndTokens method apiName methodName
                       options cacheOptions s
  = (Rejected (VError "No result"),
     afterCall methodName options cacheOptions tok orgName w s1).
Proof.
  intros Hsplit Hpre Hcall He Hf.
  unfold actualCrossOrgMethod.
  rewrite Hsplit, (eachLimit1_app _ _ _ _ _ Hpre).
  rewrite (eachLimit1_error _ _ _ _ _ _
             (organizationStep_no_result World method apiName methodName options
                cacheOptions orgName tok orgs1 s1 e v w Hcall He Hf) eq_refl).
  reflexivity.
Qed.

(** [beta] answers with an error after [alpha] has delivered its teams. *)
Lemma fan_out_rejected_by_organization_error_witness :
  actualCrossOrgMethod nat Scenario.orgsAndTokens
    (Scenario.listing (VNull, Scenario.alphaTeams)
                      (VError "Bad credentials", VUndefined))
    "teams" "getOrgTeams" (VObj []) (VObj []) Scenario.start
  = (Rejected (VError "Bad credentials"),
     afterCall "getOrgTeams" (VObj []) (VObj []) (VStr "token-b") "beta" 2
       (State 1
          [Call "getOrgTeams" (VStr "token-a")
                (VObj [("org", VStr "alpha"); ("per_page", VNum 100)]) (VObj [])]
          [])).
Proof.
  apply (fan_out_rejected_by_organization_error nat
           (Scenario.listing (VNull, Scenario.alphaTeams)
                             (VError "Bad credentials", VUndefined))
           "teams" "getOrgTeams" (VObj []) (VObj []) Scenario.orgsAndTokens
           [("alpha", VStr "token-a")] [] "beta" (VStr "token-b") Scenario.start
           (State 1
              [Call "getOrgTeams" (VStr "token-a")
                    (VObj [("org", VStr "alpha"); ("per_page", VNum 100)]) (VObj [])]
              [])
           [("alpha", Scenario.alphaTeams)]
           (VError "Bad credentials") VUndefined 2);
    reflexivity.
Defined.

(** [beta] answers with [null] after [alpha] has delivered its teams. *)
Lemma fan_out_rejected_by_missing_result_witness :
  actualCrossOrgMethod nat Scenario.orgsAndTokens
    (Scenario.listing (VNull, Scenario.alphaTeams) (VNull, VNull))
    "teams" "getOrgTeams" (VObj []) (VObj []) Scenario.start
  = (Rejected (VError "No result"),
     afterCall "getOrgTeams" (VObj []) (VObj []) (VStr "token-b") "beta" 2
       (State 1
          [Call "getOrgTeams" (VStr "token-a")
                (VObj [("org", VStr "alpha"); ("per_page", VNum 100)]) (VObj [])]
          [])).
Proof.
  apply (fan_out_rejected_by_missing_result nat
           (Scenario.listing (VNull, Scenario.alphaTeams) (VNull, VNull))
           "teams" "getOrgTeams" (VObj []) (VObj []) Scenario.orgsAndTokens
           [("alpha", VStr "token-a")] [] "beta" (VStr "token-b") Scenario.start
           (State 1
              [Call "getOrgTeams" (VStr "token-a")
                    (VObj [("org", VStr "alpha"); ("per_page", VNum 100)]) (VObj [])]
              [])
           [("alpha", Scenario.alphaTeams)]
           VNull VNull 2);
    reflexivity.
Defined.

(** Only a truthy value carries a truthy [data]. *)
Lemma truthy_data_owner (v data : value) :
  get v "data" = Ok data -> truthy data = true -> truthy v = true.
Proof.
  destruct v; simpl; try reflexivity; try discriminate;
    intros H; inversion H; subst; discriminate.
Qed.

(** C6.  An organization whose answer carries a [data] of its own (a
    truthy one) does not end the fan-out: the iteratee writes a warning,
    stores that [data] under the login of the organization instead of the
    answer around it, and calls [next()] without an error, so the fan-out
    goes on with the organizations left; when these are fetched without an
    error, the fan-out resolves, [orgs[login]] is the nested [data] and
    the warning is among the lines written. *)
Theorem fan_out_substitutes_nested_data
    (World : Type) (method : clientMethod World) (apiName methodName : string)
    (options cacheOptions : value) (orgsAndTokens pre post : props)
    (orgName : string) (tok : value) (s s1 : state World) (orgs1 : props)
    (e v data : value) (w : World) :
  prop_entries orgsAndTokens = pre ++ (orgName, tok) :: post ->
  eachLimit1 (organizationStep World method apiName methodName options cacheOptions)
             pre ([], s) = (Next VNull, (orgs1, s1)) ->
  method tok (VObj (localOptionsFor options orgName))
         (VObj (localCacheOptionsFor cacheOptions)) (world s1) = ((e, v), w) ->
  truthy e = false ->
  get v "data" = Ok data ->
  truthy data = true ->
  let organization :=
    organizationStep World method apiName methodName options cacheOptions in
  let s2 := warn (dataWarning apiName methodName)
                 (afterCall methodName options cacheOptions tok orgName w s1) in
  let orgs2 := prop_set orgName data orgs1 in
  organization (orgName, tok) (orgs1, s1) = (Next VUndefined, (orgs2, s2))
  /\ warnings s2 = warnings s1 ++ [dataWarning apiName methodName]
  /\ actualCrossOrgMethod World orgsAndTokens method apiName methodName
                          options cacheOptions s
     = fanOutDone (eachLimit1 organization post (orgs2, s2))
  /\ forall orgsF sF,
       eachLimit1 organization post (orgs2, s2) = (Next VNull, (orgsF, sF)) ->
       actualCrossOrgMethod World orgsAndTokens method apiName methodName
                            options cacheOptions s
       = (Resolved (VObj [("data", VObj [("orgs", VObj orgsF)]);
                          ("headers", VObj [])]), sF)
       /\ prop_get orgName orgsF = data
       /\ In (dataWarning apiName methodName) (warnings sF).
Proof.
  intros Hsplit Hpre Hcall He Hd Ht organization s2 orgs2.
  pose proof (truthy_data_owner v data Hd Ht) as Hv.
  pose proof (organizationStep_data World method apiName methodName options
                cacheOptions orgName tok orgs1 s1 e v w data Hcall He Hv Hd Ht)
    as Hstep.
  assert (Hrun : actualCrossOrgMethod World orgsAndTokens method apiName methodName
                   options cacheOptions s
                 = fanOutDone (eachLimit1 organization post (orgs2, s2))).
  { unfold actualCrossOrgMethod.
    rewrite Hsplit, (eachLimit1_app _ _ _ _ _ Hpre).
    now rewrite (eachLimit1_continue _ _ _ _ _ _ Hstep eq_refl). }
  split; [exact Hstep|]. split; [reflexivity|]. split; [exact Hrun|].
  intros orgsF sF Hpost. rewrite Hrun, Hpost.
  destruct (fanOut_frame World method apiName methodName options cacheOptions
              post orgs2 s2 _ orgsF sF Hpost) as [Hframe [more Hw]].
  split; [reflexivity|]. split.
  - unfold prop_get. rewrite Hframe by (eapply prop_entries_later; exact Hsplit).
    unfold orgs2. now rewrite prop_lookup_set_eq.
  - rewrite Hw. apply in_or_app. left. simpl. apply in_or_app. right. now left.
Qed.

(** [alpha] answers with its teams wrapped in an object with [data]. *)
Lemma fan_out_substitutes_nested_data_witness :
  actualCrossOrgMethod nat Scenario.orgsAndTokens
    (Scenario.listing
       (VNull, VObj [("data", Scenario.alphaTeams); ("headers", VObj [])])
       (VNull, Scenario.betaTeams))
    "teams" "getOrgTeams" (VObj []) (VObj []) Scenario.start
  = (Resolved
       (VObj [("data", VObj [("orgs", VObj [("alpha", Scenario.alphaTeams);
                                           ("beta", Scenario.betaTeams)])]);
              ("headers", VObj [])]),
     State 2
       [Call "getOrgTeams" (VStr "token-a")
             (VObj [("org", VStr "alpha"); ("per_page", VNum 100)]) (VObj []);
        Call "getOrgTeams" (VStr "token-b")
             (VObj [("org", VStr "beta"); ("per_page", VNum 100)]) (VObj [])]
       ["teams getOrgTeams result has data that is being used instead of the parent object"]).
Proof.
  apply (fan_out_substitutes_nested_data nat
           (Scenario.listing
              (VNull, VObj [("data", Scenario.alphaTeams); ("headers", VObj [])])
              (VNull, Scenario.betaTeams))
           "teams" "getOrgTeams" (VObj []) (VObj []) Scenario.orgsAndTokens
           [] [("beta", VStr "token-b")] "alpha" (VStr "token-a")
           Scenario.start Scenario.start []
           VNull (VObj [("data", Scenario.alphaTeams); ("headers", VObj [])])
           Scenario.alphaTeams 1);
    reflexivity.
Defined.

(** ** A method the collections client does not have *)

(** C9.  A method name under which the collections client has no method
    is refused at once: [getCrossOrganizationMethod] throws an error
    before it reaches [generalizedCollectionMethod]; the engine is not
    run and no organization is fetched, so the state is as it was. *)
Theorem unknown_method_is_refused
    (World : Type) (execute : CompositeApiContext World -> thunk World)
    (collectionsClient : string -> option (clientMethod World))
    (constructedBackgroundRefresh : value) (orgsAndTokens : props)
    (apiName methodName : string) (options cacheOptions callback : value)
    (s : state World) :
  collectionsClient methodName = None ->
  getCrossOrganizationMethod World execute collectionsClient
    constructedBackgroundRefresh orgsAndTokens apiName methodName
    options cacheOptions callback s
  = (Thrown (VError "No method called undefined defined in the collections client."),
     s).
Proof. intros H. unfold getCrossOrganizationMethod. now rewrite H. Qed.

(** The client of the scenario has no [getOrgRepos]. *)
Lemma unknown_method_is_refused_witness :
  getCrossOrganizationMethod nat Scenario.engine Scenario.collectionsClient
    VUndefined Scenario.orgsAndTokens "repos" "getOrgRepos"
    (VObj []) (VObj []) (VFun "callback") Scenario.start
  = (Thrown (VError "No method called undefined defined in the collections client."),
     Scenario.start).
Proof.
  apply (unknown_method_is_refused nat Scenario.engine Scenario.collectionsClient
           VUndefined Scenario.orgsAndTokens "repos" "getOrgRepos"
           (VObj []) (VObj []) (VFun "callback") Scenario.start).
  reflexivity.
Defined.

(** ** The context a call is executed with *)

(** C5.  A cache policy without [maxAgeSeconds] gives the context the
    engine executes a [maxAgeSeconds] of 600, and the [backgroundRefresh]
    of the policy reaches that context: a flag that is on sets it to
    [true], a flag that is off leaves it as the context was constructed,
    so that, the constructor leaving it unset, the flag of the context is
    on exactly when the caller's is. *)
Theorem default_max_age_and_background_refresh
    (World : Type) (execute : CompositeApiContext World -> thunk World)
    (constructedBackgroundRefresh : value) (tok : value) (apiName : string)
    (method : thunk World) (options : value) (policy : props)
    (callback : value) (s : state World) :
  prop_lookup "maxAgeSeconds" policy = None ->
  exists apiContext,
    apiContextFor World constructedBackgroundRefresh tok apiName method options
                  (VObj policy) = Ok apiContext
    /\ generalizedCollectionMethod World execute constructedBackgroundRefresh
         tok apiName method options (VObj policy) callback s
       = (thenCallback callback (fst (execute apiContext s)),
          snd (execute apiContext s))
    /\ maxAgeSeconds apiContext = VNum 600
    /\ (forall flag : bool,
          prop_get "backgroundRefresh" policy = VBool flag ->
          backgroundRefresh apiContext
          = (if flag then VBool true else constructedBackgroundRefresh)
          /\ (truthy constructedBackgroundRefresh = false ->
              truthy (backgroundRefresh apiContext) = flag)).
Proof.
  intros Hage.
  assert (Hctx : exists apiContext,
    apiContextFor World constructedBackgroundRefresh tok apiName method options
                  (VObj policy) = Ok apiContext
    /\ maxAgeSeconds apiContext = VNum 600
    /\ backgroundRefresh apiContext
       = (if truthy (prop_get "backgroundRefresh" policy)
          then VBool true else constructedBackgroundRefresh)).
  { unfold apiContextFor. cbn [get bind].
    replace (prop_get "maxAgeSeconds" policy) with VUndefined
      by (unfold prop_get; now rewrite Hage).
    cbn [truthy].
    destruct (truthy (prop_get "backgroundRefresh" policy));
      eexists; (split; [reflexivity|]); now split. }
  destruct Hctx as [apiContext [Hctx [H600 Hflag]]].
  exists apiContext. split; [exact Hctx|]. split; [|split; [exact H600|]].
  - unfold generalizedCollectionMethod.
    replace (match callback with VUndefined => is_function (VObj policy) | _ => false end)
      with false by now destruct callback.
    rewrite Hctx. now destruct (execute apiContext s).
  - intros flag Hb. rewrite Hflag, Hb. simpl.
    destruct flag; split; auto.
Qed.

(** A policy that asks for a background refresh and gives no age. *)
Lemma default_max_age_and_background_refresh_witness :
  exists apiContext,
    apiContextFor nat VUndefined (VStr "token-a") "teams"
      (fun s => (Resolved Scenario.alphaTeams, s)) (VObj [])
      (VObj [("backgroundRefresh", VBool true)]) = Ok apiContext
    /\ maxAgeSeconds apiContext = VNum 600
    /\ backgroundRefresh apiContext = VBool true.
Proof.
  destruct (default_max_age_and_background_refresh nat Scenario.engine VUndefined
              (VStr "token-a") "teams" (fun s => (Resolved Scenario.alphaTeams, s))
              (VObj []) [("backgroundRefresh", VBool true)] (VFun "callback")
              Scenario.start eq_refl)
    as [apiContext [Hctx [_ [Hage Hflag]]]].
  exists apiContext. split; [exact Hctx|]. split; [exact Hage|].
  exact (proj1 (Hflag true eq_refl)).
Defined.

(** ** Objects by reference: what the new objects hold, and what is kept *)

Section StoreFacts.
Import Store.
Implicit Types (h : heap) (a : arg).

Lemma fresh_unallocated h : h !! fresh (dom h) = None.
Proof. apply not_elem_of_dom. apply is_fresh. Qed.

(** A new object is no object there was. *)
Lemma read_newObject h a (literal : props) :
  allocated h a -> read (<[fresh (dom h) := literal]> h) a = read h a.
Proof.
  destruct a as [l|v]; simpl; [|reflexivity]. intros [ps Hl].
  rewrite lookup_insert_ne; [reflexivity|].
  intros E. rewrite <- E, fresh_unallocated in Hl. discriminate.
Qed.

Lemma allocated_insert h a l (ps : props) :
  allocated h a -> allocated (<[l := ps]> h) a.
Proof.
  destruct a as [l0|v]; simpl; [|trivial]. intros [qs Hl].
  destruct (decide (l = l0)) as [->|Hne].
  - rewrite lookup_insert_eq. eauto.
  - rewrite lookup_insert_ne by exact Hne. eauto.
Qed.

Lemma objectAssign_newObject h a (literal : props) :
  allocated h a ->
  objectAssign (fresh (dom h)) a (<[fresh (dom h) := literal]> h)
  = <[fresh (dom h) := assign literal (read h a)]> h.
Proof.
  intros Ha. unfold objectAssign. rewrite read_newObject by exact Ha.
  now rewrite alter_insert_eq.
Qed.

Lemma setProperty_insert h l k v (ps : props) :
  setProperty l k v (<[l := ps]> h) = <[l := prop_set k v ps]> h.
Proof. unfold setProperty. now rewrite alter_insert_eq. Qed.

Lemma getProperty_insert h l k (ps : props) :
  getProperty l k (<[l := ps]> h) = prop_get k ps.
Proof. unfold getProperty. now rewrite lookup_insert_eq. Qed.

(** The statements before the call make two new objects, which hold what
    [localOptionsFor] and [localCacheOptionsFor] compute from the contents
    of the caller's. *)
Lemma prepareCall_objects h (options cacheOptions : arg) (orgName : string) :
  allocated h options ->
  allocated h cacheOptions ->
  prepareCall options cacheOptions orgName h
  = let localOptions := fresh (dom h) in
    let h1 := <[localOptions := localOptionsFor (read h options) orgName]> h in
    let localCacheOptions := fresh (dom h1) in
    ((localOptions, localCacheOptions),
     <[localCacheOptions := localCacheOptionsFor (read h cacheOptions)]> h1).
Proof.
  intros Ho Hc. unfold prepareCall, newObject. cbv zeta.
  rewrite objectAssign_newObject by exact Ho.
  rewrite setProperty_insert, getProperty_insert.
  fold (localOptionsFor (read h options) orgName).
  assert (E : (if negb (truthy (prop_get "per_page"
                        (prop_set "org" (VStr orgName) (assign [] (read h options)))))
               then setProperty (fresh (dom h)) "per_page" (VNum 100)
                      (<[fresh (dom h) :=
                           prop_set "org" (VStr orgName) (assign [] (read h options))]> h)
               else <[fresh (dom h) :=
                        prop_set "org" (VStr orgName) (assign [] (read h options))]> h)
              = <[fresh (dom h) := localOptionsFor (read h options) orgName]> h).
  { unfold localOptionsFor.
    destruct (negb (truthy (prop_get "per_page"
                (prop_set "org" (VStr orgName) (assign [] (read h options))))));
      [apply setProperty_insert | reflexivity]. }
  rewrite E. clear E.
  set (h1 := <[fresh (dom h) := localOptionsFor (read h options) orgName]> h).
  assert (Hc1 : allocated h1 cacheOptions) by now apply allocated_insert.
  rewrite objectAssign_newObject by exact Hc1.
  rewrite getProperty_insert.
  assert (R : read h1 cacheOptions = read h cacheOptions)
    by now apply read_newObject.
  rewrite R. f_equal. unfold localCacheOptionsFor.
  destruct (truthy (prop_get "individualMaxAgeSeconds"
              (assign [] (read h cacheOptions))));
    [apply setProperty_insert | reflexivity].
Qed.

End StoreFacts.

(** ** The options of the call for one organization *)

Lemma localOptionsFor_org (options : value) (orgName : string) :
  prop_get "org" (localOptionsFor options orgName) = VStr orgName.
Proof.
  unfold localOptionsFor.
  destruct (negb (truthy (prop_get "per_page"
              (prop_set "org" (VStr orgName) (assign [] options))))).
  - rewrite prop_get_set_ne by discriminate. apply prop_get_set_eq.
  - apply prop_get_set_eq.
Qed.

Lemma localOptionsFor_per_page (opts : props) (orgName : string) :
  prop_get "per_page" (localOptionsFor (VObj opts) orgName)
  = if truthy (prop_get "per_page" opts) then prop_get "per_page" opts
    else VNum 100.
Proof.
  unfold localOptionsFor.
  rewrite (prop_get_set_ne "per_page" "org") by discriminate.
  rewrite prop_get_assign_empty.
  destruct (truthy (prop_get "per_page" opts)); simpl.
  - rewrite prop_get_set_ne by discriminate. apply prop_get_assign_empty.
  - apply prop_get_set_eq.
Qed.

Lemma localOptionsFor_other (opts : props) (orgName k : string) :
  k <> "org" -> k <> "per_page" ->
  prop_lookup k (localOptionsFor (VObj opts) orgName) = prop_lookup k opts.
Proof.
  intros H1 H2. unfold localOptionsFor.
  destruct (negb (truthy (prop_get "per_page"
              (prop_set "org" (VStr orgName) (assign [] (VObj opts)))))).
  - rewrite !prop_lookup_set_ne by assumption. rewrite prop_lookup_assign.
    now destruct (prop_lookup k opts).
  - rewrite prop_lookup_set_ne by assumption. rewrite prop_lookup_assign.
    now destruct (prop_lookup k opts).
Qed.

Lemma localCacheOptionsFor_maxAgeSeconds (copts : props) :
  prop_get "maxAgeSeconds" (localCacheOptionsFor (VObj copts))
  = if truthy (prop_get "individualMaxAgeSeconds" copts)
    then prop_get "individualMaxAgeSeconds" copts
    else prop_get "maxAgeSeconds" copts.
Proof.
  unfold localCacheOptionsFor. rewrite !prop_get_assign_empty.
  destruct (truthy (prop_get "individualMaxAgeSeconds" copts)).
  - apply prop_get_set_eq.
  - apply prop_get_assign_empty.
Qed.

Lemma localCacheOptionsFor_other (copts : props) (k : string) :
  k <> "maxAgeSeconds" ->
  prop_lookup k (localCacheOptionsFor (VObj copts)) = prop_lookup k copts.
Proof.
  intros H. unfold localCacheOptionsFor.
  destruct (truthy (prop_get "individualMaxAgeSeconds" (assign [] (VObj copts)))).
  - rewrite prop_lookup_set_ne by assumption. rewrite prop_lookup_assign.
    now destruct (prop_lookup k copts).
  - rewrite prop_lookup_assign. now destruct (prop_lookup k copts).
Qed.

(** The call of the iteratee is made with these objects. *)
Lemma organizationStep_calls (World : Type) (method : clientMethod World)
    (apiName methodName : string) (options cacheOptions : value)
    (orgName : string) (tok : value) (orgs : props) (s : state World) :
  calls (snd (snd (organizationStep World method apiName methodName options
                     cacheOptions (orgName, tok) (orgs, s))))
  = calls s ++ [Call methodName tok (VObj (localOptionsFor options orgName))
                     (VObj (localCacheOptionsFor cacheOptions))].
Proof.
  unfold organizationStep, invoke.
  destruct (method tok _ _ (world s)) as [[e v] w].
  destruct (truthy e); [reflexivity|].
  destruct (truthy v); [|reflexivity]. simpl.
  destruct (get v "data") as [d|x]; [|reflexivity].
  now destruct (truthy d).
Qed.

(** C7.  For every organization the call is made with two objects of its
    own.  The options are a copy of the caller's template in which [org]
    is the login and [per_page] is 100 unless the template has one (a
    truthy one); the cache options are a copy of the caller's policy in
    which [maxAgeSeconds] is the policy's [individualMaxAgeSeconds] when
    it has one (a truthy one).  Both are new objects: every object there
    was before, the template and the policy among them, holds what it
    held. *)
Theorem fan_out_call_options
    (World : Type) (method : clientMethod World) (apiName methodName : string)
    (h h' : Store.heap) (options cacheOptions : nat) (opts copts : props)
    (orgName : string) (tok : value) (localOptions localCacheOptions : nat)
    (orgs : props) (s : state World) :
  h !! options = Some opts ->
  h !! cacheOptions = Some copts ->
  Store.prepareCall (Store.Ref options) (Store.Ref cacheOptions) orgName h
  = ((localOptions, localCacheOptions), h') ->
  exists lo lc : props,
    h' !! localOptions = Some lo
    /\ h' !! localCacheOptions = Some lc
    /\ calls (snd (snd (organizationStep World method apiName methodName
                          (VObj opts) (VObj copts) (orgName, tok) (orgs, s))))
       = calls s ++ [Call methodName tok (VObj lo) (VObj lc)]
    /\ prop_get "org" lo = VStr orgName
    /\ prop_get "per_page" lo
       = (if truthy (prop_get "per_page" opts) then prop_get "per_page" opts
          else VNum 100)
    /\ (forall k, k <> "org" -> k <> "per_page" ->
          prop_lookup k lo = prop_lookup k opts)
    /\ prop_get "maxAgeSeconds" lc
       = (if truthy (prop_get "individualMaxAgeSeconds" copts)
          then prop_get "individualMaxAgeSeconds" copts
          else prop_get "maxAgeSeconds" copts)
    /\ (forall k, k <> "maxAgeSeconds" -> prop_lookup k lc = prop_lookup k copts)
    /\ h' !! options = Some opts
    /\ h' !! cacheOptions = Some copts
    /\ (forall l, is_Some (h !! l) -> h' !! l = h !! l).
Proof.
  intros Ho Hc Hrun.
  rewrite prepareCall_objects in Hrun by (simpl; eauto).
  cbv zeta in Hrun. simpl Store.read in Hrun. rewrite Ho, Hc in Hrun.
  inversion Hrun as [[E1 E2 E3]]. clear Hrun.
  set (lo := localOptionsFor (VObj opts) orgName) in *.
  set (lc := localCacheOptionsFor (VObj copts)) in *.
  set (h1 := <[fresh (dom h) := lo]> h) in *.
  assert (Hkeep1 : forall l, is_Some (h !! l) -> h1 !! l = h !! l).
  { intros l [ps Hl]. unfold h1. rewrite lookup_insert_ne; [reflexivity|].
    intros E. rewrite <- E, fresh_unallocated in Hl. discriminate. }
  assert (Hkeep : forall l, is_Some (h !! l) ->
            <[fresh (dom h1) := lc]> h1 !! l = h !! l).
  { intros l Hl. rewrite lookup_insert_ne; [now apply Hkeep1|].
    intros E. apply Hkeep1 in Hl as Hl1. destruct Hl as [ps Hl].
    rewrite Hl in Hl1. rewrite <- E, fresh_unallocated in Hl1. discriminate. }
  exists lo, lc.
  split.
  { rewrite lookup_insert_ne; [unfold h1; apply lookup_insert_eq|].
    intros E. pose proof (fresh_unallocated h1) as F.
    rewrite E in F. unfold h1 in F. rewrite lookup_insert_eq in F. discriminate. }
  split; [apply lookup_insert_eq|].
  split; [apply organizationStep_calls|].
  split; [apply localOptionsFor_org|].
  split; [apply localOptionsFor_per_page|].
  split; [intros k; apply localOptionsFor_other|].
  split; [apply localCacheOptionsFor_maxAgeSeconds|].
  split; [intros k; apply localCacheOptionsFor_other|].
  split; [rewrite Hkeep by eauto; exact Ho|].
  split; [rewrite Hkeep by eauto; exact Hc|].
  exact Hkeep.
Qed.

(** The call for [alpha], from a template without [per_page] and a policy
    with an [individualMaxAgeSeconds] of 60. *)
Lemma fan_out_call_options_witness :
  exists (lo lc : props) (localOptions localCacheOptions : nat) (h' : Store.heap),
    Store.prepareCall (Store.Ref 0) (Store.Ref 1) "alpha" Scenario.callerObjects
    = ((localOptions, localCacheOptions), h')
    /\ h' !! localOptions = Some lo
    /\ h' !! localCacheOptions = Some lc
    /\ prop_get "org" lo = VStr "alpha"
    /\ prop_get "per_page" lo = VNum 100
    /\ prop_get "maxAgeSeconds" lc = VNum 60
    /\ h' !! 0 = Some [("type", VStr "all")]
    /\ h' !! 1 = Some [("maxAgeSeconds", VNum 600);
                       ("individualMaxAgeSeconds", VNum 60)].
Proof.
  destruct (Store.prepareCall (Store.Ref 0) (Store.Ref 1) "alpha"
              Scenario.callerObjects) as [[localOptions localCacheOptions] h'] eqn:E.
  destruct (fan_out_call_options nat Scenario.getOrgTeams "teams" "getOrgTeams"
              Scenario.callerObjects h' 0 1
              [("type", VStr "all")]
              [("maxAgeSeconds", VNum 600); ("individualMaxAgeSeconds", VNum 60)]
              "alpha" (VStr "token-a") localOptions localCacheOptions []
              Scenario.start eq_refl eq_refl E)
    as (lo & lc & H1 & H2 & _ & H4 & H5 & _ & H7 & _ & H9 & H10 & _).
  exists lo, lc, localOptions, localCacheOptions, h'.
  split; [reflexivity|]. split; [exact H1|]. split; [exact H2|].
  split; [exact H4|]. split; [exact H5|]. split; [exact H7|].
  split; [exact H9 | exact H10].
Defined.

(** ** The clone of an entity *)

Lemma cloneEntity_objects (h : Store.heap) (flag : value) (orgName : string)
    (orgEntity : Store.arg) :
  Store.allocated h orgEntity ->
  Store.cloneEntity flag orgName orgEntity h
  = (fresh (dom h),
     <[fresh (dom h) := entityCloneOf flag orgName (Store.read h orgEntity)]> h).
Proof.
  intros Ha. unfold Store.cloneEntity, Store.newObject. cbv zeta.
  now rewrite objectAssign_newObject by exact Ha.
Qed.

(** ** The nested aggregation *)

Lemma get_Ok (v : value) (k : string) :
  v <> VUndefined -> v <> VNull -> exists x, get v k = Ok x.
Proof.
  intros H1 H2. destruct v; try contradiction; simpl; eauto.
  - destruct (element (chars_of s) k); [eauto|]. destruct (k =? "length"); eauto.
  - destruct (element elems k); [eauto|]. destruct (k =? "length"); eauto.
Qed.

Lemma get_truthy (v : value) (k : string) :
  truthy v = true -> exists x, get v k = Ok x.
Proof.
  intros H. apply get_Ok; intros ->; discriminate.
Qed.

(** The inner callback always gets to its test of the error. *)
Lemma innerError_Ok (collectionMethodName : string) (collectionsError innerEntities : value) :
  exists error,
    innerError collectionMethodName collectionsError innerEntities = Ok error.
Proof.
  unfold innerError.
  destruct (negb (truthy collectionsError)); simpl; [|eauto].
  destruct (truthy innerEntities) eqn:E; [|eauto].
  destruct (get_truthy innerEntities "data" E) as [d ->]. simpl. eauto.
Qed.

Section AggregationFacts.
Variable World : Type.
Variable collectionsClient : string -> option (clientMethod World).
Variable orgsAndTokens : props.
Variables options cacheOptions : value.
Variable innerKeyType : string.
Variable outerFunction :
  props -> value -> value -> value -> state World -> reported * state World.
Variables collectionMethodName collectionKey : string.
Variable optionalSetOrganizationLogin : value.
Variable localCacheOptions : props.

Let entity :=
  entityStep World collectionsClient orgsAndTokens options innerKeyType
             collectionMethodName collectionKey optionalSetOrganizationLogin
             localCacheOptions.

Let organizationEntities :=
  organizationEntitiesStep World collectionsClient orgsAndTokens options
    innerKeyType collectionMethodName collectionKey optionalSetOrganizationLogin
    localCacheOptions.

(** An inner key type that is neither [team] nor [repo] makes the iteratee
    throw before it looks for a token or calls the client. *)
Lemma entityStep_unsupported orgName orgEntity acc :
  innerKeyType <> "team" -> innerKeyType <> "repo" ->
  entity orgName orgEntity acc
  = (Raise (VError (String.append "Unsupported inner key type " innerKeyType)), acc).
Proof.
  intros H1 H2. unfold entity, entityStep, innerOptionsFor, localOptionsTargetFor.
  apply String.eqb_neq in H1, H2. rewrite H1, H2. simpl. now destruct acc.
Qed.


(** With a token the iteratee makes the inner call, and calls [next()]
    whatever the call brings. *)
Lemma entityStep_call orgName orgEntity entities s localOptions method
    collectionsError innerEntities error w :
  innerOptionsFor options innerKeyType orgName orgEntity = Ok localOptions ->
  truthy (tokenFor orgsAndTokens orgName) = true ->
  collectionsClient collectionMethodName = Some method ->
  method (tokenFor orgsAndTokens orgName) (VObj localOptions)
         (VObj localCacheOptions) (world s)
  = ((collectionsError, innerEntities), w) ->
  innerError collectionMethodName collectionsError innerEntities = Ok error ->
  entity orgName orgEntity (entities, s)
  = (Next VUndefined,
     (if truthy error then entities
      else entities ++
           [VObj (prop_set collectionKey innerEntities
                    (entityCloneOf optionalSetOrganizationLogin orgName orgEntity))],
      afterInnerCall collectionMethodName (tokenFor orgsAndTokens orgName)
                     localOptions localCacheOptions w s)).
Proof.
  intros Ho Ht Hm Hcall Herr. unfold entity, entityStep, invoke.
  rewrite Ho, Ht, Hm. simpl. rewrite Hcall, Herr.
  now destruct (truthy error).
Qed.

Lemma innerOptionsFor_Ok orgName orgEntity :
  innerKeyType = "team" \/ innerKeyType = "repo" ->
  orgEntity <> VUndefined -> orgEntity <> VNull ->
  exists localOptions,
    innerOptionsFor options innerKeyType orgName orgEntity = Ok localOptions.
Proof.
  intros Hk H1 H2. unfold innerOptionsFor, localOptionsTargetFor.
  destruct Hk as [->| ->]; simpl.
  - destruct (get_Ok orgEntity "id" H1 H2) as [x ->]. simpl. eauto.
  - destruct (get_Ok orgEntity "name" H1 H2) as [x ->]. simpl. eauto.
Qed.

Lemma aggregated_app method l1 l2 s s1 s2 out1 out2 :
  aggregated World method orgsAndTokens options innerKeyType collectionMethodName
             collectionKey optionalSetOrganizationLogin localCacheOptions
             l1 s out1 s1 ->
  aggregated World method orgsAndTokens options innerKeyType collectionMethodName
             collectionKey optionalSetOrganizationLogin localCacheOptions
             l2 s1 out2 s2 ->
  aggregated World method orgsAndTokens options innerKeyType collectionMethodName
             collectionKey optionalSetOrganizationLogin localCacheOptions
             (l1 ++ l2) s (out1 ++ out2) s2.
Proof.
  intros H1 H2. induction H1; simpl.
  - exact H2.
  - eapply aggregated_dropped; eauto.
  - eapply aggregated_kept; eauto.
Qed.

(** The loop over the entities of one organization never ends in an
    error: it collects the entities whose inner call went well. *)
Lemma entities_aggregated method orgName :
  innerKeyType = "team" \/ innerKeyType = "repo" ->
  collectionsClient collectionMethodName = Some method ->
  forall orgEntities,
    (forall orgEntity, In orgEntity orgEntities ->
       orgEntity <> VUndefined /\ orgEntity <> VNull
       /\ truthy (tokenFor orgsAndTokens orgName) = true) ->
    forall entities s,
    exists out s',
      eachLimit1 (entity orgName) orgEntities (entities, s)
      = (Next VNull, (entities ++ out, s'))
      /\ aggregated World method orgsAndTokens options innerKeyType
           collectionMethodName collectionKey optionalSetOrganizationLogin
           localCacheOptions (map (pair orgName) orgEntities) s out s'.
Proof.
  intros Hk Hm. induction orgEntities as [|e es IH]; intros Hes entities s.
  - exists [], s. simpl. rewrite app_nil_r. split; [reflexivity | constructor].
  - destruct (Hes e (or_introl eq_refl)) as (H1 & H2 & Ht).
    destruct (innerOptionsFor_Ok orgName e Hk H1 H2) as [lo Ho].
    destruct (method (tokenFor orgsAndTokens orgName) (VObj lo)
                     (VObj localCacheOptions) (world s)) as [[err res] w] eqn:Hcall.
    destruct (innerError_Ok collectionMethodName err res) as [error Herr].
    pose proof (entityStep_call orgName e entities s lo method err res error w
                  Ho Ht Hm Hcall Herr) as Hstep.
    assert (Hes' : forall orgEntity, In orgEntity es ->
              orgEntity <> VUndefined /\ orgEntity <> VNull
              /\ truthy (tokenFor orgsAndTokens orgName) = true)
      by (intros x Hx; apply Hes; now right).
    rewrite (eachLimit1_continue _ _ _ _ _ _ Hstep eq_refl).
    destruct (truthy error) eqn:Hfail.
    + destruct (IH Hes' entities
                  (afterInnerCall collectionMethodName (tokenFor orgsAndTokens orgName)
                                  lo localCacheOptions w s)) as (out & s' & Hloop & Hagg).
      exists out, s'. split; [exact Hloop|]. simpl.
      eapply aggregated_dropped; eauto.
    + destruct (IH Hes'
                  (entities ++
                   [VObj (prop_set collectionKey res
                            (entityCloneOf optionalSetOrganizationLogin orgName e))])
                  (afterInnerCall collectionMethodName (tokenFor orgsAndTokens orgName)
                                  lo localCacheOptions w s)) as (out & s' & Hloop & Hagg).
      exists (VObj (prop_set collectionKey res
                      (entityCloneOf optionalSetOrganizationLogin orgName e)) :: out), s'.
      split.
      * rewrite Hloop. now rewrite <- app_assoc.
      * simpl. eapply aggregated_kept; eauto.
Qed.

(** So does the loop over the organizations. *)
Lemma organizations_aggregated method (orgs : props) :
  innerKeyType = "team" \/ innerKeyType = "repo" ->
  collectionsClient collectionMethodName = Some method ->
  forall names,
    (forall orgName orgEntity, In (orgName, orgEntity) (discovered orgs names) ->
       orgEntity <> VUndefined /\ orgEntity <> VNull
       /\ truthy (tokenFor orgsAndTokens orgName) = true) ->
    forall entities s,
    exists out s',
      eachLimit1 (organizationEntities (VObj orgs)) names (entities, s)
      = (Next VNull, (entities ++ out, s'))
      /\ aggregated World method orgsAndTokens options innerKeyType
           collectionMethodName collectionKey optionalSetOrganizationLogin
           localCacheOptions (discovered orgs names) s out s'.
Proof.
  intros Hk Hm. induction names as [|n names IH]; intros Hd entities s.
  - exists [], s. simpl. rewrite app_nil_r. split; [reflexivity | constructor].
  - unfold discovered in Hd. simpl in Hd. fold (discovered orgs names) in Hd.
    destruct (entities_aggregated method n Hk Hm (items (prop_get n orgs)))
      with (entities := entities) (s := s) as (out1 & s1 & Hloop1 & Hagg1).
    { intros e He. apply (Hd n e). apply in_or_app. left.
      apply in_map_iff. now exists e. }
    destruct (IH (fun o e H => Hd o e (in_or_app _ _ _ (or_intror H)))
                 (entities ++ out1) s1) as (out2 & s2 & Hloop2 & Hagg2).
    exists (out1 ++ out2), s2. split.
    + assert (Hstep : organizationEntities (VObj orgs) n (entities, s)
                      = (Next VNull, (entities ++ out1, s1))) by exact Hloop1.
      rewrite (eachLimit1_continue _ _ _ _ _ _ Hstep eq_refl).
      rewrite Hloop2. now rewrite <- app_assoc.
    + unfold discovered. simpl. fold (discovered orgs names).
      eapply aggregated_app; eauto.
Qed.

End AggregationFacts.

Section AggregationRuns.
Variable World : Type.
Variable collectionsClient : string -> option (clientMethod World).
Variable orgsAndTokens : props.
Variables options cacheOptions : value.
Variable innerKeyType : string.
Variable outerFunction :
  props -> value -> value -> value -> state World -> reported * state World.
Variables collectionMethodName collectionKey : string.
Variable optionalSetOrganizationLogin : value.

(** A listing that arrives without an error and with its organizations
    under [data.orgs] starts the loop over these. *)
Lemma outerCallback_listing (outerError data inner : value) (orgs : props)
    (s : state World) :
  truthy outerError = false ->
  get data "data" = Ok inner ->
  truthy inner = true ->
  get inner "orgs" = Ok (VObj orgs) ->
  outerCallback World collectionsClient orgsAndTokens options cacheOptions
    innerKeyType collectionMethodName collectionKey optionalSetOrganizationLogin
    outerError data s
  = aggregationDone [("headers", VObj [])]
      (eachLimit1
         (organizationEntitiesStep World collectionsClient orgsAndTokens options
            innerKeyType collectionMethodName collectionKey
            optionalSetOrganizationLogin (localCacheOptionsFor cacheOptions)
            (VObj orgs))
         (own_keys orgs) ([], s)).
Proof.
  intros He Hd Ht Ho. unfold outerCallback.
  rewrite He, (truthy_data_owner data inner Hd Ht). cbn [negb andb].
  rewrite Hd, Ht. cbn [negb andb]. rewrite He.
  cbn [bind]. rewrite Ho. reflexivity.
Qed.

Lemma aggregation_listing (outerError data inner : value) (orgs : props)
    (s s1 : state World) :
  outerFunction orgsAndTokens (VObj []) cacheOptions (VFun "outerCallback") s
  = (Called outerError data, s1) ->
  truthy outerError = false ->
  get data "data" = Ok inner ->
  truthy inner = true ->
  get inner "orgs" = Ok (VObj orgs) ->
  crossOrganizationCollection World collectionsClient orgsAndTokens options
    cacheOptions innerKeyType outerFunction collectionMethodName collectionKey
    optionalSetOrganizationLogin s
  = aggregationDone [("headers", VObj [])]
      (eachLimit1
         (organizationEntitiesStep World collectionsClient orgsAndTokens options
            innerKeyType collectionMethodName collectionKey
            optionalSetOrganizationLogin (localCacheOptionsFor cacheOptions)
            (VObj orgs))
         (own_keys orgs) ([], s1)).
Proof.
  intros Hout He Hd Ht Ho. unfold crossOrganizationCollection. rewrite Hout.
  now apply outerCallback_listing with (inner := inner).
Qed.

(** Organizations without entities are passed. *)
Lemma organizations_without_entities (orgs : props) (names : list string)
    (acc : list value * state World) :
  (forall orgName, In orgName names -> items (prop_get orgName orgs) = []) ->
  eachLimit1
    (organizationEntitiesStep World collectionsClient orgsAndTokens options
       innerKeyType collectionMethodName collectionKey
       optionalSetOrganizationLogin (localCacheOptionsFor cacheOptions)
       (VObj orgs))
    names acc
  = (Next VNull, acc).
Proof.
  induction names as [|n names IH]; intros H; simpl; [reflexivity|].
  unfold organizationEntitiesStep at 1. simpl.
  rewrite (H n (or_introl eq_refl)). simpl.
  apply IH. intros o Ho. apply H. now right.
Qed.

(** C1, amended.  An inner call that ends in an error is not
    an error of the aggregation, and its entity is left out: when the
    listing arrives, the inner key type is [team] or [repo], the client
    has the inner method, and every entity listed is an object of an
    organization with a token, the aggregation resolves, whatever the
    inner calls bring; its [data] holds, in the order of the listing, the
    clones of the entities whose inner call went well, each with the
    result under [collectionKey], and holds nothing for the others. *)
Theorem aggregation_leaves_out_failed_entities
    (method : clientMethod World) (outerError data inner : value)
    (orgs : props) (s s1 : state World) :
  innerKeyType = "team" \/ innerKeyType = "repo" ->
  collectionsClient collectionMethodName = Some method ->
  outerFunction orgsAndTokens (VObj []) cacheOptions (VFun "outerCallback") s
  = (Called outerError data, s1) ->
  truthy outerError = false ->
  get data "data" = Ok inner ->
  truthy inner = true ->
  get inner "orgs" = Ok (VObj orgs) ->
  (forall orgName orgEntity,
     In (orgName, orgEntity) (discovered orgs (own_keys orgs)) ->
     orgEntity <> VUndefined /\ orgEntity <> VNull
     /\ truthy (tokenFor orgsAndTokens orgName) = true) ->
  exists (out : list value) (s' : state World),
    crossOrganizationCollection World collectionsClient orgsAndTokens options
      cacheOptions innerKeyType outerFunction collectionMethodName collectionKey
      optionalSetOrganizationLogin s
    = (Resolved (VObj [("data", VArr out []); ("headers", VObj [])]), s')
    /\ aggregated World method orgsAndTokens options innerKeyType
         collectionMethodName collectionKey optionalSetOrganizationLogin
         (localCacheOptionsFor cacheOptions)
         (discovered orgs (own_keys orgs)) s1 out s'.
Proof.
  intros Hk Hm Hout He Hd Ht Ho Hlist.
  rewrite (aggregation_listing outerError data inner orgs s s1 Hout He Hd Ht Ho).
  destruct (organizations_aggregated World collectionsClient orgsAndTokens options
              innerKeyType collectionMethodName collectionKey
              optionalSetOrganizationLogin (localCacheOptionsFor cacheOptions)
              method orgs Hk Hm (own_keys orgs) Hlist [] s1)
    as (out & s' & Hloop & Hagg).
  exists out, s'. split; [|exact Hagg].
  rewrite Hloop. reflexivity.
Qed.

End AggregationRuns.

(** The team members of [alpha] and [beta]: the call for team 4 fails. *)
Lemma aggregation_leaves_out_failed_entities_witness :
  exists (out : list value) (s' : state nat),
    crossOrganizationCollection nat Scenario.collectionsClient
      Scenario.orgsAndTokens (VObj []) (VObj []) "team" Scenario.allTeams
      "getTeamMembers" "members" (VBool true) Scenario.start
    = (Resolved (VObj [("data", VArr out []); ("headers", VObj [])]), s')
    /\ aggregated nat Scenario.getTeamMembers Scenario.orgsAndTokens (VObj [])
         "team" "getTeamMembers" "members" (VBool true)
         (localCacheOptionsFor (VObj []))
         (discovered Scenario.teamsByOrg (own_keys Scenario.teamsByOrg))
         Scenario.afterListing out s'.
Proof.
  apply (aggregation_leaves_out_failed_entities nat Scenario.collectionsClient
           Scenario.orgsAndTokens (VObj []) (VObj []) "team" Scenario.allTeams
           "getTeamMembers" "members" (VBool true) Scenario.getTeamMembers
           VNull Scenario.teamsListing (VObj [("orgs", VObj Scenario.teamsByOrg)])
           Scenario.teamsByOrg Scenario.start Scenario.afterListing).
  - now left.
  - reflexivity.
  - reflexivity.
  - reflexivity.
  - reflexivity.
  - reflexivity.
  - reflexivity.
  - intros orgName orgEntity H. vm_compute in H.
    destruct H as [H|[H|[H|[H|[]]]]]; inversion H;
      (split; [discriminate | split; [discriminate | reflexivity]]).
Defined.

(** Against C1 as it is stated.  Of the four teams the listing discovers,
    the aggregation puts out three: team 4 of [beta], whose members could
    not be fetched, is not in the output at all. *)
Lemma aggregation_output_lacks_failed_entity :
  In ("beta", Scenario.team 4 "team2")
     (discovered Scenario.teamsByOrg (own_keys Scenario.teamsByOrg))
  /\ fst (crossOrganizationCollection nat Scenario.collectionsClient
            Scenario.orgsAndTokens (VObj []) (VObj []) "team" Scenario.allTeams
            "getTeamMembers" "members" (VBool true) Scenario.start)
     = Resolved
         (VObj [("data",
                 VArr [Scenario.teamWithMembers "alpha" 1 "team1";
                       Scenario.teamWithMembers "alpha" 2 "team2";
                       Scenario.teamWithMembers "beta" 3 "team1"] []);
                ("headers", VObj [])])
  /\ Forall (fun entity => get entity "id" <> Ok (VNum 4))
            [Scenario.teamWithMembers "alpha" 1 "team1";
             Scenario.teamWithMembers "alpha" 2 "team2";
             Scenario.teamWithMembers "beta" 3 "team1"].
Proof.
  split; [vm_compute; tauto|]. split; [reflexivity|].
  repeat constructor; vm_compute; discriminate.
Qed.

Section AggregationErrors.
Variable World : Type.
Variable collectionsClient : string -> option (clientMethod World).
Variable orgsAndTokens : props.
Variables options cacheOptions : value.
Variable innerKeyType : string.
Variable outerFunction :
  props -> value -> value -> value -> state World -> reported * state World.
Variables collectionMethodName collectionKey : string.
Variable optionalSetOrganizationLogin : value.



(** C4, amended.  The options of the inner call start from
    [{per_page: 100}], to which [team] adds the [id] of the entity as
    [team_id] and [repo] adds the login as [owner] and the [name] of the
    entity as [repo].  Any other inner key type makes the iteratee throw
    for whichever entity it is given; the aggregation comes to that when
    the listing has arrived and it visits the first entity: then the error
    escapes, before any token is read or inner call made, and the promise
    of the aggregation stays pending.  A listing without entities is
    aggregated without an error, whatever the inner key type. *)
Theorem inner_options_follow_the_key_type
    (outerError data inner : value) (orgs : props) (s s1 : state World) :
  outerFunction orgsAndTokens (VObj []) cacheOptions (VFun "outerCallback") s
  = (Called outerError data, s1) ->
  truthy outerError = false ->
  get data "data" = Ok inner ->
  truthy inner = true ->
  get inner "orgs" = Ok (VObj orgs) ->
  (forall orgName orgEntity id,
     get orgEntity "id" = Ok id ->
     localOptionsTargetFor "team" orgName orgEntity
     = Ok [("per_page", VNum 100); ("team_id", id)])
  /\ (forall orgName orgEntity name,
        get orgEntity "name" = Ok name ->
        localOptionsTargetFor "repo" orgName orgEntity
        = Ok [("per_page", VNum 100); ("owner", VStr orgName); ("repo", name)])
  /\ ((forall orgName, In orgName (own_keys orgs) ->
         items (prop_get orgName orgs) = []) ->
      crossOrganizationCollection World collectionsClient orgsAndTokens options
        cacheOptions innerKeyType outerFunction collectionMethodName collectionKey
        optionalSetOrganizationLogin s
      = (Resolved (VObj [("data", VArr [] []); ("headers", VObj [])]), s1))
  /\ (innerKeyType <> "team" -> innerKeyType <> "repo" ->
      let unsupported :=
        VError (String.append "Unsupported inner key type " innerKeyType) in
      (forall orgName orgEntity,
         localOptionsTargetFor innerKeyType orgName orgEntity = Throw unsupported)
      /\ (forall pre orgName post orgEntity rest,
            own_keys orgs = pre ++ orgName :: post ->
            (forall earlier, In earlier pre -> items (prop_get earlier orgs) = []) ->
            items (prop_get orgName orgs) = orgEntity :: rest ->
            crossOrganizationCollection World collectionsClient orgsAndTokens
              options cacheOptions innerKeyType outerFunction collectionMethodName
              collectionKey optionalSetOrganizationLogin s
            = (Pending (Some unsupported), s1))).
Proof.
  intros Hout He Hd Ht Ho.
  pose proof (aggregation_listing World collectionsClient orgsAndTokens options
                cacheOptions innerKeyType outerFunction collectionMethodName
                collectionKey optionalSetOrganizationLogin outerError data inner
                orgs s s1 Hout He Hd Ht Ho) as Hrun.
  split; [intros orgName orgEntity id Hid; unfold localOptionsTargetFor; simpl;
          now rewrite Hid|].
  split; [intros orgName orgEntity name Hn; unfold localOptionsTargetFor; simpl;
          now rewrite Hn|].
  split.
  { intros Hempty. rewrite Hrun.
    now rewrite organizations_without_entities by exact Hempty. }
  intros H1 H2 unsupported. split.
  { intros orgName orgEntity. unfold localOptionsTargetFor.
    apply String.eqb_neq in H1, H2. now rewrite H1, H2. }
  intros pre orgName post orgEntity rest Hnames Hpre Hitems.
  rewrite Hrun, Hnames.
  rewrite (eachLimit1_app _ _ _ _ _
             (organizations_without_entities World collectionsClient orgsAndTokens
                options cacheOptions innerKeyType collectionMethodName
                collectionKey optionalSetOrganizationLogin orgs pre ([], s1) Hpre)).
  assert (Horg :
    organizationEntitiesStep World collectionsClient orgsAndTokens options
      innerKeyType collectionMethodName collectionKey
      optionalSetOrganizationLogin (localCacheOptionsFor cacheOptions)
      (VObj orgs) orgName ([], s1)
    = (Raise unsupported, ([], s1))).
  { unfold organizationEntitiesStep. cbn [get]. rewrite Hitems.
    apply eachLimit1_raise. now apply entityStep_unsupported. }
  now rewrite (eachLimit1_raise _ _ _ _ _ _ Horg).
Qed.

End AggregationErrors.



(** The listing names an organization [constructor], for which the token
    set has no token: the token set answers with the function it
    inherits under that name, and the members of the teams are asked for
    with it. *)
Lemma inherited_constructor_is_taken_for_a_token :
  tokenFor Scenario.orgsAndTokens "constructor" = VFun "Object"
  /\ crossOrganizationCollection nat Scenario.collectionsClient
       Scenario.orgsAndTokens (VObj []) (VObj []) "team"
       (Scenario.listed [("constructor", Scenario.alphaTeams)])
       "getTeamMembers" "members" (VBool true) Scenario.start
     = (Resolved
          (VObj [("data",
                  VArr [Scenario.teamWithMembers "constructor" 1 "team1";
                        Scenario.teamWithMembers "constructor" 2 "team2"] []);
                 ("headers", VObj [])]),
        State 2
          [Call "getTeamMembers" (VFun "Object")
                (VObj [("per_page", VNum 100); ("team_id", VNum 1)]) (VObj []);
           Call "getTeamMembers" (VFun "Object")
                (VObj [("per_page", VNum 100); ("team_id", VNum 2)]) (VObj [])]
          []).
Proof. split; reflexivity. Qed.

(** An aggregation by [user] over the teams of [alpha] and [beta]. *)
Lemma inner_options_follow_the_key_type_witness :
  crossOrganizationCollection nat Scenario.collectionsClient
    Scenario.orgsAndTokens (VObj []) (VObj []) "user"
    (Scenario.listed Scenario.teamsByOrg) "getTeamMembers" "members"
    (VBool true) Scenario.start
  = (Pending (Some (VError "Unsupported inner key type user")), Scenario.start).
Proof.
  destruct (inner_options_follow_the_key_type nat Scenario.collectionsClient
              Scenario.orgsAndTokens (VObj []) (VObj []) "user"
              (Scenario.listed Scenario.teamsByOrg) "getTeamMembers" "members"
              (VBool true) VNull
              (VObj [("data", VObj [("orgs", VObj Scenario.teamsByOrg)])])
              (VObj [("orgs", VObj Scenario.teamsByOrg)])
              Scenario.teamsByOrg Scenario.start Scenario.start
              eq_refl eq_refl eq_refl eq_refl eq_refl)
    as (_ & _ & _ & H).
  destruct H as [_ H]; [discriminate | discriminate |].
  apply (H [] "alpha" ["beta"] (Scenario.team 1 "team1") [Scenario.team 2 "team2"]).
  - reflexivity.
  - intros earlier [].
  - reflexivity.
Defined.

(** Against C4 as it is stated.  An aggregation by [user], which is no
    inner key type, over a listing in which [alpha] has no team raises
    nothing: it resolves with no entities. *)
Lemma unsupported_key_type_without_entities_raises_nothing :
  crossOrganizationCollection nat Scenario.collectionsClient
    Scenario.orgsAndTokens (VObj []) (VObj []) "user"
    (Scenario.listed [("alpha", VArr [] [])]) "getTeamMembers" "members"
    (VBool true) Scenario.start
  = (Resolved (VObj [("data", VArr [] []); ("headers", VObj [])]), Scenario.start).
Proof. reflexivity. Qed.

(** ** More on the loops of [async] *)

Section EachLimitMore.
Context {A S : Type}.
Variable iteratee : A -> S -> step * S.

(** An iteratee that never throws makes a loop that never throws. *)
Lemma eachLimit1_never_raises :
  (forall x s, exists err s', iteratee x s = (Next err, s')) ->
  forall coll s, exists err s', eachLimit1 iteratee coll s = (Next err, s').
Proof.
  intros Hi. induction coll as [|x coll IH]; intros s; simpl; [eauto|].
  destruct (Hi x s) as (err & s' & ->). destruct (truthy err); eauto.
Qed.

(** What every call of the iteratee keeps, the loop keeps. *)
Lemma eachLimit1_keeps (R : S -> S -> Prop) :
  (forall s, R s s) ->
  (forall a b c, R a b -> R b c -> R a c) ->
  (forall x s r s', iteratee x s = (r, s') -> R s s') ->
  forall coll s r s', eachLimit1 iteratee coll s = (r, s') -> R s s'.
Proof.
  intros Hrefl Htrans Hstep. induction coll as [|x coll IH]; intros s r s' H;
    simpl in H.
  - inversion H; subst. apply Hrefl.
  - destruct (iteratee x s) as [[err|e] s1] eqn:E.
    + destruct (truthy err).
      * inversion H; subst. eapply Hstep; eauto.
      * eapply Htrans; [eapply Hstep; eauto | eapply IH; eauto].
    + inversion H; subst. eapply Hstep; eauto.
Qed.

(** The error a loop ends with is one its iteratee has called [next]
    with, for one of the items. *)
Lemma eachLimit1_error_origin (coll : list A) :
  forall s s' err,
    eachLimit1 iteratee coll s = (Next err, s') ->
    truthy err = true ->
    exists x s0, In x coll /\ iteratee x s0 = (Next err, s').
Proof.
  induction coll as [|x coll IH]; intros s s' err H Ht; simpl in H.
  - inversion H; subst. discriminate.
  - destruct (iteratee x s) as [[err1|e] s1] eqn:E.
    + destruct (truthy err1) eqn:T.
      * inversion H; subst. exists x, s. split; [now left | exact E].
      * destruct (IH _ _ _ H Ht) as (y & s0 & Hy & Hi).
        exists y, s0. split; [now right | exact Hi].
    + discriminate.
Qed.

(** A loop that ends without an error has passed every item; one that
    ends with an error or an exception has stopped at an item. *)
Lemma eachLimit1_visited (coll : list A) :
  forall s r s',
    eachLimit1 iteratee coll s = (r, s') ->
    r = Next VNull
    \/ exists pre x post,
         coll = pre ++ x :: post /\ r <> Next VNull
         /\ match r with Next err => truthy err = true | Raise _ => True end.
Proof.
  induction coll as [|x coll IH]; intros s r s' H; simpl in H.
  - inversion H; now left.
  - destruct (iteratee x s) as [[err|e] s1] eqn:E.
    + destruct (truthy err) eqn:T.
      * inversion H; subst. right. exists [], x, coll.
        split; [reflexivity|]. split; [|exact T].
        intros X; inversion X; subst; discriminate.
      * destruct (IH _ _ _ H) as [->|(pre & y & post & -> & Hr)]; [now left|].
        right. exists (x :: pre), y, post. split; [reflexivity | exact Hr].
    + inversion H; subst. right. exists [], x, coll.
      split; [reflexivity|]. split; [discriminate | exact I].
Qed.

End EachLimitMore.

(** ** The fan-out as a whole *)

Lemma prop_set_new (k : string) (v : value) (ps : props) :
  ~ In k (map fst ps) -> prop_set k v ps = ps ++ [(k, v)].
Proof.
  induction ps as [|[k' v'] ps IH]; intros Hk; simpl; [reflexivity|].
  destruct (String.eqb_spec k k') as [->|Hne].
  - exfalso. apply Hk. now left.
  - rewrite IH; [reflexivity|]. intros X. apply Hk. now right.
Qed.

Section FanOutRuns.
Variable World : Type.
Variable method : clientMethod World.
Variables apiName methodName : string.
Variables options cacheOptions : value.

Let organization :=
  organizationStep World method apiName methodName options cacheOptions.

Let callFor (entry : string * value) : call :=
  Call methodName (snd entry) (VObj (localOptionsFor options (fst entry)))
       (VObj (localCacheOptionsFor cacheOptions)).

(** What one organization does: one call, and either an error with [orgs]
    as it was, or a truthy value stored under the login. *)
Lemma organizationStep_run orgName tok orgs s r orgs1 s1 :
  organization (orgName, tok) (orgs, s) = (r, (orgs1, s1)) ->
  calls s1 = calls s ++ [callFor (orgName, tok)]
  /\ ((exists err, r = Next err /\ truthy err = true /\ orgs1 = orgs)
      \/ (r = Next VUndefined
          /\ exists x, truthy x = true /\ orgs1 = prop_set orgName x orgs)).
Proof.
  intros Hstep.
  pose proof (organizationStep_calls World method apiName methodName options
                cacheOptions orgName tok orgs s) as Hcalls.
  fold organization in Hcalls. rewrite Hstep in Hcalls. simpl in Hcalls.
  split; [exact Hcalls|]. clear Hcalls.
  unfold organization, organizationStep, invoke in Hstep.
  destruct (method tok _ _ (world s)) as [[e v] w].
  destruct (truthy e) eqn:He.
  { inversion Hstep; subst. left. eauto. }
  destruct (truthy v) eqn:Hv; cbn [negb] in Hstep.
  2:{ inversion Hstep; subst. left. eauto. }
  destruct (get_truthy v "data" Hv) as [d Hd]. rewrite Hd in Hstep.
  destruct (truthy d) eqn:Ht; inversion Hstep; subst; right;
    (split; [reflexivity|]); eauto.
Qed.

Lemma organizationStep_never_raises entry acc :
  exists err acc', organization entry acc = (Next err, acc').
Proof.
  destruct entry as [orgName tok], acc as [orgs s].
  destruct (organization (orgName, tok) (orgs, s)) as [r [orgs1 s1]] eqn:E.
  destruct (organizationStep_run _ _ _ _ _ _ _ E)
    as [_ [(err & -> & _)|[-> _]]]; eauto.
Qed.

(** The loop of the fan-out: the logins it has stored, the calls it has
    made. *)
Lemma fanOut_run (entries : props) :
  List.NoDup (map fst entries) ->
  forall orgs s r orgs' s',
    (forall k, In k (map fst entries) -> ~ In k (map fst orgs)) ->
    Forall (fun kv => truthy (snd kv) = true) orgs ->
    eachLimit1 organization entries (orgs, s) = (r, (orgs', s')) ->
    Forall (fun kv => truthy (snd kv) = true) orgs'
    /\ ((r = Next VNull
         /\ map fst orgs' = map fst orgs ++ map fst entries
         /\ calls s' = calls s ++ map callFor entries)
        \/ (exists pre x post err,
              entries = pre ++ x :: post
              /\ r = Next err /\ truthy err = true
              /\ calls s' = calls s ++ map callFor (pre ++ [x]))).
Proof.
  induction entries as [|[k tok] entries IH]; intros Hnd orgs s r orgs' s' Hfresh Hall H.
  - simpl in H. inversion H; subst. split; [exact Hall|]. left.
    now rewrite !app_nil_r.
  - inversion Hnd as [|? ? Hk Hnd']; subst.
    destruct (organization (k, tok) (orgs, s)) as [r1 [orgs1 s1]] eqn:E.
    destruct (organizationStep_run _ _ _ _ _ _ _ E)
      as [Hc [(err & -> & Ht & ->)|(-> & x & Hx & ->)]].
    + rewrite (eachLimit1_error _ _ _ _ _ _ E Ht) in H. inversion H; subst.
      split; [exact Hall|]. right.
      exists [], (k, tok), entries, err. now repeat split.
    + rewrite (eachLimit1_continue _ _ _ _ _ _ E eq_refl) in H.
      assert (Hnew : ~ In k (map fst orgs)) by (apply Hfresh; now left).
      rewrite (prop_set_new k x orgs Hnew) in H.
      apply IH in H; [| exact Hnd' | |].
      * destruct H as [Hall' [(-> & Hkeys & Hcalls)|(pre & y & post & err & -> & -> & Ht & Hcalls)]].
        -- split; [exact Hall'|]. left. split; [reflexivity|]. split.
           ++ rewrite Hkeys, map_app. simpl. now rewrite <- app_assoc.
           ++ rewrite Hcalls, Hc. simpl. now rewrite <- app_assoc.
        -- split; [exact Hall'|]. right.
           exists ((k, tok) :: pre), y, post, err. repeat split; [exact Ht|].
           rewrite Hcalls, Hc. simpl. now rewrite <- app_assoc.
      * intros k' Hk' Hin. rewrite map_app, in_app_iff in Hin. simpl in Hin.
        destruct Hin as [Hin|[<-|[]]]; [|contradiction].
        apply (Hfresh k'); [now right | exact Hin].
      * apply Forall_app. split; [exact Hall|]. now repeat constructor.
Qed.

End FanOutRuns.

(** X1.  The promise of the fan-out always settles: whatever the token
    set, the options and the answers of the client, it is resolved with
    an object [{data: {orgs}, headers: {}}] or rejected with a truthy
    error; no exception escapes from its iteratee. *)
Theorem fan_out_always_settles
    (World : Type) (method : clientMethod World) (apiName methodName : string)
    (options cacheOptions : value) (orgsAndTokens : props) (s : state World) :
  exists s',
    (exists orgs,
       actualCrossOrgMethod World orgsAndTokens method apiName methodName
                            options cacheOptions s
       = (Resolved (VObj [("data", VObj [("orgs", VObj orgs)]);
                          ("headers", VObj [])]), s'))
    \/ (exists e,
          truthy e = true
          /\ actualCrossOrgMethod World orgsAndTokens method apiName methodName
                                  options cacheOptions s
             = (Rejected e, s')).
Proof.
  unfold actualCrossOrgMethod.
  destruct (eachLimit1_never_raises
              (organizationStep World method apiName methodName options cacheOptions)
              (organizationStep_never_raises World method apiName methodName
                 options cacheOptions)
              (prop_entries orgsAndTokens) ([], s)) as (err & [orgs s'] & ->).
  exists s'. simpl. destruct (truthy err) eqn:E; [right | left]; eauto.
Qed.

(** X2.  A fan-out that resolves has asked every organization of the
    token set, once each and in property order, with the token registered
    for it; the [orgs] it resolves with has exactly the logins of the
    token set, in that order, and holds a truthy value under each. *)
Theorem fan_out_resolved_after_every_organization
    (World : Type) (method : clientMethod World) (apiName methodName : string)
    (options cacheOptions : value) (orgsAndTokens : props)
    (s s' : state World) (v : value) :
  actualCrossOrgMethod World orgsAndTokens method apiName methodName
                       options cacheOptions s
  = (Resolved v, s') ->
  exists orgs : props,
    v = VObj [("data", VObj [("orgs", VObj orgs)]); ("headers", VObj [])]
    /\ map fst orgs = own_keys orgsAndTokens
    /\ Forall (fun kv => truthy (snd kv) = true) orgs
    /\ calls s'
       = calls s
         ++ map (fun entry =>
                   Call methodName (snd entry)
                        (VObj (localOptionsFor options (fst entry)))
                        (VObj (localCacheOptionsFor cacheOptions)))
                (prop_entries orgsAndTokens).
Proof.
  unfold actualCrossOrgMethod. intros H.
  destruct (eachLimit1 _ (prop_entries orgsAndTokens) ([], s))
    as [r [orgs s1]] eqn:E.
  assert (Hnd : List.NoDup (map fst (prop_entries orgsAndTokens)))
    by (rewrite prop_entries_keys; apply own_keys_NoDup).
  destruct (fanOut_run World method apiName methodName options cacheOptions
              (prop_entries orgsAndTokens) Hnd [] s r orgs s1
              (fun _ _ X => X) ltac:(constructor) E)
    as [Hall [(-> & Hkeys & Hcalls)|(pre & x & post & err & _ & -> & Ht & _)]].
  - simpl in H. inversion H; subst. exists orgs.
    split; [reflexivity|]. split; [now rewrite Hkeys, prop_entries_keys|].
    split; [exact Hall | exact Hcalls].
  - simpl in H. rewrite Ht in H. discriminate.
Qed.

(** The teams of [alpha] and [beta] are listed with two calls. *)
Lemma fan_out_resolved_after_every_organization_witness :
  exists orgs : props,
    map fst orgs = ["alpha"; "beta"]
    /\ calls (snd (actualCrossOrgMethod nat Scenario.orgsAndTokens
                     Scenario.getOrgTeams "teams" "getOrgTeams" (VObj [])
                     (VObj []) Scenario.start))
       = [Call "getOrgTeams" (VStr "token-a")
               (VObj [("org", VStr "alpha"); ("per_page", VNum 100)]) (VObj []);
          Call "getOrgTeams" (VStr "token-b")
               (VObj [("org", VStr "beta"); ("per_page", VNum 100)]) (VObj [])].
Proof.
  destruct (fan_out_resolved_after_every_organization nat Scenario.getOrgTeams
              "teams" "getOrgTeams" (VObj []) (VObj []) Scenario.orgsAndTokens
              Scenario.start
              (snd (actualCrossOrgMethod nat Scenario.orgsAndTokens
                      Scenario.getOrgTeams "teams" "getOrgTeams" (VObj [])
                      (VObj []) Scenario.start))
              Scenario.teamsListing eq_refl)
    as (orgs & _ & Hkeys & _ & Hcalls).
  exists orgs. split; [exact Hkeys | exact Hcalls].
Defined.

(** X3.  A fan-out that is rejected has stopped at an organization: it
    has asked the organizations up to that one, once each and in order,
    and none of those after it. *)
Theorem fan_out_rejected_at_an_organization
    (World : Type) (method : clientMethod World) (apiName methodName : string)
    (options cacheOptions : value) (orgsAndTokens : props)
    (s s' : state World) (e : value) :
  actualCrossOrgMethod World orgsAndTokens method apiName methodName
                       options cacheOptions s
  = (Rejected e, s') ->
  truthy e = true
  /\ exists (pre : props) (failed : string * value) (post : props),
       prop_entries orgsAndTokens = pre ++ failed :: post
       /\ calls s'
          = calls s
            ++ map (fun entry =>
                      Call methodName (snd entry)
                           (VObj (localOptionsFor options (fst entry)))
                           (VObj (localCacheOptionsFor cacheOptions)))
                   (pre ++ [failed]).
Proof.
  unfold actualCrossOrgMethod. intros H.
  destruct (eachLimit1 _ (prop_entries orgsAndTokens) ([], s))
    as [r [orgs s1]] eqn:E.
  assert (Hnd : List.NoDup (map fst (prop_entries orgsAndTokens)))
    by (rewrite prop_entries_keys; apply own_keys_NoDup).
  destruct (fanOut_run World method apiName methodName options cacheOptions
              (prop_entries orgsAndTokens) Hnd [] s r orgs s1
              (fun _ _ X => X) ltac:(constructor) E)
    as [_ [(-> & _)|(pre & x & post & err & Hsplit & -> & Ht & Hcalls)]].
  - simpl in H. discriminate.
  - simpl in H. rewrite Ht in H. inversion H; subst.
    split; [exact Ht|]. exists pre, x, post. split; [exact Hsplit | exact Hcalls].
Qed.

(** With [alpha] down, [beta] is not asked. *)
Lemma fan_out_rejected_at_an_organization_witness :
  exists (pre : props) (failed : string * value) (post : props),
    prop_entries Scenario.orgsAndTokens = pre ++ failed :: post
    /\ calls (snd (actualCrossOrgMethod nat Scenario.orgsAndTokens
                     (Scenario.listing (VError "Bad credentials", VUndefined)
                                       (VNull, Scenario.betaTeams))
                     "teams" "getOrgTeams" (VObj []) (VObj []) Scenario.start))
       = calls Scenario.start
         ++ map (fun entry =>
                   Call "getOrgTeams" (snd entry)
                        (VObj (localOptionsFor (VObj []) (fst entry)))
                        (VObj (localCacheOptionsFor (VObj []))))
                (pre ++ [failed]).
Proof.
  exact (proj2 (fan_out_rejected_at_an_organization nat
                  (Scenario.listing (VError "Bad credentials", VUndefined)
                                    (VNull, Scenario.betaTeams))
                  "teams" "getOrgTeams" (VObj []) (VObj []) Scenario.orgsAndTokens
                  Scenario.start
                  (snd (actualCrossOrgMethod nat Scenario.orgsAndTokens
                          (Scenario.listing (VError "Bad credentials", VUndefined)
                                            (VNull, Scenario.betaTeams))
                          "teams" "getOrgTeams" (VObj []) (VObj []) Scenario.start))
                  (VError "Bad credentials") eq_refl)).
Defined.

(** ** More on the context of a call *)

(** X4.  A function given in the place of the cache options, with no
    callback after it, is the callback: the call is executed with the
    cache policy [{}], so with a [maxAgeSeconds] of 600, the
    [backgroundRefresh] the context is constructed with and the token
    given, and what the engine settles with goes to that function. *)
Theorem callback_in_place_of_cache_options
    (World : Type) (execute : CompositeApiContext World -> thunk World)
    (constructedBackgroundRefresh tok : value) (apiName : string)
    (method : thunk World) (options : value) (name : string)
    (s : state World) :
  exists apiContext,
    generalizedCollectionMethod World execute constructedBackgroundRefresh
      tok apiName method options (VFun name) VUndefined s
    = (thenCallback (VFun name) (fst (execute apiContext s)),
       snd (execute apiContext s))
    /\ maxAgeSeconds apiContext = VNum 600
    /\ backgroundRefresh apiContext = constructedBackgroundRefresh
    /\ token apiContext = tok
    /\ (forall ok s',
          execute apiContext s = (Resolved ok, s') ->
          generalizedCollectionMethod World execute constructedBackgroundRefresh
            tok apiName method options (VFun name) VUndefined s
          = (Called VNull ok, s'))
    /\ (forall e s',
          execute apiContext s = (Rejected e, s') ->
          generalizedCollectionMethod World execute constructedBackgroundRefresh
            tok apiName method options (VFun name) VUndefined s
          = (Called e VUndefined, s')).
Proof.
  exists (overrideToken tok
            (setMaxAgeSeconds (VNum 600)
               (newCompositeApiContext World constructedBackgroundRefresh
                                       apiName method options))).
  unfold generalizedCollectionMethod. cbn [is_function].
  unfold apiContextFor. cbn [get bind prop_get prop_lookup truthy].
  split; [destruct (execute _ s); reflexivity|].
  split; [reflexivity|]. split; [reflexivity|]. split; [reflexivity|].
  split; intros x s' E; now rewrite E.
Qed.

(** X5.  Cache options that are [undefined] or [null] make
    [generalizedCollectionMethod] throw a TypeError when it reads the
    [maxAgeSeconds] from them: nothing is executed, the callback is not
    called, and the state is as it was. *)
Theorem missing_cache_options_throw
    (World : Type) (execute : CompositeApiContext World -> thunk World)
    (constructedBackgroundRefresh tok : value) (apiName : string)
    (method : thunk World) (options callback : value) (s : state World) :
  generalizedCollectionMethod World execute constructedBackgroundRefresh
    tok apiName method options VUndefined callback s
  = (Thrown VTypeError, s)
  /\ generalizedCollectionMethod World execute constructedBackgroundRefresh
       tok apiName method options VNull callback s
     = (Thrown VTypeError, s).
Proof.
  unfold generalizedCollectionMethod. split; now destruct callback.
Qed.

(** ** More on the nested aggregation *)

Section AggregationAnswers.
Variable World : Type.
Variable collectionsClient : string -> option (clientMethod World).
Variable orgsAndTokens : props.
Variables options cacheOptions : value.
Variable innerKeyType : string.
Variable outerFunction :
  props -> value -> value -> value -> state World -> reported * state World.
Variables collectionMethodName collectionKey : string.
Variable optionalSetOrganizationLogin : value.

(** X6.  An error of the outer listing is the error of the aggregation:
    when the outer function calls back with an error, the aggregation is
    rejected with that error, whatever comes with it, and makes no call
    of its own. *)
Theorem outer_error_rejects_the_aggregation
    (outerError data : value) (s s1 : state World) :
  outerFunction orgsAndTokens (VObj []) cacheOptions (VFun "outerCallback") s
  = (Called outerError data, s1) ->
  truthy outerError = true ->
  crossOrganizationCollection World collectionsClient orgsAndTokens options
    cacheOptions innerKeyType outerFunction collectionMethodName collectionKey
    optionalSetOrganizationLogin s
  = (Rejected outerError, s1).
Proof.
  intros Hout Ht. unfold crossOrganizationCollection. rewrite Hout.
  unfold outerCallback. rewrite Ht. cbn [negb andb bind]. now rewrite Ht.
Qed.

(** X7.  A listing that arrives without an error but without a truthy
    [data] in it is an error of the aggregation: it is rejected with the
    error that no [entity.data] was present, and makes no call. *)
Theorem listing_without_data_rejects_the_aggregation
    (outerError data inner : value) (s s1 : state World) :
  outerFunction orgsAndTokens (VObj []) cacheOptions (VFun "outerCallback") s
  = (Called outerError data, s1) ->
  truthy outerError = false ->
  truthy data = true ->
  get data "data" = Ok inner ->
  truthy inner = false ->
  crossOrganizationCollection World collectionsClient orgsAndTokens options
    cacheOptions innerKeyType outerFunction collectionMethodName collectionKey
    optionalSetOrganizationLogin s
  = (Rejected missingData, s1).
Proof.
  intros Hout He Hd Hg Hi. unfold crossOrganizationCollection. rewrite Hout.
  unfold outerCallback. rewrite He, Hd. cbn [negb andb]. rewrite Hg, Hi.
  reflexivity.
Qed.

(** X8.  An outer function that calls back with neither an error nor a
    listing (both falsy) leaves the aggregation pending: the list of the
    organizations is read from [null], the TypeError escapes from the
    callback, and the promise is neither resolved nor rejected. *)
Theorem empty_answer_leaves_the_aggregation_pending
    (outerError data : value) (s s1 : state World) :
  outerFunction orgsAndTokens (VObj []) cacheOptions (VFun "outerCallback") s
  = (Called outerError data, s1) ->
  truthy outerError = false ->
  truthy data = false ->
  crossOrganizationCollection World collectionsClient orgsAndTokens options
    cacheOptions innerKeyType outerFunction collectionMethodName collectionKey
    optionalSetOrganizationLogin s
  = (Pending (Some VTypeError), s1).
Proof.
  intros Hout He Hd. unfold crossOrganizationCollection. rewrite Hout.
  unfold outerCallback. rewrite He, Hd. cbn [negb andb]. rewrite He.
  reflexivity.
Qed.

End AggregationAnswers.

(** The listing fails before any team is known. *)
Lemma outer_error_rejects_the_aggregation_witness :
  crossOrganizationCollection nat Scenario.collectionsClient
    Scenario.orgsAndTokens (VObj []) (VObj []) "team"
    (fun _ _ _ _ s => (Called (VError "Service Unavailable") VUndefined, s))
    "getTeamMembers" "members" (VBool true) Scenario.start
  = (Rejected (VError "Service Unavailable"), Scenario.start).
Proof.
  apply (outer_error_rejects_the_aggregation nat Scenario.collectionsClient
           Scenario.orgsAndTokens (VObj []) (VObj []) "team"
           (fun _ _ _ _ s => (Called (VError "Service Unavailable") VUndefined, s))
           "getTeamMembers" "members" (VBool true)
           (VError "Service Unavailable") VUndefined Scenario.start Scenario.start);
    reflexivity.
Defined.

(** The listing arrives as the bare map of the organizations. *)
Lemma listing_without_data_rejects_the_aggregation_witness :
  crossOrganizationCollection nat Scenario.collectionsClient
    Scenario.orgsAndTokens (VObj []) (VObj []) "team"
    (fun _ _ _ _ s => (Called VNull (VObj [("orgs", VObj Scenario.teamsByOrg)]), s))
    "getTeamMembers" "members" (VBool true) Scenario.start
  = (Rejected missingData, Scenario.start).
Proof.
  apply (listing_without_data_rejects_the_aggregation nat
           Scenario.collectionsClient Scenario.orgsAndTokens (VObj []) (VObj [])
           "team"
           (fun _ _ _ _ s =>
              (Called VNull (VObj [("orgs", VObj Scenario.teamsByOrg)]), s))
           "getTeamMembers" "members" (VBool true)
           VNull (VObj [("orgs", VObj Scenario.teamsByOrg)]) VUndefined
           Scenario.start Scenario.start);
    reflexivity.
Defined.

(** The outer function calls back with nothing. *)
Lemma empty_answer_leaves_the_aggregation_pending_witness :
  crossOrganizationCollection nat Scenario.collectionsClient
    Scenario.orgsAndTokens (VObj []) (VObj []) "team"
    (fun _ _ _ _ s => (Called VNull VUndefined, s))
    "getTeamMembers" "members" (VBool true) Scenario.start
  = (Pending (Some VTypeError), Scenario.start).
Proof.
  apply (empty_answer_leaves_the_aggregation_pending nat
           Scenario.collectionsClient Scenario.orgsAndTokens (VObj []) (VObj [])
           "team" (fun _ _ _ _ s => (Called VNull VUndefined, s))
           "getTeamMembers" "members" (VBool true)
           VNull VUndefined Scenario.start Scenario.start);
    reflexivity.
Defined.

Section AggregationInvariants.
Variable World : Type.
Variable collectionsClient : string -> option (clientMethod World).
Variable orgsAndTokens : props.
Variables options cacheOptions : value.
Variable innerKeyType : string.
Variable outerFunction :
  props -> value -> value -> value -> state World -> reported * state World.
Variables collectionMethodName collectionKey : string.
Variable optionalSetOrganizationLogin : value.

Let entity :=
  entityStep World collectionsClient orgsAndTokens options innerKeyType
             collectionMethodName collectionKey optionalSetOrganizationLogin.

Let organizationEntities :=
  organizationEntitiesStep World collectionsClient orgsAndTokens options
    innerKeyType collectionMethodName collectionKey optionalSetOrganizationLogin.

(** The options of an inner call have no cache policy in them. *)
Lemma innerOptionsFor_stripped orgName orgEntity localOptions :
  innerOptionsFor options innerKeyType orgName orgEntity = Ok localOptions ->
  prop_lookup "maxAgeSeconds" localOptions = None
  /\ prop_lookup "backgroundRefresh" localOptions = None.
Proof.
  unfold innerOptionsFor.
  destruct (localOptionsTargetFor innerKeyType orgName orgEntity) as [t|x];
    simpl; intros H; inversion H; subst. split.
  - rewrite prop_lookup_delete_ne by discriminate. apply prop_lookup_delete_eq.
  - apply prop_lookup_delete_eq.
Qed.

(** What the iteratee of the entities does, case by case. *)
Lemma entityStep_cases localCacheOptions orgName orgEntity entities s r entities' s' :
  entity localCacheOptions orgName orgEntity (entities, s) = (r, (entities', s')) ->
  (exists e, r = Raise e /\ entities' = entities /\ s' = s)
  \/ (r = Next (missingToken orgName) /\ entities' = entities /\ s' = s
      /\ truthy (tokenFor orgsAndTokens orgName) = false)
  \/ (r = Next VUndefined
      /\ truthy (tokenFor orgsAndTokens orgName) = true
      /\ exists localOptions w,
           innerOptionsFor options innerKeyType orgName orgEntity = Ok localOptions
           /\ s' = afterInnerCall collectionMethodName
                     (tokenFor orgsAndTokens orgName) localOptions
                     localCacheOptions w s
           /\ (entities' = entities
               \/ exists innerEntities,
                    entities'
                    = entities ++
                      [VObj (prop_set collectionKey innerEntities
                               (entityCloneOf optionalSetOrganizationLogin
                                              orgName orgEntity))])).
Proof.
  unfold entity, entityStep.
  destruct (innerOptionsFor options innerKeyType orgName orgEntity) as [lo|x] eqn:Ho.
  2:{ intros H; inversion H; subst. left. eauto. }
  destruct (truthy (tokenFor orgsAndTokens orgName)) eqn:Ht; cbn [negb].
  2:{ intros H; inversion H; subst. right. left. auto. }
  destruct (collectionsClient collectionMethodName) as [method|].
  2:{ intros H; inversion H; subst. left. eauto. }
  unfold invoke.
  destruct (method (tokenFor orgsAndTokens orgName) (VObj lo)
                   (VObj localCacheOptions) (world s)) as [[err res] w].
  destruct (innerError_Ok collectionMethodName err res) as [error ->].
  destruct (truthy error); intros H; inversion H; subst; right; right;
    (split; [reflexivity|]); (split; [reflexivity|]); exists lo, w;
    (split; [reflexivity|]); (split; [reflexivity|]); eauto.
Qed.

(** The only error the iteratee of the entities calls [next] with is the
    missing token of its organization, and it does so when the token set
    answers nothing truthy for the organization. *)
Lemma entityStep_error localCacheOptions orgName orgEntity acc err acc' :
  entity localCacheOptions orgName orgEntity acc = (Next err, acc') ->
  truthy err = true ->
  err = missingToken orgName
  /\ truthy (tokenFor orgsAndTokens orgName) = false
  /\ acc' = acc.
Proof.
  destruct acc as [entities s], acc' as [entities' s']. intros H Ht.
  destruct (entityStep_cases _ _ _ _ _ _ _ _ H)
    as [(e & X & _)|[(X & -> & -> & Hf)|(X & _)]]; inversion X; subst;
    [auto | discriminate].
Qed.

Lemma organizationEntitiesStep_error localCacheOptions orgs orgName acc err acc' :
  organizationEntities localCacheOptions orgs orgName acc = (Next err, acc') ->
  truthy err = true ->
  err = missingToken orgName
  /\ truthy (tokenFor orgsAndTokens orgName) = false
  /\ exists orgEntities orgEntity,
       get orgs orgName = Ok orgEntities /\ In orgEntity (items orgEntities).
Proof.
  unfold organizationEntities, organizationEntitiesStep.
  destruct (get orgs orgName) as [orgEntities|x]; [|discriminate].
  intros H Ht.
  destruct (eachLimit1_error_origin _ _ _ _ _ H Ht) as (e & acc0 & Hin & Hstep).
  destruct (entityStep_error _ _ _ _ _ _ Hstep Ht) as (He & Hf & _).
  split; [exact He|]. split; [exact Hf|]. eauto.
Qed.

(** What a run of the loops adds: entities that have the inner collection
    (and an organization, where the login is to be set), and calls of the
    inner method, with a token of the token set, the cache options of the
    aggregation and options without a cache policy; no entity is added
    without a call. *)
Let added (localCacheOptions : props) (a b : list value * state World) : Prop :=
  exists (newEntities : list value) (newCalls : list call),
    fst b = fst a ++ newEntities
    /\ calls (snd b) = calls (snd a) ++ newCalls
    /\ warnings (snd b) = warnings (snd a)
    /\ List.length newEntities <= List.length newCalls
    /\ Forall (fun entity =>
                 exists ps, entity = VObj ps
                   /\ prop_lookup collectionKey ps <> None
                   /\ (truthy optionalSetOrganizationLogin = true ->
                       prop_lookup "organization" ps <> None))
              newEntities
    /\ Forall (fun c =>
                 callMethod c = collectionMethodName
                 /\ truthy (callToken c) = true
                 /\ (exists orgName, callToken c = tokenFor orgsAndTokens orgName)
                 /\ callCacheOptions c = VObj localCacheOptions
                 /\ exists lo, callOptions c = VObj lo
                      /\ prop_lookup "maxAgeSeconds" lo = None
                      /\ prop_lookup "backgroundRefresh" lo = None)
              newCalls.

Lemma added_refl localCacheOptions a : added localCacheOptions a a.
Proof.
  exists [], []. rewrite !app_nil_r. repeat split; auto.
Qed.

Lemma added_trans localCacheOptions a b c :
  added localCacheOptions a b -> added localCacheOptions b c ->
  added localCacheOptions a c.
Proof.
  intros (e1 & c1 & He1 & Hc1 & Hw1 & Hl1 & Pe1 & Pc1)
         (e2 & c2 & He2 & Hc2 & Hw2 & Hl2 & Pe2 & Pc2).
  exists (e1 ++ e2), (c1 ++ c2).
  rewrite He2, He1, Hc2, Hc1, Hw2, Hw1, !app_assoc, !length_app.
  repeat split; try lia; apply Forall_app; auto.
Qed.

Lemma entityClone_organization orgName orgEntity :
  truthy optionalSetOrganizationLogin = true ->
  prop_lookup "organization"
    (entityCloneOf optionalSetOrganizationLogin orgName orgEntity) <> None.
Proof.
  intros Ht. unfold entityCloneOf, assign. rewrite Ht.
  generalize (enumerable_own orgEntity) as l.
  assert (G : forall l (t : props),
            prop_lookup "organization" t <> None ->
            prop_lookup "organization"
              (fold_left (fun t kv => prop_set (fst kv) (snd kv) t) l t) <> None).
  { induction l as [|[k v] l IH]; intros t Hn; simpl; [exact Hn|].
    apply IH. destruct (String.eqb_spec "organization" k) as [<-|Hne].
    - now rewrite prop_lookup_set_eq.
    - now rewrite prop_lookup_set_ne. }
  intros l. apply G. discriminate.
Qed.

Lemma entityStep_added localCacheOptions orgName orgEntity acc r acc' :
  entity localCacheOptions orgName orgEntity acc = (r, acc') ->
  added localCacheOptions acc acc'.
Proof.
  destruct acc as [entities s], acc' as [entities' s']. intros H.
  destruct (entityStep_cases _ _ _ _ _ _ _ _ H)
    as [(e & _ & -> & ->)|[(_ & -> & -> & _)|(_ & Ht & lo & w & Ho & -> & Hent)]];
    try apply added_refl.
  destruct (innerOptionsFor_stripped _ _ _ Ho) as [Hm Hb].
  assert (Pc : Forall (fun c =>
                 callMethod c = collectionMethodName
                 /\ truthy (callToken c) = true
                 /\ (exists orgName, callToken c = tokenFor orgsAndTokens orgName)
                 /\ callCacheOptions c = VObj localCacheOptions
                 /\ exists lo, callOptions c = VObj lo
                      /\ prop_lookup "maxAgeSeconds" lo = None
                      /\ prop_lookup "backgroundRefresh" lo = None)
              [Call collectionMethodName (tokenFor orgsAndTokens orgName)
                    (VObj lo) (VObj localCacheOptions)]).
  { repeat constructor; simpl; eauto. }
  destruct Hent as [->|(res & ->)].
  - exists [], [Call collectionMethodName (tokenFor orgsAndTokens orgName)
                     (VObj lo) (VObj localCacheOptions)].
    simpl. rewrite app_nil_r. repeat split; auto.
  - eexists [_], [Call collectionMethodName (tokenFor orgsAndTokens orgName)
                       (VObj lo) (VObj localCacheOptions)].
    simpl. repeat split; auto. repeat constructor. eexists. split; [reflexivity|].
    split.
    + now rewrite prop_lookup_set_eq.
    + intros Hf. destruct (String.eqb_spec "organization" collectionKey) as [<-|Hne].
      * now rewrite prop_lookup_set_eq.
      * rewrite prop_lookup_set_ne by exact Hne.
        now apply entityClone_organization.
Qed.

Lemma organizationEntitiesStep_added localCacheOptions orgs orgName acc r acc' :
  organizationEntities localCacheOptions orgs orgName acc = (r, acc') ->
  added localCacheOptions acc acc'.
Proof.
  unfold organizationEntities, organizationEntitiesStep.
  destruct (get orgs orgName) as [orgEntities|x].
  - apply (eachLimit1_keeps _ (added localCacheOptions)
             (added_refl _) (added_trans _)).
    intros e a r0 a'. apply entityStep_added.
  - intros H; inversion H; subst. apply added_refl.
Qed.

Lemma organizations_added localCacheOptions orgs names acc r acc' :
  eachLimit1 (organizationEntities localCacheOptions orgs) names acc = (r, acc') ->
  added localCacheOptions acc acc'.
Proof.
  apply (eachLimit1_keeps _ (added localCacheOptions)
           (added_refl _) (added_trans _)).
  intros n a r0 a'. apply organizationEntitiesStep_added.
Qed.

End AggregationInvariants.

Section AggregationOutcomes.
Variable World : Type.
Variable collectionsClient : string -> option (clientMethod World).
Variable orgsAndTokens : props.
Variables options cacheOptions : value.
Variable innerKeyType : string.
Variable outerFunction :
  props -> value -> value -> value -> state World -> reported * state World.
Variables collectionMethodName collectionKey : string.
Variable optionalSetOrganizationLogin : value.

(** The callback of the outer function either ends at once, and then not
    by resolving, or runs the loops over the organizations of a listing
    that has arrived. *)
Lemma outerCallback_shape (outerError data : value) (s : state World) :
  (exists p,
     outerCallback World collectionsClient orgsAndTokens options cacheOptions
       innerKeyType collectionMethodName collectionKey
       optionalSetOrganizationLogin outerError data s = (p, s)
     /\ (forall v, p <> Resolved v)
     /\ (forall e, p = Rejected e ->
           (truthy outerError = true /\ e = outerError)
           \/ (truthy outerError = false /\ truthy data = true
               /\ (exists inner, get data "data" = Ok inner /\ truthy inner = false)
               /\ e = missingData)))
  \/ (exists inner orgs names,
        truthy outerError = false /\ truthy data = true
        /\ get data "data" = Ok inner /\ truthy inner = true
        /\ get inner "orgs" = Ok orgs
        /\ getOwnPropertyNames orgs = Ok names
        /\ outerCallback World collectionsClient orgsAndTokens options cacheOptions
             innerKeyType collectionMethodName collectionKey
             optionalSetOrganizationLogin outerError data s
           = aggregationDone [("headers", VObj [])]
               (eachLimit1
                  (organizationEntitiesStep World collectionsClient orgsAndTokens
                     options innerKeyType collectionMethodName collectionKey
                     optionalSetOrganizationLogin
                     (localCacheOptionsFor cacheOptions) orgs)
                  names ([], s))).
Proof.
  unfold outerCallback.
  destruct (truthy outerError) eqn:He; cbn [negb andb].
  { rewrite He. left. eexists. split; [reflexivity|].
    split; [discriminate|]. intros e X. inversion X. now left. }
  destruct (truthy data) eqn:Hd; cbn [negb andb].
  2:{ rewrite He. left. eexists. split; [reflexivity|].
      split; discriminate. }
  destruct (get_truthy data "data" Hd) as [inner Hin]. rewrite Hin.
  destruct (truthy inner) eqn:Hi; cbn [negb andb].
  2:{ left. eexists. split; [reflexivity|].
      split; [discriminate|]. intros e X. inversion X. right. eauto 10. }
  rewrite He.
  destruct (get inner "orgs") as [orgs|x] eqn:Ho; cbn [bind].
  2:{ left. eexists. split; [reflexivity|]. split; discriminate. }
  destruct (getOwnPropertyNames orgs) as [names|x] eqn:Hn; cbn [bind].
  2:{ left. eexists. split; [reflexivity|]. split; discriminate. }
  right. exists inner, orgs, names. auto 10.
Qed.

(** X9.  An aggregation is rejected for one of three reasons only: the
    outer listing has called back with an error, which is the error of
    the aggregation; the listing has come without an error but without
    [data] in it; or the listing has arrived, one of its organizations
    has an entity, and the token set answers nothing truthy for that
    organization, which the error names.  The error of an inner call is
    never what the aggregation is rejected with. *)
Theorem aggregation_is_rejected_for_three_reasons
    (s s' : state World) (e : value) :
  crossOrganizationCollection World collectionsClient orgsAndTokens options
    cacheOptions innerKeyType outerFunction collectionMethodName collectionKey
    optionalSetOrganizationLogin s
  = (Rejected e, s') ->
  (exists data,
     outerFunction orgsAndTokens (VObj []) cacheOptions (VFun "outerCallback") s
     = (Called e data, s')
     /\ truthy e = true)
  \/ (exists outerError data inner,
        outerFunction orgsAndTokens (VObj []) cacheOptions (VFun "outerCallback") s
        = (Called outerError data, s')
        /\ truthy outerError = false
        /\ truthy data = true
        /\ get data "data" = Ok inner
        /\ truthy inner = false
        /\ e = missingData)
  \/ (exists outerError data s1 inner orgs names orgName orgEntities orgEntity,
        outerFunction orgsAndTokens (VObj []) cacheOptions (VFun "outerCallback") s
        = (Called outerError data, s1)
        /\ truthy outerError = false
        /\ get data "data" = Ok inner
        /\ truthy inner = true
        /\ get inner "orgs" = Ok orgs
        /\ getOwnPropertyNames orgs = Ok names
        /\ In orgName names
        /\ get orgs orgName = Ok orgEntities
        /\ In orgEntity (items orgEntities)
        /\ truthy (tokenFor orgsAndTokens orgName) = false
        /\ e = missingToken orgName).
Proof.
  unfold crossOrganizationCollection.
  destruct (outerFunction orgsAndTokens (VObj []) cacheOptions
              (VFun "outerCallback") s) as [[outerError data|x|x|] s1] eqn:Hout;
    try discriminate.
  intros H.
  destruct (outerCallback_shape outerError data s1)
    as [(p & Hp & _ & Hrej)
       |(inner & orgs & names & He & Hd & Hin & Hi & Ho & Hn & Hrun)].
  - rewrite Hp in H. inversion H; subst.
    destruct (Hrej e eq_refl) as [[Ht ->] | (He & Hd & (inner & Hin & Hi) & ->)].
    + left. eauto.
    + right. left. exists outerError, data, inner. auto 10.
  - rewrite Hrun in H.
    destruct (eachLimit1 _ names ([], s1)) as [[err|x] [entities s2]] eqn:E;
      simpl in H; [|discriminate].
    destruct (truthy err) eqn:Ht; inversion H; subst.
    destruct (eachLimit1_error_origin _ _ _ _ _ E Ht) as (n & acc & Hnin & Hstep).
    destruct (organizationEntitiesStep_error World collectionsClient orgsAndTokens
                options innerKeyType collectionMethodName collectionKey
                optionalSetOrganizationLogin _ _ _ _ _ _ Hstep Ht)
      as (Herr & Hf & orgEntities & orgEntity & Hget & Hent).
    right. right.
    exists outerError, data, s1, inner, orgs, names, n, orgEntities, orgEntity.
    auto 15.
Qed.

(** X10.  Every entity of an aggregation that resolves has the inner
    collection: the aggregation resolves with [{data, headers: {}}], and
    each element of [data] is an object with a property [collectionKey];
    where the organization login is to be set, each has an
    [organization] too. *)
Theorem aggregated_entities_have_the_collection
    (s s' : state World) (v : value) :
  crossOrganizationCollection World collectionsClient orgsAndTokens options
    cacheOptions innerKeyType outerFunction collectionMethodName collectionKey
    optionalSetOrganizationLogin s
  = (Resolved v, s') ->
  exists out : list value,
    v = VObj [("data", VArr out []); ("headers", VObj [])]
    /\ Forall (fun entity =>
                 exists ps, entity = VObj ps
                   /\ prop_lookup collectionKey ps <> None
                   /\ (truthy optionalSetOrganizationLogin = true ->
                       prop_lookup "organization" ps <> None))
              out.
Proof.
  unfold crossOrganizationCollection.
  destruct (outerFunction orgsAndTokens (VObj []) cacheOptions
              (VFun "outerCallback") s) as [[outerError data|x|x|] s1] eqn:Hout;
    try discriminate.
  intros H.
  destruct (outerCallback_shape outerError data s1)
    as [(p & Hp & Hres & _)
       |(inner & orgs & names & _ & _ & _ & _ & _ & _ & Hrun)].
  - rewrite Hp in H. inversion H; subst. now destruct (Hres v).
  - rewrite Hrun in H.
    destruct (eachLimit1 _ names ([], s1)) as [[err|x] [entities s2]] eqn:E;
      simpl in H; [|discriminate].
    destruct (truthy err); inversion H; subst.
    apply organizations_added in E.
    destruct E as (newEntities & newCalls & He & _ & _ & _ & Pe & _).
    simpl in He. subst entities. exists newEntities. split; [reflexivity | exact Pe].
Qed.


End AggregationOutcomes.

(** The token set has [Contoso], the listing has [contoso]. *)
Lemma aggregation_is_rejected_for_three_reasons_witness :
  (exists data,
     Scenario.listed [("contoso", Scenario.alphaTeams)]
       [("Contoso", VStr "token-c")] (VObj []) (VObj []) (VFun "outerCallback")
       Scenario.start
     = (Called (missingToken "contoso") data, Scenario.start)
     /\ truthy (missingToken "contoso") = true)
  \/ (exists outerError data inner,
        Scenario.listed [("contoso", Scenario.alphaTeams)]
          [("Contoso", VStr "token-c")] (VObj []) (VObj []) (VFun "outerCallback")
          Scenario.start
        = (Called outerError data, Scenario.start)
        /\ truthy outerError = false
        /\ truthy data = true
        /\ get data "data" = Ok inner
        /\ truthy inner = false
        /\ missingToken "contoso" = missingData)
  \/ (exists outerError data s1 inner orgs names orgName orgEntities orgEntity,
        Scenario.listed [("contoso", Scenario.alphaTeams)]
          [("Contoso", VStr "token-c")] (VObj []) (VObj []) (VFun "outerCallback")
          Scenario.start
        = (Called outerError data, s1)
        /\ truthy outerError = false
        /\ get data "data" = Ok inner
        /\ truthy inner = true
        /\ get inner "orgs" = Ok orgs
        /\ getOwnPropertyNames orgs = Ok names
        /\ In orgName names
        /\ get orgs orgName = Ok orgEntities
        /\ In orgEntity (items orgEntities)
        /\ truthy (tokenFor [("Contoso", VStr "token-c")] orgName) = false
        /\ missingToken "contoso" = missingToken orgName).
Proof.
  exact (aggregation_is_rejected_for_three_reasons nat Scenario.collectionsClient
           [("Contoso", VStr "token-c")] (VObj []) (VObj []) "team"
           (Scenario.listed [("contoso", Scenario.alphaTeams)])
           "getTeamMembers" "members" (VBool true)
           Scenario.start Scenario.start (missingToken "contoso") eq_refl).
Defined.

(** The three teams put out for [alpha] and [beta] have their members. *)
Lemma aggregated_entities_have_the_collection_witness :
  exists out : list value,
    VObj [("data",
           VArr [Scenario.teamWithMembers "alpha" 1 "team1";
                 Scenario.teamWithMembers "alpha" 2 "team2";
                 Scenario.teamWithMembers "beta" 3 "team1"] []);
          ("headers", VObj [])]
    = VObj [("data", VArr out []); ("headers", VObj [])]
    /\ Forall (fun entity =>
                 exists ps, entity = VObj ps
                   /\ prop_lookup "members" ps <> None
                   /\ (truthy (VBool true) = true ->
                       prop_lookup "organization" ps <> None))
              out.
Proof.
  exact (aggregated_entities_have_the_collection nat Scenario.collectionsClient
           Scenario.orgsAndTokens (VObj []) (VObj []) "team" Scenario.allTeams
           "getTeamMembers" "members" (VBool true) Scenario.start
           (snd (crossOrganizationCollection nat Scenario.collectionsClient
                   Scenario.orgsAndTokens (VObj []) (VObj []) "team"
                   Scenario.allTeams "getTeamMembers" "members" (VBool true)
                   Scenario.start))
           (VObj [("data",
                   VArr [Scenario.teamWithMembers "alpha" 1 "team1";
                         Scenario.teamWithMembers "alpha" 2 "team2";
                         Scenario.teamWithMembers "beta" 3 "team1"] []);
                  ("headers", VObj [])])
           eq_refl).
Defined.




Lemma settled_pair {S : Type} (callback : value) (r : promise * S) :
  (let '(settled, s') := r in (thenCallback callback settled, s'))
  = (thenCallback callback (fst r), snd r).
Proof. now destruct r. Qed.

(** X13.  What the listing of the teams hands to the engine, when the
    client has [getOrgTeams] and the caller gives an options object, a
    cache policy object and a callback: a context for the API [teams]
    whose method is the fan-out over [getOrgTeams], whose options are the
    caller's with [apiTypePrefix] set to [github.x#], and whose token is
    the whole token set; what the engine settles with is what the callback
    is called with.  Without an options object ([undefined] or [null]) the
    listing throws a TypeError and the engine is not run. *)
Theorem listing_of_the_teams_context
    (World : Type) (execute : CompositeApiContext World -> thunk World)
    (collectionsClient : string -> option (clientMethod World))
    (constructedBackgroundRefresh : value) (orgsAndTokens opts policy : props)
    (name : string) (method : clientMethod World) (s : state World) :
  collectionsClient "getOrgTeams" = Some method ->
  (exists apiContext,
     getAllTeams World execute collectionsClient constructedBackgroundRefresh
       orgsAndTokens (VObj opts) (VObj policy) (VFun name) s
     = (thenCallback (VFun name) (fst (execute apiContext s)),
        snd (execute apiContext s))
     /\ api apiContext = "teams"
     /\ apiOptions apiContext
        = VObj (prop_set "apiTypePrefix" (VStr "github.x#") opts)
     /\ token apiContext = VObj orgsAndTokens
     /\ apiMethod apiContext
        = actualCrossOrgMethod World orgsAndTokens method "teams" "getOrgTeams"
            (VObj (prop_set "apiTypePrefix" (VStr "github.x#") opts))
            (VObj policy))
  /\ (forall cacheOptions callback,
        getAllTeams World execute collectionsClient constructedBackgroundRefresh
          orgsAndTokens VUndefined cacheOptions callback s
        = (Thrown VTypeError, s)
        /\ getAllTeams World execute collectionsClient
             constructedBackgroundRefresh orgsAndTokens VNull cacheOptions
             callback s
           = (Thrown VTypeError, s)).
Proof.
  intros Hm. split; [|intros; split; reflexivity].
  unfold getAllTeams, getCrossOrganizationMethod. cbn [withApiTypePrefix].
  rewrite Hm. unfold generalizedCollectionMethod, apiContextFor.
  cbn [get bind is_function].
  destruct (truthy (prop_get "backgroundRefresh" policy));
    eexists; (split; [apply settled_pair|]);
    repeat split; reflexivity.
Qed.

(** The listing of the teams of the scenario. *)
Lemma listing_of_the_teams_context_witness :
  exists apiContext,
    Scenario.allTeams Scenario.orgsAndTokens (VObj []) (VObj [])
                      (VFun "callback") Scenario.start
    = (thenCallback (VFun "callback") (fst (Scenario.engine apiContext Scenario.start)),
       snd (Scenario.engine apiContext Scenario.start))
    /\ api apiContext = "teams"
    /\ apiOptions apiContext = VObj [("apiTypePrefix", VStr "github.x#")]
    /\ token apiContext = VObj Scenario.orgsAndTokens.
Proof.
  destruct (proj1 (listing_of_the_teams_context nat Scenario.engine
                     Scenario.collectionsClient VUndefined Scenario.orgsAndTokens
                     [] [] "callback" Scenario.getOrgTeams Scenario.start eq_refl))
    as (apiContext & Hrun & Hapi & Hopts & Htok & _).
  exists apiContext. split; [exact Hrun|]. split; [exact Hapi|].
  split; [exact Hopts | exact Htok].
Defined.

(** ** The clones an aggregation puts out *)

Section EachLimitItems.
Context {A S : Type}.
Variable iteratee : A -> S -> step * S.

(** What the iteratee keeps for every item of a collection, the loop over
    the collection keeps. *)
Lemma eachLimit1_keeps_in (R : S -> S -> Prop) :
  (forall s, R s s) ->
  (forall a b c, R a b -> R b c -> R a c) ->
  forall coll,
    (forall x s r s', In x coll -> iteratee x s = (r, s') -> R s s') ->
    forall s r s', eachLimit1 iteratee coll s = (r, s') -> R s s'.
Proof.
  intros Hrefl Htrans. induction coll as [|x coll IH]; intros Hstep s r s' H;
    simpl in H.
  - inversion H; subst. apply Hrefl.
  - assert (Hx : forall r1 s1, iteratee x s = (r1, s1) -> R s s1)
      by (intros r1 s1; apply Hstep; now left).
    assert (IH' : forall s0 r0 s0', eachLimit1 iteratee coll s0 = (r0, s0') -> R s0 s0')
      by (apply IH; intros y s0 r0 s0' Hy; apply Hstep; now right).
    destruct (iteratee x s) as [[err|e] s1] eqn:E.
    + destruct (truthy err).
      * inversion H; subst. eapply Hx; eauto.
      * eapply Htrans; [eapply Hx; eauto | eapply IH'; eauto].
    + inversion H; subst. eapply Hx; eauto.
Qed.

End EachLimitItems.

Section EntityClones.
Variable World : Type.
Variable collectionsClient : string -> option (clientMethod World).
Variable orgsAndTokens : props.
Variables options cacheOptions : value.
Variable innerKeyType : string.
Variable outerFunction :
  props -> value -> value -> value -> state World -> reported * state World.
Variables collectionMethodName collectionKey : string.
Variable optionalSetOrganizationLogin : value.

(** An entity the aggregation puts out: the clone of an entity listed for
    one of the organizations, with something under [collectionKey]. *)
Let cloneOfListed (orgs : value) (names : list string) (put : value) : Prop :=
  exists orgName orgEntities orgEntity innerEntities,
    In orgName names
    /\ get orgs orgName = Ok orgEntities
    /\ In orgEntity (items orgEntities)
    /\ put = VObj (prop_set collectionKey innerEntities
                     (entityCloneOf optionalSetOrganizationLogin orgName orgEntity)).

Let putOut (P : value -> Prop) (a b : list value * state World) : Prop :=
  exists newEntities : list value,
    fst b = fst a ++ newEntities /\ Forall P newEntities.

Lemma putOut_refl P a : putOut P a a.
Proof. exists []. now rewrite app_nil_r. Qed.

Lemma putOut_trans P a b c : putOut P a b -> putOut P b c -> putOut P a c.
Proof.
  intros (e1 & He1 & P1) (e2 & He2 & P2). exists (e1 ++ e2).
  rewrite He2, He1, app_assoc. split; [reflexivity | apply Forall_app; auto].
Qed.

Lemma organizations_cloned localCacheOptions orgs names acc r acc' :
  eachLimit1 (organizationEntitiesStep World collectionsClient orgsAndTokens
                options innerKeyType collectionMethodName collectionKey
                optionalSetOrganizationLogin localCacheOptions orgs)
             names acc = (r, acc') ->
  putOut (cloneOfListed orgs names) acc acc'.
Proof.
  apply (eachLimit1_keeps_in _ (putOut (cloneOfListed orgs names))
           (putOut_refl _) (putOut_trans _)).
  intros orgName a r0 a' Hname. unfold organizationEntitiesStep.
  destruct (get orgs orgName) as [orgEntities|x] eqn:Hget.
  - apply (eachLimit1_keeps_in _ (putOut (cloneOfListed orgs names))
             (putOut_refl _) (putOut_trans _)).
    intros orgEntity [entities s] r1 [entities' s'] Hent Hstep.
    destruct (entityStep_cases _ _ _ _ _ _ _ _ _ _ _ _ _ _ _ _ Hstep)
      as [(e & _ & -> & ->)
         |[(_ & -> & -> & _)|(_ & _ & lo & w & _ & _ & [->|(res & ->)])]];
      try apply putOut_refl.
    + exists []. split; [simpl; now rewrite app_nil_r | constructor].
    + eexists [_]. split; [reflexivity|]. repeat constructor.
      exists orgName, orgEntities, orgEntity, res. auto.
  - intros H; inversion H; subst. apply putOut_refl.
Qed.

(** C8.  The entity the aggregation puts out is a clone: a new object that
    has every field of the entity with the entity's value, so that an
    [organization] the entity has itself is kept; when the organization
    login is to be set, the clone of an entity without an [organization]
    has [{login}] there.  The inner collection is attached to the clone,
    and the entity listed stays as it was.  That clone is what the
    iteratee of the entities adds to the output when the inner call of
    the entity goes well, and what an aggregation over a listing with
    this one entity resolves with; and whatever an aggregation resolves
    with, each entity in it is the clone of an entity listed for one of
    the organizations, with something attached under [collectionKey]. *)
Theorem entity_clone_keeps_entity_fields
    (orgName : string) (h h' : Store.heap) (orgEntity : nat)
    (entity : props) (entityClone : nat) (innerEntities : value) :
  h !! orgEntity = Some entity ->
  Store.cloneEntity optionalSetOrganizationLogin orgName (Store.Ref orgEntity) h
  = (entityClone, h') ->
  let clone := entityCloneOf optionalSetOrganizationLogin orgName (VObj entity) in
  let h'' := Store.attachCollection entityClone collectionKey innerEntities h' in
  h !! entityClone = None
  /\ h' !! entityClone = Some clone
  /\ (forall k v, prop_lookup k entity = Some v -> prop_lookup k clone = Some v)
  /\ (forall v, prop_lookup "organization" entity = Some v ->
        prop_lookup "organization" clone = Some v)
  /\ (truthy optionalSetOrganizationLogin = true ->
      prop_lookup "organization" entity = None ->
      prop_lookup "organization" clone = Some (VObj [("login", VStr orgName)]))
  /\ (forall k, prop_lookup k entity = None ->
        (k = "organization" -> truthy optionalSetOrganizationLogin = false) ->
        prop_lookup k clone = None)
  /\ h' !! orgEntity = Some entity
  /\ h'' !! orgEntity = Some entity
  /\ h'' !! entityClone = Some (prop_set collectionKey innerEntities clone)
  /\ (forall (method : clientMethod World) (localCacheOptions : props)
        (entities : list value) (s : state World) (localOptions : props)
        (collectionsError error : value) (w : World),
        innerOptionsFor options innerKeyType orgName (VObj entity)
        = Ok localOptions ->
        truthy (tokenFor orgsAndTokens orgName) = true ->
        collectionsClient collectionMethodName = Some method ->
        method (tokenFor orgsAndTokens orgName) (VObj localOptions)
               (VObj localCacheOptions) (world s)
        = ((collectionsError, innerEntities), w) ->
        innerError collectionMethodName collectionsError innerEntities
        = Ok error ->
        truthy error = false ->
        entityStep World collectionsClient orgsAndTokens options innerKeyType
          collectionMethodName collectionKey optionalSetOrganizationLogin
          localCacheOptions orgName (Store.read h (Store.Ref orgEntity))
          (entities, s)
        = (Next VUndefined,
           (entities ++ [Store.read h'' (Store.Ref entityClone)],
            afterInnerCall collectionMethodName (tokenFor orgsAndTokens orgName)
                           localOptions localCacheOptions w s)))
  /\ (forall (method : clientMethod World) (outerError data inner : value)
        (orgs : props) (pre post : list string) (s s1 : state World)
        (localOptions : props) (collectionsError error : value) (w : World),
        outerFunction orgsAndTokens (VObj []) cacheOptions (VFun "outerCallback") s
        = (Called outerError data, s1) ->
        truthy outerError = false ->
        get data "data" = Ok inner ->
        truthy inner = true ->
        get inner "orgs" = Ok (VObj orgs) ->
        own_keys orgs = pre ++ orgName :: post ->
        (forall other, In other (pre ++ post) ->
           items (prop_get other orgs) = []) ->
        items (prop_get orgName orgs) = [Store.read h (Store.Ref orgEntity)] ->
        innerOptionsFor options innerKeyType orgName (VObj entity)
        = Ok localOptions ->
        truthy (tokenFor orgsAndTokens orgName) = true ->
        collectionsClient collectionMethodName = Some method ->
        method (tokenFor orgsAndTokens orgName) (VObj localOptions)
               (VObj (localCacheOptionsFor cacheOptions)) (world s1)
        = ((collectionsError, innerEntities), w) ->
        innerError collectionMethodName collectionsError innerEntities
        = Ok error ->
        truthy error = false ->
        crossOrganizationCollection World collectionsClient orgsAndTokens options
          cacheOptions innerKeyType outerFunction collectionMethodName
          collectionKey optionalSetOrganizationLogin s
        = (Resolved (VObj [("data", VArr [Store.read h'' (Store.Ref entityClone)] []);
                           ("headers", VObj [])]),
           afterInnerCall collectionMethodName (tokenFor orgsAndTokens orgName)
                          localOptions (localCacheOptionsFor cacheOptions) w s1))
  /\ (forall (s s' : state World) (v : value),
        crossOrganizationCollection World collectionsClient orgsAndTokens options
          cacheOptions innerKeyType outerFunction collectionMethodName
          collectionKey optionalSetOrganizationLogin s
        = (Resolved v, s') ->
        exists outerError data s1 inner orgs names out,
          outerFunction orgsAndTokens (VObj []) cacheOptions
                        (VFun "outerCallback") s
          = (Called outerError data, s1)
          /\ get data "data" = Ok inner
          /\ get inner "orgs" = Ok orgs
          /\ getOwnPropertyNames orgs = Ok names
          /\ v = VObj [("data", VArr out []); ("headers", VObj [])]
          /\ Forall (fun put =>
                       exists name orgEntities listed attached,
                         In name names
                         /\ get orgs name = Ok orgEntities
                         /\ In listed (items orgEntities)
                         /\ put = VObj (prop_set collectionKey attached
                                          (entityCloneOf optionalSetOrganizationLogin
                                                         name listed)))
                    out).
Proof.
  intros He Hrun.
  rewrite cloneEntity_objects in Hrun by (simpl; eauto).
  simpl Store.read in Hrun. rewrite He in Hrun.
  inversion Hrun as [[E1 E2]]. clear Hrun. subst entityClone.
  intros clone h''. fold clone in E2. fold clone.
  assert (Hne : fresh (dom h) <> orgEntity).
  { intros E. rewrite <- E, fresh_unallocated in He. discriminate. }
  assert (Hfield : forall k v, prop_lookup k entity = Some v ->
                     prop_lookup k clone = Some v).
  { intros k v Hk. unfold clone, entityCloneOf. rewrite prop_lookup_assign.
    now rewrite Hk. }
  assert (Hput : h'' !! fresh (dom h)
                 = Some (prop_set collectionKey innerEntities clone)).
  { unfold h'', Store.attachCollection. subst h'.
    rewrite setProperty_insert. apply lookup_insert_eq. }
  assert (Hread : Store.read h'' (Store.Ref (fresh (dom h)))
                  = VObj (prop_set collectionKey innerEntities clone))
    by (simpl; now rewrite Hput).
  assert (Hlisted : Store.read h (Store.Ref orgEntity) = VObj entity)
    by (simpl; now rewrite He).
  split; [apply fresh_unallocated|].
  split; [subst h'; apply lookup_insert_eq|].
  split; [exact Hfield|].
  split; [apply Hfield|].
  split.
  { intros Hflag Hnone. unfold clone, entityCloneOf.
    rewrite prop_lookup_assign, Hnone, Hflag. reflexivity. }
  split.
  { intros k Hnone Hk. unfold clone, entityCloneOf.
    rewrite prop_lookup_assign, Hnone.
    destruct (truthy optionalSetOrganizationLogin); [|reflexivity].
    simpl. destruct (String.eqb_spec k "organization") as [->|_];
      [now discriminate Hk | reflexivity]. }
  split; [subst h'; now rewrite lookup_insert_ne|].
  split.
  { unfold h'', Store.attachCollection. subst h'.
    rewrite setProperty_insert. now rewrite lookup_insert_ne. }
  split; [exact Hput|].
  assert (Hstep : forall (method : clientMethod World) localCacheOptions entities
                    s localOptions collectionsError error w,
    innerOptionsFor options innerKeyType orgName (VObj entity) = Ok localOptions ->
    truthy (tokenFor orgsAndTokens orgName) = true ->
    collectionsClient collectionMethodName = Some method ->
    method (tokenFor orgsAndTokens orgName) (VObj localOptions)
           (VObj localCacheOptions) (world s)
    = ((collectionsError, innerEntities), w) ->
    innerError collectionMethodName collectionsError innerEntities = Ok error ->
    truthy error = false ->
    entityStep World collectionsClient orgsAndTokens options innerKeyType
      collectionMethodName collectionKey optionalSetOrganizationLogin
      localCacheOptions orgName (Store.read h (Store.Ref orgEntity)) (entities, s)
    = (Next VUndefined,
       (entities ++ [Store.read h'' (Store.Ref (fresh (dom h)))],
        afterInnerCall collectionMethodName (tokenFor orgsAndTokens orgName)
                       localOptions localCacheOptions w s))).
  { intros method lco entities s lo err error w Ho Ht Hm Hcall Herr Hok.
    rewrite Hread, Hlisted.
    rewrite (entityStep_call World collectionsClient orgsAndTokens options
               innerKeyType collectionMethodName collectionKey
               optionalSetOrganizationLogin lco orgName (VObj entity) entities s
               lo method err innerEntities error w Ho Ht Hm Hcall Herr).
    now rewrite Hok. }
  split; [exact Hstep|].
  split.
  { intros method outerError data inner orgs pre post s s1 lo err error w
           Hout Herr0 Hd Ht Ho Hnames Hothers Hitems Hopts Htok Hm Hcall Herr Hok.
    rewrite (aggregation_listing World collectionsClient orgsAndTokens options
               cacheOptions innerKeyType outerFunction collectionMethodName
               collectionKey optionalSetOrganizationLogin outerError data inner
               orgs s s1 Hout Herr0 Hd Ht Ho).
    rewrite Hnames.
    rewrite (eachLimit1_app _ _ _ _ _
               (organizations_without_entities World collectionsClient
                  orgsAndTokens options cacheOptions innerKeyType
                  collectionMethodName collectionKey optionalSetOrganizationLogin
                  orgs pre ([], s1)
                  (fun o H => Hothers o (in_or_app _ _ _ (or_introl H))))).
    assert (Horg :
      organizationEntitiesStep World collectionsClient orgsAndTokens options
        innerKeyType collectionMethodName collectionKey
        optionalSetOrganizationLogin (localCacheOptionsFor cacheOptions)
        (VObj orgs) orgName ([], s1)
      = (Next VNull,
         ([Store.read h'' (Store.Ref (fresh (dom h)))],
          afterInnerCall collectionMethodName (tokenFor orgsAndTokens orgName)
                         lo (localCacheOptionsFor cacheOptions) w s1))).
    { unfold organizationEntitiesStep. cbn [get]. rewrite Hitems.
      rewrite (eachLimit1_continue _ _ _ _ _ _
                 (Hstep method _ [] s1 lo err error w Hopts Htok Hm Hcall Herr Hok)
                 eq_refl).
      reflexivity. }
    rewrite (eachLimit1_continue _ _ _ _ _ _ Horg eq_refl).
    rewrite (organizations_without_entities World collectionsClient
               orgsAndTokens options cacheOptions innerKeyType
               collectionMethodName collectionKey optionalSetOrganizationLogin
               orgs post _
               (fun o H => Hothers o (in_or_app _ _ _ (or_intror H)))).
    reflexivity. }
  intros s s' v. unfold crossOrganizationCollection.
  destruct (outerFunction orgsAndTokens (VObj []) cacheOptions
              (VFun "outerCallback") s) as [[outerError data|x|x|] s1] eqn:Hout;
    try discriminate.
  intros H.
  destruct (outerCallback_shape World collectionsClient orgsAndTokens options
              cacheOptions innerKeyType collectionMethodName collectionKey
              optionalSetOrganizationLogin outerError data s1)
    as [(p & Hp & Hres & _)
       |(inner & orgs & names & _ & _ & Hin & _ & Ho & Hn & Hrunning)].
  - rewrite Hp in H. inversion H; subst. now destruct (Hres v).
  - rewrite Hrunning in H.
    destruct (eachLimit1 _ names ([], s1)) as [[err|x] [entities s2]] eqn:E;
      simpl in H; [|discriminate].
    destruct (truthy err); inversion H; subst.
    apply organizations_cloned in E. destruct E as (newEntities & Hnew & Pe).
    simpl in Hnew. subst entities.
    exists outerError, data, s1, inner, orgs, names, newEntities.
    repeat (split; [assumption || reflexivity|]). exact Pe.
Qed.

End EntityClones.

(** A team of [alpha] that says it belongs to [gamma] keeps saying so, in
    the store and in what the aggregation of the team members puts out. *)
Lemma entity_clone_keeps_entity_fields_witness :
  exists (entityClone : nat) (h' : Store.heap),
    Store.cloneEntity (VBool true) "alpha" (Store.Ref 0) Scenario.entityObjects
    = (entityClone, h')
    /\ h' !! entityClone
       = Some [("organization", VObj [("login", VStr "gamma")]); ("id", VNum 7)]
    /\ h' !! 0 = Some Scenario.movedTeam
    /\ fst (crossOrganizationCollection nat Scenario.collectionsClient
              Scenario.orgsAndTokens (VObj []) (VObj []) "team"
              (Scenario.listed [("alpha", VArr [VObj Scenario.movedTeam] [])])
              "getTeamMembers" "members" (VBool true) Scenario.start)
       = Resolved
           (VObj [("data",
                   VArr [VObj [("organization", VObj [("login", VStr "gamma")]);
                               ("id", VNum 7); ("members", Scenario.members)]] []);
                  ("headers", VObj [])]).
Proof.
  destruct (Store.cloneEntity (VBool true) "alpha" (Store.Ref 0)
              Scenario.entityObjects) as [entityClone h'] eqn:E.
  destruct (entity_clone_keeps_entity_fields nat Scenario.collectionsClient
              Scenario.orgsAndTokens (VObj []) (VObj []) "team"
              (Scenario.listed [("alpha", VArr [VObj Scenario.movedTeam] [])])
              "getTeamMembers" "members" (VBool true) "alpha"
              Scenario.entityObjects h' 0 Scenario.movedTeam entityClone
              Scenario.members eq_refl E)
    as (_ & H2 & _ & _ & _ & _ & H7 & _ & H9 & _ & Hrun & _).
  exists entityClone, h'.
  split; [reflexivity|]. split; [exact H2|]. split; [exact H7|].
  rewrite (Hrun Scenario.getTeamMembers VNull
             (VObj [("data", VObj [("orgs",
                VObj [("alpha", VArr [VObj Scenario.movedTeam] [])])])])
             (VObj [("orgs", VObj [("alpha", VArr [VObj Scenario.movedTeam] [])])])
             [("alpha", VArr [VObj Scenario.movedTeam] [])] [] []
             Scenario.start Scenario.start
             [("per_page", VNum 100); ("team_id", VNum 7)] VNull VNull 1
             eq_refl eq_refl eq_refl eq_refl eq_refl eq_refl
             (fun other (H : In other []) => match H with end)
             eq_refl eq_refl eq_refl eq_refl eq_refl eq_refl eq_refl).
  simpl. rewrite H9. reflexivity.
Defined.

(** ** The registry of entity metadata mappings *)

Section RegistryFacts.
Import EntityMetadata.
Context {EntityMetadataType : Type} `{Countable EntityMetadataType}.
Variable typeName : EntityMetadataType -> string.

Local Abbreviation registry :=
  (gmap EntityMetadataType (gmap MetadataMappingDefinition definition)).

(** What a registration that goes through has done. *)
Lemma Register_Ok type definitionType def (values values' : registry) :
  Register typeName type definitionType def values = (Ok tt, values') ->
  exists typeMap,
    (values !! type = Some typeMap \/ (values !! type = None /\ typeMap = ∅))
    /\ typeMap !! definitionType = None
    /\ values' = <[type := <[definitionType := def]> typeMap]> values.
Proof.
  unfold Register. destruct (values !! type) as [typeMap|] eqn:E.
  - rewrite E. destruct (typeMap !! definitionType) eqn:D; [discriminate|].
    intros X; inversion X; subst. exists typeMap. auto.
  - rewrite lookup_insert_eq, lookup_empty.
    intros X; inversion X; subst. exists ∅. rewrite insert_insert_eq.
    split; [right; auto | split; [apply lookup_empty | reflexivity]].
Qed.

(** After a registration its name is taken. *)
Lemma Register_taken type definitionType def def' (values values' : registry) :
  Register typeName type definitionType def values = (Ok tt, values') ->
  Register typeName type definitionType def' values'
  = (Throw (alreadyRegistered typeName type), values').
Proof.
  intros Hreg. destruct (Register_Ok _ _ _ _ _ Hreg) as (tm & _ & _ & ->).
  unfold Register. rewrite lookup_insert_eq. now rewrite !lookup_insert_eq.
Qed.

(** X14.  A definition that has been registered is the one
    [GetDefinition] gives for its type and name, provided it is truthy:
    registering and reading back is the identity on maps, functions,
    arrays, non-empty strings and [true]. *)
Theorem registered_definition_is_read_back
    (type : EntityMetadataType) (definitionType : MetadataMappingDefinition)
    (def : definition) (throwIfMissing : bool) (values values' : registry) :
  Register typeName type definitionType def values = (Ok tt, values') ->
  definitionTruthy def = true ->
  GetDefinition typeName type definitionType throwIfMissing values'
  = Ok (Some def).
Proof.
  intros Hreg Ht. destruct (Register_Ok _ _ _ _ _ Hreg) as (tm & _ & _ & ->).
  unfold GetDefinition. rewrite lookup_insert_eq. cbv zeta.
  now rewrite lookup_insert_eq, Ht.
Qed.

(** X15.  A name is registered once for a type: after a registration, a
    second one for the same type and name is refused with the error
    [already registered], whatever the definition, and a refused
    registration leaves the registry as it was. *)
Theorem second_registration_is_refused
    (type : EntityMetadataType) (definitionType : MetadataMappingDefinition)
    (def def' : definition) (values values' : registry) :
  Register typeName type definitionType def values = (Ok tt, values') ->
  Register typeName type definitionType def' values'
  = (Throw (alreadyRegistered typeName type), values')
  /\ forall type0 definitionType0 def0 (values0 values1 : registry) e,
       Register typeName type0 definitionType0 def0 values0 = (Throw e, values1) ->
       values1 = values0 /\ e = alreadyRegistered typeName type0.
Proof.
  intros Hreg. split.
  - now apply Register_taken with (def := def) (values := values).
  - intros type0 d0 def0 values0 values1 e. unfold Register.
    destruct (values0 !! type0) as [tm|] eqn:E.
    + rewrite E. destruct (tm !! d0); intros X; inversion X; auto.
    + rewrite lookup_insert_eq, lookup_empty. discriminate.
Qed.

(** X16.  A registration changes what is read under its own type and name
    only: for another type, and for another name of a type that was
    known already, [GetDefinition] gives what it gave before. *)
Theorem registration_keeps_other_definitions
    (type type' : EntityMetadataType)
    (definitionType definitionType' : MetadataMappingDefinition)
    (def : definition) (throwIfMissing : bool) (values values' : registry) :
  Register typeName type definitionType def values = (Ok tt, values') ->
  type' <> type \/ (definitionType' <> definitionType /\ is_Some (values !! type)) ->
  GetDefinition typeName type' definitionType' throwIfMissing values'
  = GetDefinition typeName type' definitionType' throwIfMissing values.
Proof.
  intros Hreg Hother.
  destruct (Register_Ok _ _ _ _ _ Hreg) as (tm & Htm & _ & ->).
  unfold GetDefinition. destruct Hother as [Hne|[Hne [tm0 Hsome]]].
  - now rewrite lookup_insert_ne by (intros X; now apply Hne).
  - destruct (decide (type' = type)) as [->|Hty].
    + rewrite lookup_insert_eq, Hsome.
      destruct Htm as [Htm|[Htm _]]; [|congruence].
      assert (tm = tm0) by congruence. subst tm0. cbv zeta.
      now rewrite lookup_insert_ne by (intros X; now apply Hne).
    + now rewrite lookup_insert_ne by (intros X; now apply Hty).
Qed.

(** X17.  A falsy definition (the empty string, [false]) is registered
    but cannot be read: [GetDefinition] takes it for missing, throwing
    [not available] or giving [undefined] as it is asked to, while the
    name is taken, so that no other definition can be registered under
    it. *)
Theorem falsy_definition_is_registered_but_not_read
    (type : EntityMetadataType) (definitionType : MetadataMappingDefinition)
    (def def' : definition) (values values' : registry) :
  Register typeName type definitionType def values = (Ok tt, values') ->
  definitionTruthy def = false ->
  GetDefinition typeName type definitionType true values'
  = Throw (notAvailable typeName type definitionType)
  /\ GetDefinition typeName type definitionType false values' = Ok None
  /\ Register typeName type definitionType def' values'
     = (Throw (alreadyRegistered typeName type), values').
Proof.
  intros Hreg Hf.
  pose proof (Register_taken _ _ _ def' _ _ Hreg) as Hsecond.
  destruct (Register_Ok _ _ _ _ _ Hreg) as (tm & _ & _ & ->).
  unfold GetDefinition. rewrite lookup_insert_eq. cbv zeta.
  rewrite lookup_insert_eq, Hf. auto.
Qed.

End RegistryFacts.

Section ValidationFacts.
Import EntityMetadata.
Context {EntityMetadataType : Type} `{Countable EntityMetadataType}.
Variable typeName : EntityMetadataType -> string.

Local Abbreviation registry :=
  (gmap EntityMetadataType (gmap MetadataMappingDefinition definition)).

(** The keys that are none of [ks]. *)
Local Abbreviation without ks set :=
  (List.filter (fun x : string => negb (existsb (String.eqb x) ks)) set).

Lemma mapHas_In fn (entries : list (string * string)) :
  mapHas fn entries = true <-> In fn (map fst entries).
Proof.
  unfold mapHas. rewrite existsb_exists, in_map_iff. split.
  - intros (kv & Hin & Heq). apply String.eqb_eq in Heq. exists kv. auto.
  - intros (kv & Heq & Hin). exists kv. split; [assumption|].
    now apply String.eqb_eq.
Qed.

Lemma existsb_eqb_In x (ks : list string) :
  existsb (String.eqb x) ks = true <-> In x ks.
Proof.
  rewrite existsb_exists. split.
  - intros (y & Hin & Heq). apply String.eqb_eq in Heq. now subst.
  - intros Hin. exists x. split; [assumption | apply String.eqb_refl].
Qed.

Lemma fold_setDelete (ks set : list string) :
  fold_left (fun set each => setDelete each set) ks set = without ks set.
Proof.
  revert set. induction ks as [|k ks IH]; intros set; simpl.
  - induction set as [|x set IHs]; simpl; congruence.
  - rewrite IH. unfold setDelete.
    induction set as [|x set IHs]; simpl; [reflexivity|].
    rewrite (String.eqb_sym x k).
    destruct (k =? x); simpl; [assumption|].
    destruct (existsb (String.eqb x) ks); simpl; congruence.
Qed.

Lemma without_In x (ks set : list string) :
  In x (without ks set) <-> In x set /\ ~ In x ks.
Proof.
  rewrite filter_In, negb_true_iff, <- not_true_iff_false, existsb_eqb_In.
  reflexivity.
Qed.

Lemma without_nil (ks set : list string) :
  (forall x, In x set -> In x ks) -> without ks set = [].
Proof.
  intros Hall. destruct (without ks set) as [|x l] eqn:E; [reflexivity|].
  assert (Hx : In x (without ks set)) by (rewrite E; now left).
  apply without_In in Hx. destruct Hx as [Hin Hnot]. now apply Hall in Hin.
Qed.

(** The loop over the field names ends when all of them are keys of the
    map, with the two sets less the field names. *)
Lemma visitFields_Ok type definitionType entries fieldNames
    (unvisitedMappings fields : list string) :
  (forall fn, In fn fieldNames -> In fn (map fst entries)) ->
  visitFields typeName type definitionType entries fieldNames
              unvisitedMappings fields
  = Ok (without fieldNames unvisitedMappings, without fieldNames fields).
Proof.
  rewrite <- !fold_setDelete.
  revert unvisitedMappings fields.
  induction fieldNames as [|fn rest IH]; intros u f Hall; simpl; [reflexivity|].
  assert (Hfn : mapHas fn entries = true) by (apply mapHas_In, Hall; now left).
  rewrite Hfn. simpl. apply IH. intros fn' Hin. apply Hall. now right.
Qed.

(** It is left at the first field name that is no key. *)
Lemma visitFields_Throw type definitionType entries before fn after
    (unvisitedMappings fields : list string) :
  (forall fn', In fn' before -> In fn' (map fst entries)) ->
  ~ In fn (map fst entries) ->
  visitFields typeName type definitionType entries (before ++ fn :: after)
              unvisitedMappings fields
  = Throw (unmappedColumn typeName type definitionType fn).
Proof.
  revert unvisitedMappings fields.
  induction before as [|fn' rest IH]; intros u f Hall Hnot; simpl.
  - destruct (mapHas fn entries) eqn:E; [|reflexivity].
    now apply mapHas_In in E.
  - assert (Hfn : mapHas fn' entries = true) by (apply mapHas_In, Hall; now left).
    rewrite Hfn. simpl. apply IH; [|assumption].
    intros fn'' Hin. apply Hall. now right.
Qed.

(** The field names are all keys, or there is a first one that is not. *)
Lemma fieldNames_cases (entries : list (string * string)) (fieldNames : list string) :
  (forall fn, In fn fieldNames -> In fn (map fst entries))
  \/ exists before fn after,
       fieldNames = before ++ fn :: after
       /\ (forall fn', In fn' before -> In fn' (map fst entries))
       /\ ~ In fn (map fst entries).
Proof.
  induction fieldNames as [|fn rest IH].
  - left. intros fn [].
  - destruct (mapHas fn entries) eqn:E.
    + apply mapHas_In in E. destruct IH as [IH|(before & fn' & after & -> & Hb & Hn)].
      * left. intros fn' [<-|Hin]; auto.
      * right. exists (fn :: before), fn', after.
        split; [reflexivity|]. split; [|assumption].
        intros fn'' [<-|Hin]; auto.
    + right. exists [], fn, rest. split; [reflexivity|].
      split; [intros fn' []|].
      intros Hin. apply mapHas_In in Hin. congruence.
Qed.

(** The validation of a map all of whose field names are keys. *)
Lemma RuntimeValidateMappings_mapped type definitionType entries fieldNames
    permitted (values : registry) :
  GetDefinition typeName type definitionType true values
  = Ok (Some (DefMap entries)) ->
  (forall fn, In fn fieldNames -> In fn (map fst entries)) ->
  RuntimeValidateMappings typeName type definitionType fieldNames permitted values
  = match without (fieldNames ++ match permitted with Some l => l | None => [] end)
                  (first_occurrences (map fst entries)) with
    | [] => Ok tt
    | k :: l => Throw (unvisited typeName type definitionType (k :: l))
    end.
Proof.
  intros Hget Hall. unfold RuntimeValidateMappings. rewrite Hget. cbn [bind].
  cbv zeta. rewrite visitFields_Ok by assumption. cbn [bind]. unfold afterFields.
  rewrite (without_nil fieldNames (first_occurrences fieldNames))
    by (intros x; apply first_occurrences_In).
  cbn [List.length Nat.eqb negb].
  assert (E : match permitted with
              | Some permitted =>
                  fold_left (fun set each => setDelete each set) permitted
                    (without fieldNames (first_occurrences (map fst entries)))
              | None => without fieldNames (first_occurrences (map fst entries))
              end
              = without (fieldNames ++ match permitted with Some l => l | None => [] end)
                        (first_occurrences (map fst entries))).
  { rewrite <- !fold_setDelete, fold_left_app. destruct permitted; reflexivity. }
  rewrite E. clear E. now destruct (without _ _).
Qed.

Lemma RuntimeValidateMappings_unmapped type definitionType entries before fn after
    permitted (values : registry) :
  GetDefinition typeName type definitionType true values
  = Ok (Some (DefMap entries)) ->
  (forall fn', In fn' before -> In fn' (map fst entries)) ->
  ~ In fn (map fst entries) ->
  RuntimeValidateMappings typeName type definitionType (before ++ fn :: after)
                          permitted values
  = Throw (unmappedColumn typeName type definitionType fn).
Proof.
  intros Hget Hall Hnot. unfold RuntimeValidateMappings. rewrite Hget. cbn [bind].
  cbv zeta. now rewrite visitFields_Throw.
Qed.


Lemma without_empty (ks set : list string) :
  without ks set = [] <-> (forall x, In x set -> In x ks).
Proof.
  split; [|apply without_nil].
  intros E x Hin. destruct (existsb (String.eqb x) ks) eqn:Ex.
  - now apply existsb_eqb_In.
  - assert (Hx : In x (without ks set)).
    { apply without_In. split; [assumption|].
      intros Hk. apply existsb_eqb_In in Hk. congruence. }
    rewrite E in Hx. destruct Hx.
Qed.

Lemma append_inj (a x y : string) :
  String.append a x = String.append a y -> x = y.
Proof. induction a as [|c a IH]; simpl; [auto|]. intros E. injection E. auto. Qed.

Lemma validationError_inj {A} type definitionType (x y : string) :
  @Throw A (validationError typeName type definitionType x)
  = Throw (validationError typeName type definitionType y) -> x = y.
Proof.
  unfold validationError. intros E. injection E as E.
  now repeat apply append_inj in E.
Qed.

Ltac other_error E :=
  intros E; apply validationError_inj in E; discriminate.

Lemma GetDefinition_Throw type definitionType throwIfMissing (values : registry) e :
  GetDefinition typeName type definitionType throwIfMissing values = Throw e ->
  e = notInitialized typeName type definitionType
  \/ e = notAvailable typeName type definitionType.
Proof.
  unfold GetDefinition. destruct (values !! type) as [typeMap|].
  - cbv zeta. destruct (match typeMap !! definitionType with
                        | Some def => definitionTruthy def
                        | None => false
                        end); [discriminate|].
    destruct throwIfMissing; [|discriminate]. intros E. injection E. auto.
  - intros E. injection E. auto.
Qed.

(** X18.  The validation of a registered map goes through exactly when
    the field names and the keys of the map match: every field name is a
    key, and every key is a field name or one of the permitted
    additional mappings. *)
Theorem validation_succeeds_for_matching_field_names
    (type : EntityMetadataType) (definitionType : MetadataMappingDefinition)
    (entries : list (string * string)) (fieldNames : list string)
    (permitted : option (list string)) (values : registry) :
  GetDefinition typeName type definitionType true values
  = Ok (Some (DefMap entries)) ->
  RuntimeValidateMappings typeName type definitionType fieldNames permitted values
  = Ok tt
  <-> (forall fn, In fn fieldNames -> In fn (map fst entries))
      /\ (forall k, In k (map fst entries) ->
            In k fieldNames
            \/ In k (match permitted with Some l => l | None => [] end)).
Proof.
  intros Hget.
  destruct (fieldNames_cases entries fieldNames)
    as [Hall|(before & fn & after & -> & Hb & Hn)].
  - rewrite (RuntimeValidateMappings_mapped _ _ _ _ _ _ Hget Hall).
    destruct (without _ _) as [|k l] eqn:E.
    + split; [intros _|reflexivity]. split; [assumption|].
      intros k Hk. apply in_app_or.
      apply (proj1 (without_empty _ _) E). now apply first_occurrences_In.
    + split; [discriminate|]. intros [_ Hkeys]. exfalso.
      assert (Hk : In k (without (fieldNames ++ match permitted with
                                               | Some l => l
                                               | None => []
                                               end)
                            (first_occurrences (map fst entries))))
        by (rewrite E; now left).
      apply without_In in Hk. destruct Hk as [Hk Hnot]. apply Hnot.
      apply in_or_app, Hkeys. now apply first_occurrences_In.
  - rewrite (RuntimeValidateMappings_unmapped _ _ _ _ _ _ _ _ Hget Hb Hn).
    split; [discriminate|]. intros [Hall _]. exfalso. apply Hn, Hall.
    apply in_or_app. right. now left.
Qed.

(** X19.  The validation stops at the first field name that is no key
    of the map and reports that one, whatever follows it and whatever
    keys are left unvisited. *)
Theorem first_unmapped_field_name_is_reported
    (type : EntityMetadataType) (definitionType : MetadataMappingDefinition)
    (entries : list (string * string)) (before : list string) (fn : string)
    (after : list string) (permitted : option (list string)) (values : registry) :
  GetDefinition typeName type definitionType true values
  = Ok (Some (DefMap entries)) ->
  (forall fn', In fn' before -> In fn' (map fst entries)) ->
  ~ In fn (map fst entries) ->
  RuntimeValidateMappings typeName type definitionType (before ++ fn :: after)
                          permitted values
  = Throw (unmappedColumn typeName type definitionType fn).
Proof. apply RuntimeValidateMappings_unmapped. Qed.

(** X20.  When the field names are all keys and a key is neither a field
    name nor permitted, the error [has unvisited mappings] is thrown, and
    it lists the keys that are neither, each once, in the order of the
    map. *)
Theorem unvisited_mappings_are_listed_in_map_order
    (type : EntityMetadataType) (definitionType : MetadataMappingDefinition)
    (entries : list (string * string)) (fieldNames : list string)
    (permitted : option (list string)) (k : string) (values : registry) :
  GetDefinition typeName type definitionType true values
  = Ok (Some (DefMap entries)) ->
  (forall fn, In fn fieldNames -> In fn (map fst entries)) ->
  In k (map fst entries) ->
  ~ In k (fieldNames ++ match permitted with Some l => l | None => [] end) ->
  RuntimeValidateMappings typeName type definitionType fieldNames permitted values
  = Throw (unvisited typeName type definitionType
             (List.filter
                (fun x => negb (existsb (String.eqb x)
                                  (fieldNames ++ match permitted with
                                                 | Some l => l
                                                 | None => []
                                                 end)))
                (first_occurrences (map fst entries)))).
Proof.
  intros Hget Hall Hk Hnot.
  rewrite (RuntimeValidateMappings_mapped _ _ _ _ _ _ Hget Hall).
  destruct (without _ _) as [|k' l] eqn:E; [|reflexivity].
  exfalso. apply Hnot. apply (proj1 (without_empty _ _) E).
  now apply first_occurrences_In.
Qed.

(** X21.  The error [has no mapping for fields] is never thrown: the set
    of fields is built from the field names and the loop deletes every
    one of them, or throws. *)
Theorem unmapped_fields_error_is_never_thrown
    (type : EntityMetadataType) (definitionType : MetadataMappingDefinition)
    (fieldNames : list string) (permitted : option (list string))
    (values : registry) (list : list string) :
  RuntimeValidateMappings typeName type definitionType fieldNames permitted values
  <> Throw (unmappedFields typeName type definitionType list).
Proof.
  destruct (GetDefinition typeName type definitionType true values)
    as [[[entries|r|s|b|l]|]|e] eqn:G.
  - destruct (fieldNames_cases entries fieldNames)
      as [Hall|(before & fn & after & -> & Hb & Hn)].
    + rewrite (RuntimeValidateMappings_mapped _ _ _ _ _ _ G Hall).
      destruct (without _ _); [discriminate|].
      other_error E.
    + rewrite (RuntimeValidateMappings_unmapped _ _ _ _ _ _ _ _ G Hb Hn).
      other_error E.
  - unfold RuntimeValidateMappings. rewrite G. cbn [bind].
    other_error E.
  - unfold RuntimeValidateMappings. rewrite G. cbn [bind].
    other_error E.
  - unfold RuntimeValidateMappings. rewrite G. cbn [bind].
    other_error E.
  - unfold RuntimeValidateMappings. rewrite G. cbn [bind]. cbv zeta.
    destruct fieldNames; [|discriminate].
    destruct (negb _); [|discriminate].
    other_error E.
  - unfold RuntimeValidateMappings. rewrite G. cbn [bind].
    other_error E.
  - unfold RuntimeValidateMappings. rewrite G. cbn [bind].
    destruct (GetDefinition_Throw _ _ _ _ _ G) as [-> | ->]; discriminate.
Qed.

End ValidationFacts.

Section RegistryOrder.
Import EntityMetadata.
Context {EntityMetadataType : Type} `{Countable EntityMetadataType}.
Variable typeName : EntityMetadataType -> string.

Local Abbreviation registry :=
  (gmap EntityMetadataType (gmap MetadataMappingDefinition definition)).

(** When a registration goes through, and what it leaves. *)
Lemma Register_spec type definitionType def (values values' : registry) :
  Register typeName type definitionType def values = (Ok tt, values')
  <-> default ∅ (values !! type) !! definitionType = None
      /\ values' = <[type := <[definitionType := def]> (default ∅ (values !! type))]>
                     values.
Proof.
  unfold Register. destruct (values !! type) as [typeMap|] eqn:E.
  - rewrite E. simpl. destruct (typeMap !! definitionType) eqn:D.
    + split; [discriminate|]. now intros [? _].
    + split; [intros X; inversion X; auto|]. now intros [_ ->].
  - rewrite lookup_insert_eq. simpl. rewrite lookup_empty, insert_insert_eq.
    split; [intros X; inversion X; auto|]. now intros [_ ->].
Qed.

(** X22.  After the registration of a definition as [EntityInstantiate],
    [InstantiateObject] returns or throws what a call of that definition
    does: what the function returns, a [TypeError] for a truthy
    definition that is no function, and [not available] for a falsy
    one. *)
Theorem instantiation_calls_the_registered_constructor
    (type : EntityMetadataType) (def : definition) (values values' : registry) :
  Register typeName type EntityInstantiate def values = (Ok tt, values') ->
  InstantiateObject typeName type values'
  = if definitionTruthy def
    then match def with
         | DefFunction returns => returns
         | _ => Throw VTypeError
         end
    else Throw (notAvailable typeName type EntityInstantiate).
Proof.
  intros Hreg. apply Register_spec in Hreg. destruct Hreg as [_ ->].
  unfold InstantiateObject, GetDefinition. rewrite lookup_insert_eq. cbv zeta.
  rewrite lookup_insert_eq. now destruct (definitionTruthy def).
Qed.

(** X23.  Two registrations that both go through can be made in the
    other order: both go through again and leave the same registry. *)
Theorem registrations_commute
    (type1 type2 : EntityMetadataType)
    (definitionType1 definitionType2 : MetadataMappingDefinition)
    (def1 def2 : definition) (values values1 values12 : registry) :
  Register typeName type1 definitionType1 def1 values = (Ok tt, values1) ->
  Register typeName type2 definitionType2 def2 values1 = (Ok tt, values12) ->
  exists values2,
    Register typeName type2 definitionType2 def2 values = (Ok tt, values2)
    /\ Register typeName type1 definitionType1 def1 values2 = (Ok tt, values12).
Proof.
  intros H1 H2. apply Register_spec in H1. destruct H1 as [N1 ->].
  apply Register_spec in H2. destruct H2 as [N2 ->].
  exists (<[type2 := <[definitionType2 := def2]> (default ∅ (values !! type2))]>
            values).
  destruct (decide (type1 = type2)) as [<-|Hty].
  - rewrite lookup_insert_eq in N2. simpl in N2.
    assert (Hd : definitionType1 <> definitionType2).
    { intros <-. now rewrite lookup_insert_eq in N2. }
    rewrite lookup_insert_ne in N2 by assumption.
    split; apply Register_spec.
    + auto.
    + rewrite !lookup_insert_eq. simpl.
      rewrite lookup_insert_ne by (intros X; now apply Hd).
      split; [assumption|].
      rewrite !insert_insert_eq. f_equal. now apply insert_insert_ne.
  - rewrite lookup_insert_ne in N2 by assumption.
    rewrite lookup_insert_ne by assumption.
    split; apply Register_spec.
    + auto.
    + rewrite lookup_insert_ne by (intros X; now apply Hty).
      split; [assumption|]. now apply insert_insert_ne.
Qed.

End RegistryOrder.

(** *** The registry of the repositories *)

Lemma registered_definition_is_read_back_witness :
  EntityMetadata.GetDefinition Registry.typeName "Repository"
    EntityMetadata.TableMapping true Registry.registered
  = Ok (Some Registry.repositoryMapping).
Proof.
  apply (registered_definition_is_read_back Registry.typeName "Repository"
           EntityMetadata.TableMapping Registry.repositoryMapping true
           Registry.empty Registry.registered);
    reflexivity.
Defined.

Lemma second_registration_is_refused_witness :
  EntityMetadata.Register Registry.typeName "Repository"
    EntityMetadata.TableMapping (EntityMetadata.DefFlag true) Registry.registered
  = (Throw (EntityMetadata.alreadyRegistered Registry.typeName "Repository"),
     Registry.registered).
Proof.
  apply (second_registration_is_refused Registry.typeName "Repository"
           EntityMetadata.TableMapping Registry.repositoryMapping
           (EntityMetadata.DefFlag true) Registry.empty Registry.registered).
  reflexivity.
Defined.

Lemma registration_keeps_other_definitions_witness :
  EntityMetadata.GetDefinition Registry.typeName "Repository"
    EntityMetadata.TableMapping true Registry.instantiable
  = EntityMetadata.GetDefinition Registry.typeName "Repository"
      EntityMetadata.TableMapping true Registry.registered.
Proof.
  apply (registration_keeps_other_definitions Registry.typeName
           "Repository" "Repository"
           EntityMetadata.EntityInstantiate EntityMetadata.TableMapping
           (EntityMetadata.DefFunction (Ok (VObj []))) true
           Registry.registered Registry.instantiable).
  - reflexivity.
  - right. split; [discriminate|]. vm_compute. eexists. reflexivity.
Defined.

Lemma falsy_definition_is_registered_but_not_read_witness :
  EntityMetadata.GetDefinition Registry.typeName "Repository"
    EntityMetadata.TableDefaultTableName false Registry.unnamed
  = Ok None.
Proof.
  apply (falsy_definition_is_registered_but_not_read Registry.typeName
           "Repository" EntityMetadata.TableDefaultTableName
           (EntityMetadata.DefString EmptyString)
           (EntityMetadata.DefString "repositories")
           Registry.registered Registry.unnamed);
    reflexivity.
Defined.

Lemma validation_succeeds_for_matching_field_names_witness :
  EntityMetadata.RuntimeValidateMappings Registry.typeName "Repository"
    EntityMetadata.TableMapping ["repositoryId"; "organizationId"]
    (Some ["created"]) Registry.registered
  = Ok tt.
Proof.
  apply (validation_succeeds_for_matching_field_names Registry.typeName
           "Repository" EntityMetadata.TableMapping
           [("repositoryId", "repoid"); ("organizationId", "orgid");
            ("created", "created")]
           ["repositoryId"; "organizationId"] (Some ["created"])
           Registry.registered).
  - reflexivity.
  - split; simpl; intuition.
Defined.

Lemma first_unmapped_field_name_is_reported_witness :
  EntityMetadata.RuntimeValidateMappings Registry.typeName "Repository"
    EntityMetadata.TableMapping ["repositoryId"; "name"; "created"] None
    Registry.registered
  = Throw (EntityMetadata.unmappedColumn Registry.typeName "Repository"
             EntityMetadata.TableMapping "name").
Proof.
  apply (first_unmapped_field_name_is_reported Registry.typeName
           "Repository" EntityMetadata.TableMapping
           [("repositoryId", "repoid"); ("organizationId", "orgid");
            ("created", "created")]
           ["repositoryId"] "name" ["created"] None Registry.registered).
  - reflexivity.
  - simpl. intuition.
  - simpl. intuition discriminate.
Defined.

Lemma unvisited_mappings_are_listed_in_map_order_witness :
  EntityMetadata.RuntimeValidateMappings Registry.typeName "Repository"
    EntityMetadata.TableMapping ["organizationId"] None Registry.registered
  = Throw (EntityMetadata.unvisited Registry.typeName "Repository"
             EntityMetadata.TableMapping ["repositoryId"; "created"]).
Proof.
  apply (unvisited_mappings_are_listed_in_map_order Registry.typeName
           "Repository" EntityMetadata.TableMapping
           [("repositoryId", "repoid"); ("organizationId", "orgid");
            ("created", "created")]
           ["organizationId"] None "created" Registry.registered).
  - reflexivity.
  - simpl. intuition.
  - simpl. intuition.
  - simpl. intuition discriminate.
Defined.

Lemma instantiation_calls_the_registered_constructor_witness :
  EntityMetadata.InstantiateObject Registry.typeName "Repository"
    Registry.instantiable
  = Ok (VObj []).
Proof.
  apply (instantiation_calls_the_registered_constructor Registry.typeName
           "Repository" (EntityMetadata.DefFunction (Ok (VObj [])))
           Registry.registered Registry.instantiable).
  reflexivity.
Defined.

Lemma registrations_commute_witness :
  exists values2,
    EntityMetadata.Register Registry.typeName "Repository"
      EntityMetadata.EntityInstantiate
      (EntityMetadata.DefFunction (Ok (VObj []))) Registry.empty
    = (Ok tt, values2)
    /\ EntityMetadata.Register Registry.typeName "Repository"
         EntityMetadata.TableMapping Registry.repositoryMapping values2
       = (Ok tt, Registry.instantiable).
Proof.
  apply (registrations_commute Registry.typeName "Repository" "Repository"
           EntityMetadata.TableMapping EntityMetadata.EntityInstantiate
           Registry.repositoryMapping
           (EntityMetadata.DefFunction (Ok (VObj [])))
           Registry.empty Registry.registered Registry.instantiable);
    reflexivity.
Defined.

(** ** The aggregations [createMethods] exports *)

Section AggregationOptions.
Variable World : Type.
Variable collectionsClient : string -> option (clientMethod World).
Variable orgsAndTokens : props.
Variables options cacheOptions : value.
Variable innerKeyType : string.
Variables collectionMethodName collectionKey : string.
Variable optionalSetOrganizationLogin : value.

(** What a run of the loops asks: calls whose options are those built
    for an entity. *)
Let asked (a b : list value * state World) : Prop :=
  exists newCalls : list call,
    calls (snd b) = calls (snd a) ++ newCalls
    /\ Forall (fun c =>
                 exists orgName orgEntity localOptions,
                   innerOptionsFor options innerKeyType orgName orgEntity
                   = Ok localOptions
                   /\ callOptions c = VObj localOptions)
              newCalls.

Lemma asked_refl a : asked a a.
Proof. exists []. now rewrite app_nil_r. Qed.

Lemma asked_trans a b c : asked a b -> asked b c -> asked a c.
Proof.
  intros (c1 & Hc1 & P1) (c2 & Hc2 & P2). exists (c1 ++ c2).
  rewrite Hc2, Hc1, app_assoc. split; [reflexivity | apply Forall_app; auto].
Qed.

Lemma entityStep_asked localCacheOptions orgName orgEntity acc r acc' :
  entityStep World collectionsClient orgsAndTokens options innerKeyType
             collectionMethodName collectionKey optionalSetOrganizationLogin
             localCacheOptions orgName orgEntity acc = (r, acc') ->
  asked acc acc'.
Proof.
  destruct acc as [entities s], acc' as [entities' s']. intros H.
  destruct (entityStep_cases _ _ _ _ _ _ _ _ _ _ _ _ _ _ _ _ H)
    as [(e & _ & -> & ->)|[(_ & -> & -> & _)|(_ & _ & lo & w & Ho & -> & _)]];
    try apply asked_refl.
  exists [Call collectionMethodName (tokenFor orgsAndTokens orgName)
               (VObj lo) (VObj localCacheOptions)].
  split; [reflexivity|]. repeat constructor. simpl. eauto.
Qed.

Lemma organizations_asked localCacheOptions orgs names acc r acc' :
  eachLimit1 (organizationEntitiesStep World collectionsClient orgsAndTokens
                options innerKeyType collectionMethodName collectionKey
                optionalSetOrganizationLogin localCacheOptions orgs)
             names acc = (r, acc') ->
  asked acc acc'.
Proof.
  apply (eachLimit1_keeps _ asked asked_refl asked_trans).
  intros orgName a r0 a'. unfold organizationEntitiesStep.
  destruct (get orgs orgName) as [orgEntities|x].
  - apply (eachLimit1_keeps _ asked asked_refl asked_trans).
    intros e b r1 b'. apply entityStep_asked.
  - intros H; inversion H; subst. apply asked_refl.
Qed.

(** The calls made once the listing has arrived have the options built
    for an entity. *)
Lemma outerCallback_asked outerError data s p s' :
  outerCallback World collectionsClient orgsAndTokens options cacheOptions
    innerKeyType collectionMethodName collectionKey
    optionalSetOrganizationLogin outerError data s = (p, s') ->
  exists newCalls : list call,
    calls s' = calls s ++ newCalls
    /\ Forall (fun c =>
                 exists orgName orgEntity localOptions,
                   innerOptionsFor options innerKeyType orgName orgEntity
                   = Ok localOptions
                   /\ callOptions c = VObj localOptions)
              newCalls.
Proof.
  intros H.
  destruct (outerCallback_shape World collectionsClient orgsAndTokens options
              cacheOptions innerKeyType collectionMethodName collectionKey
              optionalSetOrganizationLogin outerError data s)
    as [(p0 & Hp & _)|(inner & orgs & names & _ & _ & _ & _ & _ & _ & Hrun)].
  - rewrite Hp in H. inversion H; subst. exists []. now rewrite app_nil_r.
  - rewrite Hrun in H.
    destruct (eachLimit1 _ names ([], s)) as [r [entities s2]] eqn:E.
    apply organizations_asked in E. destruct E as (newCalls & Hc & Pc).
    simpl in Hc.
    assert (Hs : s' = s2).
    { destruct r as [err|x]; simpl in H; [destruct (truthy err)|];
        now inversion H. }
    subst s2. eauto.
Qed.

End AggregationOptions.

Section ExportedAggregations.
Variable World : Type.
Variable execute : CompositeApiContext World -> thunk World.
Variable collectionsClient : string -> option (clientMethod World).
Variable constructedBackgroundRefresh : value.

(** X24.  The aggregations [createMethods] exports ([teamMembers],
    [repoCollaborators], [repoTeams]), given an options object and a
    cache policy object, hand the engine a context of their API with the
    whole token set as its token; and whenever the method of that context
    runs and its listing arrives, every call it then makes has the
    [apiTypePrefix] [github.x#] in its options: the prefix set on the
    caller's options reaches each inner call, which no template can
    change. *)
Theorem aggregations_ask_with_the_api_type_prefix
    (apiName innerKeyType : string)
    (outerFunction :
       props -> value -> value -> value -> state World -> reported * state World)
    (collectionMethodName collectionKey : string)
    (orgsAndTokens opts policy : props) (callback : value) (s : state World) :
  exists apiContext,
    aggregation World execute collectionsClient constructedBackgroundRefresh
      apiName innerKeyType outerFunction collectionMethodName collectionKey
      orgsAndTokens (VObj opts) (VObj policy) callback s
    = (thenCallback callback (fst (execute apiContext s)),
       snd (execute apiContext s))
    /\ api apiContext = apiName
    /\ token apiContext = VObj orgsAndTokens
    /\ forall s0 outerError data s1 p s2,
         outerFunction orgsAndTokens (VObj []) (VObj policy)
                       (VFun "outerCallback") s0
         = (Called outerError data, s1) ->
         apiMethod apiContext s0 = (p, s2) ->
         exists newCalls : list call,
           calls s2 = calls s1 ++ newCalls
           /\ Forall (fun c =>
                        exists localOptions,
                          callOptions c = VObj localOptions
                          /\ prop_lookup "apiTypePrefix" localOptions
                             = Some (VStr "github.x#"))
                     newCalls.
Proof.
  unfold aggregation. cbn [withApiTypePrefix].
  unfold generalizedCollectionMethod, apiContextFor.
  assert (Hswap : match callback with
                  | VUndefined => is_function (VObj policy)
                  | _ => false
                  end = false) by (now destruct callback).
  rewrite Hswap. cbn [get bind].
  assert (Hasked : forall s0 outerError data s1 p s2,
    outerFunction orgsAndTokens (VObj []) (VObj policy) (VFun "outerCallback") s0
    = (Called outerError data, s1) ->
    crossOrganizationCollection World collectionsClient orgsAndTokens
      (VObj (prop_set "apiTypePrefix" (VStr "github.x#") opts)) (VObj policy)
      innerKeyType outerFunction collectionMethodName collectionKey
      (VBool true) s0 = (p, s2) ->
    exists newCalls : list call,
      calls s2 = calls s1 ++ newCalls
      /\ Forall (fun c =>
                   exists localOptions,
                     callOptions c = VObj localOptions
                     /\ prop_lookup "apiTypePrefix" localOptions
                        = Some (VStr "github.x#"))
                newCalls).
  { intros s0 outerError data s1 p s2 Hlisting Hrun.
    unfold crossOrganizationCollection in Hrun. rewrite Hlisting in Hrun.
    apply outerCallback_asked in Hrun. destruct Hrun as (newCalls & Hc & Pc).
    exists newCalls. split; [exact Hc|].
    eapply List.Forall_impl; [|exact Pc].
    intros c (orgName & orgEntity & lo & Ho & Hlo). exists lo.
    split; [exact Hlo|]. unfold innerOptionsFor in Ho.
    destruct (localOptionsTargetFor innerKeyType orgName orgEntity) as [t|x];
      [|discriminate].
    cbn [bind] in Ho. inversion Ho; subst.
    rewrite !prop_lookup_delete_ne by discriminate.
    now rewrite prop_lookup_assign, prop_lookup_set_eq. }
  destruct (truthy (prop_get "backgroundRefresh" policy));
    eexists; (split; [apply settled_pair|]);
    (split; [reflexivity|]); (split; [reflexivity|]); exact Hasked.
Qed.

End ExportedAggregations.
